(** * helm-upgrade-preview: the manifest analysis pipeline

    A shallow embedding of [helm_preview] (parser/manifest.py,
    diff/filters.py, diff/semantic.py, diff/engine.py, analysis/risk.py,
    analysis/ownership.py, config.py, core/ and cli.py up to the
    renderers) together with the properties of the pipeline that the
    specification states and further properties read off the code.

    Python values are modelled by the inductive type [value]; a Python
    [str] is a Rocq [string] whose characters are read as the code points
    0..255; the keys of a mapping are strings.  The parser's resources
    hold their four identity fields as the document gives them
    ([manifest.Loaded]); the steps after parsing are modelled on
    resources whose fields have the types the dataclass declares
    ([manifest.Resource]).  Code that mutates a deep copy in place is
    written as a function that returns the updated copy; [strip_noise]
    is also given on a heap of dict objects, which keeps the sharing
    that YAML aliases bring ([objects]).  A function that can raise
    returns an [outcome].  Third-party libraries (PyYAML, deepdiff) and
    the few built-ins whose exact behaviour is an implementation matter
    (the comparison schedule of [sorted], [fnmatch], [repr] of a float)
    sit behind the class [Runtime], the subprocess call and [yaml.dump]
    behind the class [Shell], whose call ends with the output, with a
    [RunError], or with the exception of a command that could not be
    run; every general theorem holds for every runtime and every shell,
    and a reference runtime executes the examples.

    Not modelled: the renderers. *)

From Stdlib Require Import ZArith List String Ascii Bool Lia Permutation.
From Stdlib Require Import Floats.SpecFloat DecimalString.
Import ListNotations.
Local Open Scope list_scope.
Local Open Scope string_scope.

(* ================================================================== *)
(** * Python text built-ins *)
(* ================================================================== *)

Definition code (c : ascii) : nat := nat_of_ascii c.

Definition in_range (lo hi : nat) (c : ascii) : bool :=
  (lo <=? code c)%nat && (code c <=? hi)%nat.

(** [str.isspace] on one character of the Latin-1 range. *)
Definition is_space (c : ascii) : bool :=
  in_range 9 13 c || in_range 28 32 c
  || (code c =? 133)%nat || (code c =? 160)%nat.

Definition is_digit (c : ascii) : bool := in_range 48 57 c.

Definition digit_val (c : ascii) : Z := Z.of_nat (code c) - 48.

(** [s.lstrip()], [s.rstrip()], [s.strip()]. *)
Fixpoint lstrip (s : string) : string :=
  match s with
  | EmptyString => EmptyString
  | String c s' => if is_space c then lstrip s' else s
  end.

Fixpoint rstrip (s : string) : string :=
  match s with
  | EmptyString => EmptyString
  | String c s' =>
      match rstrip s' with
      | EmptyString => if is_space c then EmptyString else String c EmptyString
      | r => String c r
      end
  end.

Definition strip (s : string) : string := rstrip (lstrip s).

(** [s.strip(chars)]: removes leading and trailing characters that
    satisfy [p]. *)
Fixpoint lstrip_chars (p : ascii -> bool) (s : string) : string :=
  match s with
  | EmptyString => EmptyString
  | String c s' => if p c then lstrip_chars p s' else s
  end.

Fixpoint rstrip_chars (p : ascii -> bool) (s : string) : string :=
  match s with
  | EmptyString => EmptyString
  | String c s' =>
      match rstrip_chars p s' with
      | EmptyString => if p c then EmptyString else String c EmptyString
      | r => String c r
      end
  end.

Definition strip_chars (p : ascii -> bool) (s : string) : string :=
  rstrip_chars p (lstrip_chars p s).

(** [s.lower()] on the Latin-1 range: A-Z and the accented capitals
    0xC0-0xDE (the multiplication sign 0xD7 excepted) move up by 32. *)
Definition lower_char (c : ascii) : ascii :=
  if in_range 65 90 c
     || (in_range 192 222 c && negb (code c =? 215)%nat)
  then ascii_of_nat (code c + 32) else c.

Fixpoint lower (s : string) : string :=
  match s with
  | EmptyString => EmptyString
  | String c s' => String (lower_char c) (lower s')
  end.

(** [s.startswith(p)]. *)
Definition startswith (s p : string) : bool := String.prefix p s.

(** [sub in s] for strings. *)
Fixpoint contains (sub s : string) : bool :=
  String.prefix sub s ||
  match s with
  | EmptyString => false
  | String _ s' => contains sub s'
  end.

(** [c in s] for one character. *)
Fixpoint has_char (c : ascii) (s : string) : bool :=
  match s with
  | EmptyString => false
  | String d s' => Ascii.eqb c d || has_char c s'
  end.

(** [s.replace(old, new)] for a non-empty [old]: left to right, without
    overlap.  [fuel] bounds the number of characters still to scan. *)
Fixpoint drop (n : nat) (s : string) : string :=
  match n, s with
  | O, _ => s
  | S n', String _ s' => drop n' s'
  | S _, EmptyString => EmptyString
  end.

Fixpoint replace_fuel (fuel : nat) (old new s : string) : string :=
  match fuel with
  | O => s
  | S fuel' =>
      match s with
      | EmptyString => EmptyString
      | String c s' =>
          if String.prefix old s
          then new ++ replace_fuel fuel' old new (drop (String.length old) s)
          else String c (replace_fuel fuel' old new s')
      end
  end.

Definition replace (old new s : string) : string :=
  match old with
  | EmptyString => s
  | _ => replace_fuel (String.length s) old new s
  end.

(** [s.replace(old, new, 1)]: the first occurrence only. *)
Fixpoint replace_first (old new s : string) : string :=
  if String.prefix old s then new ++ drop (String.length old) s
  else match s with
       | EmptyString => EmptyString
       | String c s' => String c (replace_first old new s')
       end.

(** [s.splitlines(keepends=True)] on the Latin-1 range.  Line
    boundaries: LF, CR, CR LF, VT, FF, FS, GS, RS and NEL. *)
Definition is_linebreak (c : ascii) : bool :=
  in_range 10 13 c || in_range 28 30 c || (code c =? 133)%nat.

Fixpoint splitlines_aux (cur : string) (s : string) : list string :=
  match s with
  | EmptyString =>
      match cur with EmptyString => [] | _ => [cur] end
  | String c s' =>
      if (code c =? 13)%nat then
        match s' with
        | String d s'' =>
            if (code d =? 10)%nat
            then (cur ++ String c (String d EmptyString))
                   :: splitlines_aux EmptyString s''
            else (cur ++ String c EmptyString) :: splitlines_aux EmptyString s'
        | EmptyString => [cur ++ String c EmptyString]
        end
      else if is_linebreak c
      then (cur ++ String c EmptyString) :: splitlines_aux EmptyString s'
      else splitlines_aux (cur ++ String c EmptyString) s'
  end.

Definition splitlines_keepends (s : string) : list string :=
  splitlines_aux EmptyString s.

(** The concatenation of [parts]: [join] on the empty separator. *)
Definition join_empty (parts : list string) : string :=
  fold_right String.append EmptyString parts.

(* ================================================================== *)
(** * Python values *)
(* ================================================================== *)

#[local] Set Warnings "-register-all".

(** What [yaml.safe_load] yields for a manifest: [None], booleans,
    integers, floats (IEEE 754 binary64), strings, lists and mappings
    with string keys.  A mapping keeps its insertion order, as a Python
    [dict] does, and holds each key once ([wf_value]).  Timestamps,
    binary scalars, sets and mappings with other keys are left out, and
    so is object identity: the one place where Python consults it, the
    shortcut of container equality, only matters for a NaN compared
    with itself. *)
Inductive value : Type :=
  | VNone
  | VBool (b : bool)
  | VInt (z : Z)
  | VFloat (f : spec_float)
  | VStr (s : string)
  | VList (l : list value)
  | VDict (d : list (string * value)).

Definition pydict : Type := list (string * value).

(** ** dict operations *)

Definition keys {A : Type} (d : list (string * A)) : list string :=
  map fst d.

(** [d.get(k)]; [None] of the option type is the absent key. *)
Fixpoint dict_get {A : Type} (k : string) (d : list (string * A)) : option A :=
  match d with
  | [] => None
  | (k', v) :: d' => if String.eqb k k' then Some v else dict_get k d'
  end.

(** [k in d]. *)
Definition dict_has {A : Type} (k : string) (d : list (string * A)) : bool :=
  match dict_get k d with Some _ => true | None => false end.

(** [d[k] = v]: an existing key keeps its position, a new key goes last. *)
Fixpoint dict_set {A : Type} (k : string) (v : A) (d : list (string * A))
  : list (string * A) :=
  match d with
  | [] => [(k, v)]
  | (k', v') :: d' =>
      if String.eqb k k' then (k', v) :: d' else (k', v') :: dict_set k v d'
  end.

(** [del d[k]]. *)
Definition dict_del {A : Type} (k : string) (d : list (string * A))
  : list (string * A) :=
  filter (fun kv => negb (String.eqb k (fst kv))) d.

(** [d.get(k)] at the Python level: an absent key reads as [None]. *)
Definition get_or_none (k : string) (d : pydict) : value :=
  match dict_get k d with Some v => v | None => VNone end.

(** Membership of a string in a list of strings. *)
Definition mem (k : string) (l : list string) : bool :=
  existsb (String.eqb k) l.

(** ** Well-formedness: a Python dict holds each key once *)

Fixpoint wf_value (v : value) : Prop :=
  match v with
  | VList l => (fix all (l : list value) : Prop :=
                  match l with
                  | [] => True
                  | x :: l' => wf_value x /\ all l'
                  end) l
  | VDict d => NoDup (keys d) /\
               (fix all (d : pydict) : Prop :=
                  match d with
                  | [] => True
                  | (_, x) :: d' => wf_value x /\ all d'
                  end) d
  | _ => True
  end.

(** Nesting depth of containers; scalars have height 0. *)
Fixpoint height (v : value) : nat :=
  match v with
  | VList l => S ((fix mx (l : list value) : nat :=
                     match l with
                     | [] => O
                     | x :: l' => Nat.max (height x) (mx l')
                     end) l)
  | VDict d => S ((fix mx (d : pydict) : nat :=
                     match d with
                     | [] => O
                     | (_, x) :: d' => Nat.max (height x) (mx d')
                     end) d)
  | _ => O
  end.

(** ** Numbers and [==] *)

Inductive number : Type :=
  | NInt (z : Z)
  | NFloat (f : spec_float).

(** [int == float]: Python compares the exact mathematical values. *)
Definition int_float_eqb (z : Z) (f : spec_float) : bool :=
  match f with
  | S754_zero _ => (z =? 0)%Z
  | S754_finite s m e =>
      let sm := cond_Zopp s (Zpos m) in
      if (0 <=? e)%Z then (z =? sm * 2 ^ e)%Z
      else (z * 2 ^ (- e) =? sm)%Z
  | _ => false
  end.

Definition num_eqb (x y : number) : bool :=
  match x, y with
  | NInt a, NInt b => (a =? b)%Z
  | NFloat a, NFloat b => SFeqb a b
  | NInt a, NFloat b => int_float_eqb a b
  | NFloat a, NInt b => int_float_eqb b a
  end.

(** The numeric reading of a value under [==]: [bool] is a subclass of
    [int], so [True == 1]. *)
Definition as_number (v : value) : option number :=
  match v with
  | VBool b => Some (NInt (if b then 1 else 0)%Z)
  | VInt z => Some (NInt z)
  | VFloat f => Some (NFloat f)
  | _ => None
  end.

(** [a == b].  Lists compare element by element; dicts compare their
    sizes and then look every item of the left operand up in the right
    one. *)
Fixpoint py_eq (a b : value) {struct a} : bool :=
  match a, b with
  | VNone, VNone => true
  | VStr s, VStr t => String.eqb s t
  | VList la, VList lb =>
      (fix go (la lb : list value) {struct la} : bool :=
         match la, lb with
         | [], [] => true
         | x :: la', y :: lb' => py_eq x y && go la' lb'
         | _, _ => false
         end) la lb
  | VDict da, VDict db =>
      (List.length da =? List.length db)%nat &&
      (fix go (da : pydict) {struct da} : bool :=
         match da with
         | [] => true
         | (k, x) :: da' =>
             match dict_get k db with
             | Some y => py_eq x y
             | None => false
             end && go da'
         end) da
  | _, _ =>
      match as_number a, as_number b with
      | Some x, Some y => num_eqb x y
      | _, _ => false
      end
  end.

(** ** [int(s)] and [float(s)] *)

(** Whitespace skipped around a numeric literal: the ASCII blanks, and
    NEL and NBSP, which the conversion first maps to a blank. *)
Definition is_space_num (c : ascii) : bool :=
  in_range 9 13 c || (code c =? 32)%nat
  || (code c =? 133)%nat || (code c =? 160)%nat.

Definition strip_num (s : string) : string :=
  strip_chars is_space_num s.

Definition underscore : ascii := "_"%char.

(** Underscores of a numeric literal: each one stands between two
    digits.  Returns the literal without them, or [None] when one is
    misplaced.  [prev] is the character before [s]. *)
Fixpoint drop_underscores (prev : option ascii) (s : string) : option string :=
  match s with
  | EmptyString =>
      match prev with
      | Some p => if Ascii.eqb p underscore then None else Some EmptyString
      | None => Some EmptyString
      end
  | String c s' =>
      let prev_digit :=
        match prev with Some p => is_digit p | None => false end in
      let prev_us :=
        match prev with Some p => Ascii.eqb p underscore | None => false end in
      if Ascii.eqb c underscore then
        if prev_digit then drop_underscores (Some c) s' else None
      else if prev_us && negb (is_digit c) then None
      else option_map (String c) (drop_underscores (Some c) s')
  end.

(** The value of a run of decimal digits, most significant first. *)
Fixpoint digits_value (acc : Z) (s : string) : option Z :=
  match s with
  | EmptyString => Some acc
  | String c s' =>
      if is_digit c then digits_value (acc * 10 + digit_val c)%Z s'
      else None
  end.

Definition all_digits (s : string) : option Z :=
  match s with
  | EmptyString => None
  | _ => digits_value 0%Z s
  end.

(** Splits an optional sign off a literal: [(negative, rest)]. *)
Definition split_sign (s : string) : bool * string :=
  match s with
  | String "+"%char r => (false, r)
  | String "-"%char r => (true, r)
  | _ => (false, s)
  end.

(** [int(s)]; [None] is [ValueError]. *)
Definition py_int (s : string) : option Z :=
  let '(neg, body) := split_sign (strip_num s) in
  match drop_underscores None body with
  | Some ds =>
      match all_digits ds with
      | Some n => Some (if neg then (- n)%Z else n)
      | None => None
      end
  | None => None
  end.

(** The leading digits of [s] and what follows them. *)
Fixpoint span_digits (s : string) : string * string :=
  match s with
  | String c s' =>
      if is_digit c
      then let '(ds, rest) := span_digits s' in (String c ds, rest)
      else (EmptyString, s)
  | EmptyString => (EmptyString, EmptyString)
  end.

Definition prec64 : Z := 53.
Definition emax64 : Z := 1024.

(** The binary64 number nearest to [m * 10 ^ e10] (ties to even), for a
    non-negative mantissa [m]; overflow gives an infinity. *)
Definition round_decimal (neg : bool) (m e10 : Z) : spec_float :=
  match m with
  | Zpos p =>
      if (0 <=? e10)%Z
      then binary_normalize prec64 emax64
             (cond_Zopp neg (Zpos p * 10 ^ e10)) 0 false
      else let '(q, e, l) :=
             SFdiv_core_binary prec64 emax64 (Zpos p) 0 (10 ^ (- e10)) 0 in
           binary_round_aux prec64 emax64 neg q e l
  | _ => S754_zero neg
  end.

(** The exponent part of a decimal literal: empty, or [e]/[E], an
    optional sign and at least one digit. *)
Definition parse_exponent (s : string) : option Z :=
  match s with
  | EmptyString => Some 0%Z
  | String c r =>
      if Ascii.eqb c "e"%char || Ascii.eqb c "E"%char then
        let '(neg, ds) := split_sign r in
        match all_digits ds with
        | Some n => Some (if neg then (- n)%Z else n)
        | None => None
        end
      else None
  end.

(** A decimal literal without sign: digits, an optional point and
    digits (one digit at least on either side), an optional exponent. *)
Definition parse_decimal (neg : bool) (s : string) : option spec_float :=
  let '(ip, r1) := span_digits s in
  let '(fp, r2) :=
    match r1 with
    | String "."%char r => span_digits r
    | _ => (EmptyString, r1)
    end in
  match (ip ++ fp)%string with
  | EmptyString => None
  | ds =>
      match digits_value 0%Z ds, parse_exponent r2 with
      | Some m, Some e =>
          Some (round_decimal neg m (e - Z.of_nat (String.length fp)))
      | _, _ => None
      end
  end.

(** [float(s)]; [None] is [ValueError]. *)
Definition py_float (s : string) : option spec_float :=
  match drop_underscores None (strip_num s) with
  | None => None
  | Some t =>
      let '(neg, body) := split_sign t in
      let lb := lower body in
      if String.eqb lb "inf" || String.eqb lb "infinity"
      then Some (S754_infinity neg)
      else if String.eqb lb "nan" then Some S754_nan
      else parse_decimal neg body
  end.

(* ================================================================== *)
(** * The runtime interface *)
(* ================================================================== *)

(** The result of [DeepDiff(old, new, verbose_level=2)]: one mapping per
    report category, from a path such as [root['spec']['replicas']] to
    the detail of the change.  For the two "changed" categories the
    detail carries [old_value] and [new_value]. *)
Record DeepDiffResult : Type := mkDeepDiff {
  values_changed : list (string * (value * value));
  type_changes : list (string * (value * value));
  dictionary_item_added : list (string * value);
  dictionary_item_removed : list (string * value);
  iterable_item_added : list (string * value);
  iterable_item_removed : list (string * value)
}.

(** Library code the program calls and does not define.  A failing call
    ([yaml.YAMLError], [TypeError]) is [None]. *)
Class Runtime : Type := {
  (** [yaml.safe_load(text)] *)
  yaml_safe_load : string -> option value;
  (** [DeepDiff(old, new, verbose_level=2)] *)
  DeepDiff : value -> value -> DeepDiffResult;
  (** [fnmatch.fnmatch(name, pattern)] *)
  fnmatch : string -> string -> bool;
  (** [sorted(items, key=f)] *)
  sorted : (value -> value) -> list value -> option (list value);
  (** [repr(x)] for a float [x] *)
  float_repr : spec_float -> string
}.

(* ================================================================== *)
(** * diff/semantic.py *)
(* ================================================================== *)

(** [_coerce_numeric]: numbers that are not booleans pass; a string is
    read with [int], then with [float]. *)
Definition _coerce_numeric (val : value) : option number :=
  match val with
  | VInt z => Some (NInt z)
  | VFloat f => Some (NFloat f)
  | VStr s =>
      match py_int s with
      | Some z => Some (NInt z)
      | None =>
          match py_float s with
          | Some f => Some (NFloat f)
          | None => None
          end
      end
  | _ => None
  end.

Definition _BOOL_MAP : list (string * bool) :=
  [("true", true); ("false", false); ("yes", true); ("no", false)].

(** [_coerce_bool]. *)
Definition _coerce_bool (val : value) : option bool :=
  match val with
  | VBool b => Some b
  | VStr s => dict_get (lower s) _BOOL_MAP
  | _ => None
  end.

(** The keys of both mappings, those of [a] first: [set(a) | set(b)]. *)
Definition union_keys (a b : pydict) : list string :=
  keys a ++ filter (fun k => negb (mem k (keys a))) (keys b).

(** Conjunction of the results of [f] over [l]; [None] (fuel exhausted)
    propagates. *)
Fixpoint all_opt {A : Type} (f : A -> option bool) (l : list A) : option bool :=
  match l with
  | [] => Some true
  | x :: l' =>
      match f x, all_opt f l' with
      | Some b, Some c => Some (b && c)
      | _, _ => None
      end
  end.

Definition is_none (v : value) : bool :=
  match v with VNone => true | _ => false end.

(** [_deep_semantic_equal].  A recursive call descends into [a], into
    [b], or into both (an absent key reads as [None]), so the recursion
    is on a fuel that [is_semantically_equal] sets from the heights of
    its arguments; [None] is "out of fuel". *)
Fixpoint deep_fuel (fuel : nat) (a b : value) : option bool :=
  match fuel with
  | O => None
  | S fuel' =>
      (* Direct equality *)
      if py_eq a b then Some true
      (* None vs missing *)
      else if is_none a && is_none b then Some true
      else
        (* Numeric coercion *)
        match _coerce_numeric a, _coerce_numeric b with
        | Some x, Some y => Some (num_eqb x y)
        | _, _ =>
            (* Boolean coercion *)
            match _coerce_bool a, _coerce_bool b with
            | Some x, Some y => Some (Bool.eqb x y)
            | _, _ =>
                match a, b with
                | VDict da, VDict db =>
                    all_opt
                      (fun key =>
                         deep_fuel fuel' (get_or_none key da)
                                         (get_or_none key db))
                      (union_keys da db)
                | VList la, VList lb =>
                    if negb (List.length la =? List.length lb)%nat
                    then Some false
                    else all_opt
                           (fun xy => deep_fuel fuel' (fst xy) (snd xy))
                           (combine la lb)
                | _, _ => Some false
                end
            end
        end
  end.

Definition _deep_semantic_equal (a b : value) : option bool :=
  deep_fuel (S (height a + height b)) a b.

(** [is_semantically_equal]. *)
Definition is_semantically_equal (old new : value) : bool :=
  match _deep_semantic_equal old new with
  | Some r => r
  | None => false
  end.

(* ================================================================== *)
(** * Exceptions *)
(* ================================================================== *)

(** The exceptions the modelled functions raise on the values of the
    model, and the one outcome that is not a Python exception:
    [DeclaredTypeViolation] marks a value that does not have the type
    its dataclass field declares (for instance a numeric [kind]);
    Python stores such a value unchecked, the typed part of the model
    stops there ([manifest.declared]).  The [TypeError] of a mapping
    whose keys are not all strings lies outside these values, and the
    exceptions of the subprocess call are kept apart ([run_result],
    [uncaught]). *)
Inductive exn : Type :=
  | AttributeError
  | AssertionError
  | ValueError
  | DeclaredTypeViolation.

Inductive outcome (A : Type) : Type :=
  | Ok (a : A)
  | Raised (e : exn).
Arguments Ok {A} a.
Arguments Raised {A} e.

Definition bind {A B : Type} (m : outcome A) (k : A -> outcome B) : outcome B :=
  match m with
  | Ok a => k a
  | Raised e => Raised e
  end.

Notation "x <- m ;; k" := (bind m (fun x => k))
  (at level 61, m at next level, right associativity).

(** A loop that appends to a result list and stops at the first
    exception. *)
Fixpoint collect {A B : Type} (f : A -> outcome (option B)) (l : list A)
  : outcome (list B) :=
  match l with
  | [] => Ok []
  | x :: l' =>
      r <- f x ;;
      rs <- collect f l' ;;
      Ok (match r with Some y => y :: rs | None => rs end)
  end.

(* ================================================================== *)
(** * parser/manifest.py *)
(* ================================================================== *)

Module manifest.

Record Resource : Type := mkResource {
  api_version : string;
  kind : string;
  namespace : string;
  name : string;
  body : pydict;
  raw : string
}.

(** The [key] property. *)
Definition key (r : Resource) : string :=
  api_version r ++ "/" ++ kind r ++ "/" ++ namespace r ++ "/" ++ name r.

Inductive Status : Type := added | removed | changed | unchanged.

Record ResourcePair : Type := mkPair {
  old : option Resource;
  new : option Resource;
  status : Status
}.

(** [_split_raw_docs]: the state of the loop is the list of finished
    documents and the lines of the current one. *)
Definition split_step (st : list string * list string) (line : string)
  : list string * list string :=
  let '(docs, current_lines) := st in
  if String.eqb (rstrip line) "---" then
    match current_lines with
    | [] => (docs, current_lines)
    | _ => ((docs ++ [join_empty current_lines])%list, [])
    end
  else (docs, (current_lines ++ [line])%list).

Definition _split_raw_docs (yaml_text : string) : list string :=
  let '(docs, current_lines) :=
    fold_left split_step (splitlines_keepends yaml_text) ([], []) in
  match current_lines with
  | [] => docs
  | _ => (docs ++ [join_empty current_lines])%list
  end.

Definition as_str (v : value) : outcome string :=
  match v with
  | VStr s => Ok s
  | _ => Raised DeclaredTypeViolation
  end.

(** A [Resource] object as [parse_multi_doc] builds it.  Python does not
    check the annotations of a dataclass, so the four identity fields
    hold the values the document gives, of whatever type (a null
    namespace, a numeric name).  [Resource] above is the object whose
    fields have their declared types. *)
Record Loaded : Type := mkLoaded {
  loaded_api_version : value;
  loaded_kind : value;
  loaded_namespace : value;
  loaded_name : value;
  loaded_body : pydict;
  loaded_raw : string
}.

(** The object read with its declared field types.  The code goes on
    with any values; the typed part of the model stops here on a field
    that is not a string. *)
Definition declared (l : Loaded) : outcome Resource :=
  av <- as_str (loaded_api_version l) ;;
  kd <- as_str (loaded_kind l) ;;
  ns <- as_str (loaded_namespace l) ;;
  nm <- as_str (loaded_name l) ;;
  Ok (mkResource av kd ns nm (loaded_body l) (loaded_raw l)).

Definition declared_all (ls : list Loaded) : outcome (list Resource) :=
  collect (fun l => r <- declared l ;; Ok (Some r)) ls.

Section Parser.
Context {rt : Runtime}.

(** One round of the loop of [parse_multi_doc]: [Ok None] is
    [continue], [Ok (Some r)] appends [r]. *)
Definition parse_doc (default_namespace raw_doc : string)
  : outcome (option Loaded) :=
  let stripped := strip raw_doc in
  match stripped with
  | EmptyString => Ok None
  | _ =>
      match yaml_safe_load stripped with
      | None => Ok None
      | Some (VDict body) =>
          if negb (dict_has "apiVersion" body) || negb (dict_has "kind" body)
          then Ok None
          else
            match
              match dict_get "metadata" body with
              | Some m => m
              | None => VDict []
              end
            with
            | VDict metadata =>
                Ok (Some (mkLoaded
                            (get_or_none "apiVersion" body)
                            (get_or_none "kind" body)
                            (match dict_get "namespace" metadata with
                             | Some v => v
                             | None => VStr default_namespace
                             end)
                            (match dict_get "name" metadata with
                             | Some v => v
                             | None => VStr EmptyString
                             end)
                            body stripped))
            | _ => Raised AttributeError
            end
      | Some _ => Ok None
      end
  end.

Definition parse_multi_doc (yaml_text default_namespace : string)
  : outcome (list Loaded) :=
  collect (parse_doc default_namespace) (_split_raw_docs yaml_text).
End Parser.

(** [{r.key: r for r in rs}]. *)
Definition key_map (rs : list Resource) : list (string * Resource) :=
  fold_left (fun d r => dict_set (key r) r d) rs [].

(** [list(dict.fromkeys(ks))]. *)
Definition fromkeys (ks : list string) : list string :=
  keys (fold_left (fun d k => dict_set k tt d) ks []).

Definition pair_of (old_map new_map : list (string * Resource)) (k : string)
  : ResourcePair :=
  let old_res := dict_get k old_map in
  let new_res := dict_get k new_map in
  let status :=
    match old_res, new_res with
    | None, _ => added
    | Some _, None => removed
    | Some o, Some n =>
        if py_eq (VDict (body o)) (VDict (body n)) then unchanged else changed
    end in
  mkPair old_res new_res status.

Definition pair_resources (old new : list Resource) : list ResourcePair :=
  let old_map := key_map old in
  let new_map := key_map new in
  let all_keys := fromkeys (keys old_map ++ keys new_map)%list in
  map (pair_of old_map new_map) all_keys.

End manifest.

(* ================================================================== *)
(** * config.py *)
(* ================================================================== *)

(** A backslash, written by its code to keep it out of string literals. *)
Definition backslash : ascii := ascii_of_nat 92.
Definition bs : string := String backslash EmptyString.

Definition NOISE_PATHS : list string :=
  [ "metadata.creationTimestamp";
    "metadata.resourceVersion";
    "metadata.uid";
    "metadata.generation";
    "metadata.managedFields";
    "metadata.annotations.meta" ++ bs ++ ".helm" ++ bs ++ ".sh/*";
    "metadata.annotations.kubectl" ++ bs ++ ".kubernetes" ++ bs
      ++ ".io/last-applied-configuration";
    "metadata.labels.helm" ++ bs ++ ".sh/chart";
    "status" ].

Definition IMMUTABLE_FIELDS : list (string * list string) :=
  [ ("deployment", ["spec.selector.matchLabels"]);
    ("service", ["spec.clusterIP"]);
    ("persistentvolumeclaim", ["spec.storageClassName"]);
    ("job", ["spec.selector"]);
    ("statefulset", ["spec.volumeClaimTemplates"]) ].

Definition UNORDERED_LIST_SORT_KEYS : list (string * string) :=
  [ ("spec.template.spec.containers.*.env", "name");
    ("spec.template.spec.containers.*.ports", "containerPort");
    ("spec.template.spec.containers.*.volumeMounts", "mountPath");
    ("spec.template.spec.volumes", "name");
    ("spec.template.spec.initContainers.*.env", "name");
    ("spec.template.spec.initContainers.*.ports", "containerPort");
    ("spec.ports", "port") ].

(* ================================================================== *)
(** * diff/filters.py *)
(* ================================================================== *)

(** [re.split(r'(?<!\\)\.', path)]: cuts at every dot that does not
    follow a backslash.  [prev_bs] tells whether the previous character
    was a backslash, [cur] is the part being read. *)
Fixpoint split_unescaped (prev_bs : bool) (cur : string) (s : string)
  : list string :=
  match s with
  | EmptyString => [cur]
  | String c s' =>
      if Ascii.eqb c "."%char && negb prev_bs
      then cur :: split_unescaped false EmptyString s'
      else split_unescaped (Ascii.eqb c backslash)
                           (cur ++ String c EmptyString) s'
  end.

(** [_split_dot_path]. *)
Definition _split_dot_path (path : string) : list string :=
  map (replace (bs ++ ".") ".") (split_unescaped false EmptyString path).

(** [s.split(".")]. *)
Fixpoint split_dots (cur : string) (s : string) : list string :=
  match s with
  | EmptyString => [cur]
  | String c s' =>
      if Ascii.eqb c "."%char then cur :: split_dots EmptyString s'
      else split_dots (cur ++ String c EmptyString) s'
  end.

Definition is_glob (key : string) : bool :=
  has_char "*"%char key || has_char "?"%char key || has_char "["%char key.

(** [sorted(obj.items())] for a dict: the items by ascending key.  Keys
    are distinct, so the values never take part in a comparison. *)
Fixpoint insert_item {A : Type} (kv : string * A) (l : list (string * A))
  : list (string * A) :=
  match l with
  | [] => [kv]
  | kv' :: l' =>
      if String.leb (fst kv) (fst kv') then kv :: l
      else kv' :: insert_item kv l'
  end.

Definition sorted_items {A : Type} (d : list (string * A)) : list (string * A) :=
  fold_right insert_item [] d.

(** [_sort_keys_recursive]. *)
Fixpoint _sort_keys_recursive (obj : value) : value :=
  match obj with
  | VDict d =>
      VDict (sorted_items
               ((fix each (d : pydict) : pydict :=
                   match d with
                   | [] => []
                   | (k, v) :: d' => (k, _sort_keys_recursive v) :: each d'
                   end) d))
  | VList l =>
      VList ((fix each (l : list value) : list value :=
                match l with
                | [] => []
                | item :: l' => _sort_keys_recursive item :: each l'
                end) l)
  | _ => obj
  end.

Section Filters.
Context {rt : Runtime}.

(** [_remove_path_parts].  The source deletes in place inside a deep
    copy; the model returns the updated copy as a value, which is what
    the copy reads as when it shares no dict
    ([remove_parts_in_place]).  [objects._remove_path_parts] is the
    function on objects. *)
Fixpoint _remove_path_parts (obj : value) (parts : list string) : value :=
  match parts, obj with
  | key :: remaining, VDict d =>
      match remaining with
      | [] =>
          (* Leaf: remove matching keys (supports glob) *)
          if is_glob key
          then VDict (filter (fun kv => negb (fnmatch (fst kv) key)) d)
          else if dict_has key d then VDict (dict_del key d)
          else obj
      | _ =>
          (* Intermediate: recurse *)
          match dict_get key d with
          | Some (VDict sub) =>
              VDict (dict_set key
                              (_remove_path_parts (VDict sub) remaining) d)
          | _ => obj
          end
      end
  | _, _ => obj
  end.

(** [_remove_path]. *)
Definition _remove_path (obj : value) (path : string) : value :=
  _remove_path_parts obj (_split_dot_path path).

Definition or_empty (extra_ignores : option (list string)) : list string :=
  match extra_ignores with
  | Some l => l
  | None => []
  end.

(** [strip_noise].  The paths form a set in the source; the model
    visits the defaults in their written order, then the extras.  On
    values the order and the repetitions are immaterial
    ([strip_noise_any_order]). *)
Definition strip_noise (body : value) (extra_ignores : option (list string))
  : value :=
  let all_paths := (NOISE_PATHS ++ or_empty extra_ignores)%list in
  fold_left _remove_path all_paths body.

(** The sort key of a list element: the entry under [sort_key] for a
    dict, the empty string when the entry is absent or the element is
    not a dict. *)
Definition sort_key_of (sort_key : string) (item : value) : value :=
  match item with
  | VDict d =>
      match dict_get sort_key d with
      | Some v => v
      | None => VStr EmptyString
      end
  | _ => VStr EmptyString
  end.

(** [_sort_list_at_path]; a [TypeError] of [sorted] leaves the list as
    it is. *)
Fixpoint _sort_list_at_path (obj : value) (parts : list string)
         (sort_key : string) : value :=
  match parts with
  | [] => obj
  | key :: remaining =>
      match obj with
      | VDict d =>
          match dict_get key d with
          | Some target =>
              match remaining with
              | [] =>
                  match target with
                  | VList l =>
                      match sorted (sort_key_of sort_key) l with
                      | Some l' => VDict (dict_set key (VList l') d)
                      | None => obj
                      end
                  | _ => obj
                  end
              | _ =>
                  VDict (dict_set key
                           (_sort_list_at_path target remaining sort_key) d)
              end
          | None => obj
          end
      | VList l =>
          if String.eqb key "*" then
            match remaining with
            | [] => obj
            | _ => VList (map (fun item =>
                                 _sort_list_at_path item remaining sort_key)
                              l)
            end
          else obj
      | _ => obj
      end
  end.

(** [_sort_known_lists]. *)
Definition _sort_known_lists (body : value) : value :=
  fold_left
    (fun b entry =>
       _sort_list_at_path b (split_dots EmptyString (fst entry)) (snd entry))
    UNORDERED_LIST_SORT_KEYS body.

(** [normalize_body]. *)
Definition normalize_body (body : value) : value :=
  _sort_known_lists (_sort_keys_recursive body).
End Filters.

(* ================================================================== *)
(** * diff/engine.py *)
(* ================================================================== *)

Module engine.
Import manifest.

Record FieldChange : Type := mkFieldChange {
  path : string;
  old_value : value;
  new_value : value;
  change_type : string
}.

Record ChangeRecord : Type := mkChangeRecord {
  resource_key : string;
  kind : string;
  name : string;
  namespace : string;
  status : Status;
  changes : list FieldChange
}.

Definition quote : ascii := "'"%char.
Definition dquote : ascii := ascii_of_nat 34.
Definition is_quote (c : ascii) : bool := Ascii.eqb c quote || Ascii.eqb c dquote.

Definition starts_with_quote (inner : string) : bool :=
  match inner with
  | String c _ => is_quote c
  | EmptyString => false
  end.

(** One bracketed segment: a quoted [inner] is a dict key, joined with a
    dot when something precedes it; anything else is a list index. *)
Definition add_segment (result inner : string) : string :=
  if starts_with_quote inner then
    let key := strip_chars is_quote inner in
    match result with
    | EmptyString => key
    | _ => result ++ "." ++ key
    end
  else result ++ "[" ++ inner ++ "]".

(** The loop of [_deepdiff_path_to_dot].  The head of [s] is [path[i]].
    Outside a bracket ([inner = None]) a ["["] opens a segment and any
    other character is skipped; inside, [inner] collects
    [path[i + 1 : end]] up to the first ["]"], which is what
    [path.index("]", i)] finds.  A bracket left open makes [index]
    raise [ValueError]. *)
Fixpoint scan_path (result : string) (inner : option string) (s : string)
  : outcome string :=
  match s with
  | EmptyString =>
      match inner with
      | None => Ok result
      | Some _ => Raised ValueError
      end
  | String c s' =>
      match inner with
      | None =>
          if Ascii.eqb c "["%char then scan_path result (Some EmptyString) s'
          else scan_path result None s'
      | Some acc =>
          if Ascii.eqb c "]"%char
          then scan_path (add_segment result acc) None s'
          else scan_path result (Some (acc ++ String c EmptyString)) s'
      end
  end.

(** [_deepdiff_path_to_dot]. *)
Definition _deepdiff_path_to_dot (path : string) : outcome string :=
  scan_path EmptyString None (replace_first "root" EmptyString path).

(** A loop over the items of one report category. *)
Fixpoint each_item {A : Type} (mk : string -> A -> FieldChange)
         (items : list (string * A)) : outcome (list FieldChange) :=
  match items with
  | [] => Ok []
  | (p, detail) :: items' =>
      dot <- _deepdiff_path_to_dot p ;;
      rest <- each_item mk items' ;;
      Ok (mk dot detail :: rest)
  end.

(** [_extract_changes]. *)
Definition _extract_changes (dd : DeepDiffResult) : outcome (list FieldChange) :=
  c1 <- each_item (fun p d => mkFieldChange p (fst d) (snd d) "value_changed")
                  (values_changed dd) ;;
  c2 <- each_item (fun p d => mkFieldChange p (fst d) (snd d) "type_changed")
                  (type_changes dd) ;;
  c3 <- each_item (fun p v => mkFieldChange p VNone v "item_added")
                  (dictionary_item_added dd) ;;
  c4 <- each_item (fun p v => mkFieldChange p v VNone "item_removed")
                  (dictionary_item_removed dd) ;;
  c5 <- each_item (fun p v => mkFieldChange p VNone v "item_added")
                  (iterable_item_added dd) ;;
  c6 <- each_item (fun p v => mkFieldChange p v VNone "item_removed")
                  (iterable_item_removed dd) ;;
  Ok (c1 ++ c2 ++ c3 ++ c4 ++ c5 ++ c6)%list.

Definition record_of (res : Resource) (st : Status) (chs : list FieldChange)
  : ChangeRecord :=
  mkChangeRecord (manifest.key res) (manifest.kind res) (manifest.name res)
                 (manifest.namespace res) st chs.

Section Engine.
Context {rt : Runtime}.

(** [compute_diff]; [Ok None] is the [None] the source returns for a
    pair that is not reported. *)
Definition compute_diff (pair : ResourcePair) (show_all : bool)
           (extra_ignores : option (list string))
  : outcome (option ChangeRecord) :=
  match manifest.status pair with
  | unchanged => Ok None
  | added =>
      match new pair with
      | Some res => Ok (Some (record_of res added []))
      | None => Raised AssertionError
      end
  | removed =>
      match old pair with
      | Some res => Ok (Some (record_of res removed []))
      | None => Raised AssertionError
      end
  | changed =>
      match old pair, new pair with
      | Some o, Some n =>
          let old_body := VDict (body o) in
          let new_body := VDict (body n) in
          let old_body :=
            if show_all then old_body
            else strip_noise old_body extra_ignores in
          let new_body :=
            if show_all then new_body
            else strip_noise new_body extra_ignores in
          let old_body := normalize_body old_body in
          let new_body := normalize_body new_body in
          (* Check semantic equality after normalization *)
          if is_semantically_equal old_body new_body then Ok None
          else
            chs <- _extract_changes (DeepDiff old_body new_body) ;;
            match chs with
            | [] => Ok None
            | _ => Ok (Some (record_of o changed chs))
            end
      | _, _ => Raised AssertionError
      end
  end.

(** [diff_all]. *)
Definition diff_all (pairs : list ResourcePair) (show_all : bool)
           (extra_ignores : option (list string))
  : outcome (list ChangeRecord) :=
  collect (fun pair => compute_diff pair show_all extra_ignores) pairs.
End Engine.

End engine.

(* ================================================================== *)
(** * [str] and [repr], as f-strings apply them *)
(* ================================================================== *)

(** [sep.join(parts)]. *)
Fixpoint join (sep : string) (parts : list string) : string :=
  match parts with
  | [] => EmptyString
  | [p] => p
  | p :: rest => p ++ sep ++ join sep rest
  end.

Definition hex_digit (n : nat) : ascii :=
  if (n <? 10)%nat then ascii_of_nat (48 + n) else ascii_of_nat (87 + n).

Definition hex_escape (c : ascii) : string :=
  bs ++ "x" ++ String (hex_digit (code c / 16))
                  (String (hex_digit (code c mod 16)) EmptyString).

(** [repr] of a string: single quotes, unless the text holds a single
    quote and no double quote. *)
Definition repr_quote (s : string) : ascii :=
  if has_char engine.quote s && negb (has_char engine.dquote s)
  then engine.dquote else engine.quote.

Definition repr_char (q c : ascii) : string :=
  if Ascii.eqb c q || Ascii.eqb c backslash then bs ++ String c EmptyString
  else if (code c =? 9)%nat then bs ++ "t"
  else if (code c =? 10)%nat then bs ++ "n"
  else if (code c =? 13)%nat then bs ++ "r"
  else if (code c <? 32)%nat || (code c =? 127)%nat then hex_escape c
  else if (code c <? 127)%nat then String c EmptyString
  else if (code c <? 161)%nat || (code c =? 173)%nat then hex_escape c
  else String c EmptyString.

Fixpoint repr_chars (q : ascii) (s : string) : string :=
  match s with
  | EmptyString => EmptyString
  | String c s' => repr_char q c ++ repr_chars q s'
  end.

Definition repr_str (s : string) : string :=
  let q := repr_quote s in
  String q (repr_chars q s ++ String q EmptyString).

Definition repr_int (z : Z) : string :=
  NilZero.string_of_int (Z.to_int z).

Section Format.
Context {rt : Runtime}.

(** [repr(v)]. *)
Fixpoint py_repr (v : value) : string :=
  match v with
  | VNone => "None"
  | VBool true => "True"
  | VBool false => "False"
  | VInt z => repr_int z
  | VFloat f => float_repr f
  | VStr s => repr_str s
  | VList l =>
      "[" ++ join ", "
               ((fix each (l : list value) : list string :=
                   match l with
                   | [] => []
                   | x :: l' => py_repr x :: each l'
                   end) l)
          ++ "]"
  | VDict d =>
      "{" ++ join ", "
               ((fix each (d : pydict) : list string :=
                   match d with
                   | [] => []
                   | (k, x) :: d' =>
                       (repr_str k ++ ": " ++ py_repr x) :: each d'
                   end) d)
          ++ "}"
  end.

(** [str(v)], the default conversion of an f-string field. *)
Definition py_str (v : value) : string :=
  match v with
  | VStr s => s
  | _ => py_repr v
  end.
End Format.

(* ================================================================== *)
(** * analysis/risk.py *)
(* ================================================================== *)

Module risk.
Import engine.

Inductive RiskLevel : Type := SAFE | WARNING | DANGER.

Record RiskAnnotation : Type := mkAnnotation {
  level : RiskLevel;
  rule : string;
  message : string;
  path : string
}.

(** The annotation [check_immutable_fields] appends. *)
Definition immutable_annotation (change : ChangeRecord) (fc : FieldChange)
  : RiskAnnotation :=
  mkAnnotation DANGER "immutable_field"
    ("Immutable field '" ++ engine.path fc ++ "' changed on "
       ++ kind change ++ "/" ++ name change)
    (engine.path fc).

(** [IMMUTABLE_FIELDS.get(kind_lower, [])]. *)
Definition immutable_paths_of (kind_lower : string) : list string :=
  match dict_get kind_lower IMMUTABLE_FIELDS with
  | Some l => l
  | None => []
  end.

(** [check_immutable_fields]: one annotation per field change and
    matching prefix. *)
Definition check_immutable_fields (change : ChangeRecord)
  : list RiskAnnotation :=
  let kind_lower := lower (kind change) in
  let immutable_paths := immutable_paths_of kind_lower in
  flat_map
    (fun fc =>
       flat_map
         (fun imm_path =>
            if startswith (engine.path fc) imm_path
            then [immutable_annotation change fc]
            else [])
         immutable_paths)
    (changes change).

(** [v == "text"] for a value [v]. *)
Definition eq_str (v : value) (text : string) : bool :=
  py_eq v (VStr text).

(** [check_crd_changes]'s inner loop: the first matching prefix adds
    the annotation and breaks. *)
Fixpoint first_prefix {A : Type} (p : string) (prefixes : list string)
         (hit : A) : list A :=
  match prefixes with
  | [] => []
  | prefix :: rest =>
      if startswith p prefix then [hit] else first_prefix p rest hit
  end.

Section Rules.
Context {rt : Runtime}.

Definition service_annotation (fc : FieldChange) : RiskAnnotation :=
  let level :=
    if eq_str (old_value fc) "ClusterIP"
       && (eq_str (new_value fc) "NodePort"
           || eq_str (new_value fc) "LoadBalancer")
    then DANGER else WARNING in
  mkAnnotation level "service_type_change"
    ("Service type changed from " ++ py_str (old_value fc)
       ++ " to " ++ py_str (new_value fc))
    (engine.path fc).

(** [check_service_type_change]. *)
Definition check_service_type_change (change : ChangeRecord)
  : list RiskAnnotation :=
  if negb (String.eqb (kind change) "Service") then []
  else
    flat_map
      (fun fc =>
         if String.eqb (engine.path fc) "spec.type"
         then [service_annotation fc] else [])
      (changes change).

Definition pvc_storage_annotation (fc : FieldChange) : RiskAnnotation :=
  mkAnnotation WARNING "pvc_storage_change"
    ("PVC storage request changed from " ++ py_str (old_value fc)
       ++ " to " ++ py_str (new_value fc))
    (engine.path fc).

Definition pvc_class_annotation (fc : FieldChange) : RiskAnnotation :=
  mkAnnotation DANGER "pvc_storage_class_change"
    ("PVC storageClassName changed from " ++ py_str (old_value fc)
       ++ " to " ++ py_str (new_value fc))
    (engine.path fc).

(** [check_pvc_changes]. *)
Definition check_pvc_changes (change : ChangeRecord) : list RiskAnnotation :=
  if negb (String.eqb (kind change) "PersistentVolumeClaim") then []
  else
    flat_map
      (fun fc =>
         ((if contains "storage" (engine.path fc)
              && contains "requests" (engine.path fc)
           then [pvc_storage_annotation fc] else [])
          ++
          (if String.eqb (engine.path fc) "spec.storageClassName"
           then [pvc_class_annotation fc] else []))%list)
      (changes change).
End Rules.

Definition deletion_annotation (change : ChangeRecord) : RiskAnnotation :=
  mkAnnotation WARNING "resource_deleted"
    (kind change ++ "/" ++ name change ++ " will be removed")
    EmptyString.

(** [check_resource_deletion]. *)
Definition check_resource_deletion (change : ChangeRecord)
  : list RiskAnnotation :=
  match engine.status change with
  | manifest.removed => [deletion_annotation change]
  | _ => []
  end.

Definition crd_annotation (change : ChangeRecord) (fc : FieldChange)
  : RiskAnnotation :=
  mkAnnotation DANGER "crd_spec_change"
    ("CRD spec change at '" ++ engine.path fc ++ "' on " ++ name change)
    (engine.path fc).

(** [check_crd_changes]. *)
Definition check_crd_changes (change : ChangeRecord) : list RiskAnnotation :=
  if negb (String.eqb (kind change) "CustomResourceDefinition") then []
  else
    let danger_prefixes :=
      ["spec.scope"; "spec.versions"; "spec.validation"; "spec.names"] in
    flat_map
      (fun fc =>
         first_prefix (engine.path fc) danger_prefixes
                      (crd_annotation change fc))
      (changes change).

Definition rbac_annotation (change : ChangeRecord) (fc : FieldChange)
  : RiskAnnotation :=
  mkAnnotation WARNING "rbac_change"
    ("RBAC rules changed at '" ++ engine.path fc ++ "' on "
       ++ kind change ++ "/" ++ name change)
    (engine.path fc).

(** [check_rbac_escalation]. *)
Definition check_rbac_escalation (change : ChangeRecord)
  : list RiskAnnotation :=
  if negb (String.eqb (kind change) "ClusterRole"
           || String.eqb (kind change) "Role") then []
  else
    flat_map
      (fun fc =>
         if startswith (engine.path fc) "rules"
         then [rbac_annotation change fc] else [])
      (changes change).

Section Registry.
Context {rt : Runtime}.

(** [RISK_RULES]. *)
Definition RISK_RULES : list (ChangeRecord -> list RiskAnnotation) :=
  [ check_immutable_fields;
    check_service_type_change;
    check_pvc_changes;
    check_resource_deletion;
    check_crd_changes;
    check_rbac_escalation ].

(** [assess_risk]. *)
Definition assess_risk (changes : list ChangeRecord)
  : list (ChangeRecord * list RiskAnnotation) :=
  map (fun change =>
         (change, flat_map (fun rule => rule change) RISK_RULES))
      changes.
End Registry.

End risk.

(* ================================================================== *)
(** * cli.py: steps 4 to 7 of [diff] *)
(* ================================================================== *)

Module cli.
Import manifest engine risk.

(** [sum(1 for p in pairs if p.status == "unchanged")]. *)
Definition total_unchanged (pairs : list ResourcePair) : nat :=
  List.length
    (filter (fun p => match manifest.status p with
                      | unchanged => true
                      | _ => false
                      end) pairs).

Record Analysis : Type := mkAnalysis {
  risk_results : list (ChangeRecord * list RiskAnnotation);
  unchanged_count : nat
}.

Section Pipeline.
Context {rt : Runtime}.

(** From the two parsed snapshots to what the renderers receive:
    pairing, diffing, risk assessment and the count of unchanged
    pairs.  [ignore_path] is the tuple of [--ignore-path] options. *)
Definition analyse (live_resources upgrade_resources : list Resource)
           (show_all : bool) (ignore_path : list string)
  : outcome Analysis :=
  let pairs := pair_resources live_resources upgrade_resources in
  change_records <-
    diff_all pairs show_all
             (match ignore_path with [] => None | _ => Some ignore_path end) ;;
  Ok (mkAnalysis (assess_risk change_records) (total_unchanged pairs)).

(** The same from the two manifest texts. *)
Definition analyse_text (live_yaml upgrade_yaml ns : string)
           (show_all : bool) (ignore_path : list string)
  : outcome Analysis :=
  live_resources <- parse_multi_doc live_yaml ns ;;
  upgrade_resources <- parse_multi_doc upgrade_yaml ns ;;
  live_resources <- declared_all live_resources ;;
  upgrade_resources <- declared_all upgrade_resources ;;
  analyse live_resources upgrade_resources show_all ignore_path.
End Pipeline.

End cli.

(* ================================================================== *)
(** * A reference runtime *)
(* ================================================================== *)

(** Executable stand-ins for the library calls, used to run the
    pipeline on concrete manifests.  They agree with the libraries on
    the inputs of the examples; the general theorems do not depend on
    them. *)
Module reference.

(** ** [fnmatch]: the glob language [*], [?], [[seq]], [[!seq]] *)

Inductive glob_token : Type :=
  | GStar
  | GAny
  | GLit (c : ascii)
  | GClass (negated : bool) (ranges : list (ascii * ascii)).

(** The members of a bracket expression: [a-z] is a range, any other
    character stands for itself. *)
Fixpoint class_ranges (s : string) : list (ascii * ascii) :=
  match s with
  | String lo (String "-"%char (String hi s')) => (lo, hi) :: class_ranges s'
  | String c s' => (c, c) :: class_ranges s'
  | EmptyString => []
  end.

(** Splits [s] at the first ["]"] found after position [skip]. *)
Fixpoint until_close (skip : nat) (acc s : string) : option (string * string) :=
  match s with
  | EmptyString => None
  | String c s' =>
      match skip with
      | S k => until_close k (acc ++ String c EmptyString) s'
      | O => if Ascii.eqb c "]"%char then Some (acc, s')
             else until_close O (acc ++ String c EmptyString) s'
      end
  end.

Fixpoint glob_tokens (fuel : nat) (pat : string) : list glob_token :=
  match fuel with
  | O => []
  | S fuel' =>
      match pat with
      | EmptyString => []
      | String "*"%char p => GStar :: glob_tokens fuel' p
      | String "?"%char p => GAny :: glob_tokens fuel' p
      | String "["%char p =>
          let neg := match p with String "!"%char _ => true | _ => false end in
          let body := if neg then drop 1 p else p in
          match until_close 1 EmptyString body with
          | Some (stuff, rest) =>
              GClass neg (class_ranges stuff) :: glob_tokens fuel' rest
          | None => GLit "["%char :: glob_tokens fuel' p
          end
      | String c p => GLit c :: glob_tokens fuel' p
      end
  end.

Definition token_accepts (t : glob_token) (c : ascii) : bool :=
  match t with
  | GStar | GAny => true
  | GLit d => Ascii.eqb c d
  | GClass neg ranges =>
      xorb neg
           (existsb (fun r => (code (fst r) <=? code c)%nat
                              && (code c <=? code (snd r))%nat) ranges)
  end.

Fixpoint glob_match (toks : list glob_token) (s : string) : bool :=
  match toks with
  | [] => match s with EmptyString => true | _ => false end
  | GStar :: rest =>
      (fix try (s : string) : bool :=
         glob_match rest s ||
         match s with
         | EmptyString => false
         | String _ s' => try s'
         end) s
  | t :: rest =>
      match s with
      | EmptyString => false
      | String c s' => token_accepts t c && glob_match rest s'
      end
  end.

Definition glob_fnmatch (name pat : string) : bool :=
  glob_match (glob_tokens (String.length pat) pat) name.

(** ** [sorted]: a stable insertion sort on [<] *)

(** [compare] on numbers, exact between an integer and a float; [None]
    when a NaN takes part. *)
Definition num_compare (x y : number) : option comparison :=
  match x, y with
  | NInt a, NInt b => Some (a ?= b)%Z
  | NFloat a, NFloat b => SFcompare a b
  | NInt a, NFloat (S754_zero _) => Some (a ?= 0)%Z
  | NInt a, NFloat (S754_infinity s) => Some (if s then Gt else Lt)
  | NInt a, NFloat (S754_finite s m e) =>
      let sm := cond_Zopp s (Zpos m) in
      Some (if (0 <=? e)%Z then (a ?= sm * 2 ^ e)%Z
            else (a * 2 ^ (- e) ?= sm)%Z)
  | NFloat (S754_zero _), NInt b => Some (0 ?= b)%Z
  | NFloat (S754_infinity s), NInt b => Some (if s then Lt else Gt)
  | NFloat (S754_finite s m e), NInt b =>
      let sm := cond_Zopp s (Zpos m) in
      Some (if (0 <=? e)%Z then (sm * 2 ^ e ?= b)%Z
            else (sm ?= b * 2 ^ (- e))%Z)
  | _, _ => None
  end.

(** [a < b]; [None] is [TypeError].  Comparing with a NaN is [False]. *)
Fixpoint py_lt (a b : value) {struct a} : option bool :=
  match a, b with
  | VStr s, VStr t => Some (String.ltb s t)
  | VList la, VList lb =>
      (fix go (la lb : list value) {struct la} : option bool :=
         match la, lb with
         | [], [] => Some false
         | [], _ :: _ => Some true
         | _ :: _, [] => Some false
         | x :: la', y :: lb' => if py_eq x y then go la' lb' else py_lt x y
         end) la lb
  | _, _ =>
      match as_number a, as_number b with
      | Some x, Some y =>
          Some (match num_compare x y with Some Lt => true | _ => false end)
      | _, _ => None
      end
  end.

(** Inserts [x] behind the elements that are not greater than it. *)
Fixpoint insert_sorted (keyf : value -> value) (x : value) (l : list value)
  : option (list value) :=
  match l with
  | [] => Some [x]
  | y :: l' =>
      match py_lt (keyf x) (keyf y) with
      | None => None
      | Some true => Some (x :: l)
      | Some false => option_map (cons y) (insert_sorted keyf x l')
      end
  end.

Definition insertion_sorted (keyf : value -> value) (l : list value)
  : option (list value) :=
  fold_left
    (fun acc x => match acc with
                  | Some done => insert_sorted keyf x done
                  | None => None
                  end)
    l (Some []).

(** ** [repr] of a float: the shortest digits that read back *)

Definition digits_of (n : Z) : string :=
  NilZero.string_of_uint (N.to_uint (Z.to_N n)).

(** [10 ^ k <= num / den], for positive [num] and [den]. *)
Definition pow10_le (k num den : Z) : bool :=
  if (0 <=? k)%Z then (10 ^ k * den <=? num)%Z
  else (den <=? num * 10 ^ (- k))%Z.

(** The decimal exponent of [num / den]: the largest [k] with
    [10 ^ k <= num / den], searched downwards from [k]. *)
Fixpoint dec_exponent (fuel : nat) (k num den : Z) : Z :=
  match fuel with
  | O => k
  | S fuel' =>
      if pow10_le k num den then k
      else dec_exponent fuel' (k - 1) num den
  end.

(** [floor (num / den / 10 ^ q)]. *)
Definition scaled_floor (q num den : Z) : Z :=
  if (0 <=? q)%Z then (num / (den * 10 ^ q))%Z
  else ((num * 10 ^ (- q)) / den)%Z.

(** Is [d * 10 ^ q] at most as far from [num / den] as [(d + 1) * 10 ^ q]?
    [Eq] is the tie. *)
Definition nearer (q d num den : Z) : comparison :=
  if (0 <=? q)%Z
  then (2 * num ?= (2 * d + 1) * 10 ^ q * den)%Z
  else (2 * num * 10 ^ (- q) ?= (2 * d + 1) * den)%Z.

(** The shortest decimal [d * 10 ^ q] with at most [n], [n + 1], ...
    significant digits that [float] reads back as the given number. *)
Fixpoint shortest (fuel : nat) (n : Z) (k : Z) (m : positive) (e : Z)
         (num den : Z) : Z * Z :=
  let q := (k - n + 1)%Z in
  let lo := scaled_floor q num den in
  let hi := (lo + 1)%Z in
  let back d := SFeqb (round_decimal false d q) (S754_finite false m e) in
  match fuel with
  | O => (lo, q)
  | S fuel' =>
      match back lo, back hi with
      | true, true =>
          match nearer q lo num den with
          | Lt => (lo, q)
          | Gt => (hi, q)
          | Eq => if Z.even lo then (lo, q) else (hi, q)
          end
      | true, false => (lo, q)
      | false, true => (hi, q)
      | false, false => shortest fuel' (n + 1) k m e num den
      end
  end.

Fixpoint zeros (n : nat) : string :=
  match n with
  | O => EmptyString
  | S n' => String "0"%char (zeros n')
  end.

Definition strip_trailing_zeros (s : string) : string :=
  match rstrip_chars (Ascii.eqb "0"%char) s with
  | EmptyString => "0"
  | r => r
  end.

(** The layout of [repr]: plain notation while [-4 < decpt <= 16],
    exponent notation otherwise. *)
Definition layout (digits : string) (decpt : Z) : string :=
  let len := Z.of_nat (String.length digits) in
  if (decpt <=? -4)%Z || (16 <? decpt)%Z then
    let ex := (decpt - 1)%Z in
    let mant :=
      match digits with
      | String d EmptyString => digits
      | String d rest => String d ("." ++ rest)
      | EmptyString => "0"
      end in
    let exd := digits_of (Z.abs ex) in
    mant ++ "e" ++ (if (ex <? 0)%Z then "-" else "+")
         ++ (if (String.length exd <? 2)%nat then "0" ++ exd else exd)
  else if (decpt <=? 0)%Z then
    "0." ++ zeros (Z.to_nat (- decpt)) ++ digits
  else if (len <=? decpt)%Z then
    digits ++ zeros (Z.to_nat (decpt - len)) ++ ".0"
  else
    substring 0 (Z.to_nat decpt) digits ++ "."
      ++ drop (Z.to_nat decpt) digits.

Definition shortest_repr (x : spec_float) : string :=
  match x with
  | S754_nan => "nan"
  | S754_infinity s => if s then "-inf" else "inf"
  | S754_zero s => if s then "-0.0" else "0.0"
  | S754_finite s m e =>
      let num := if (0 <=? e)%Z then (Zpos m * 2 ^ e)%Z else Zpos m in
      let den := if (0 <=? e)%Z then 1%Z else (2 ^ (- e))%Z in
      let guess := ((Z.log2 num - Z.log2 den) * 30103 / 100000 + 2)%Z in
      let k := dec_exponent 6 guess num den in
      let '(d, q) := shortest 17 1 k m e num den in
      let ds := digits_of d in
      let decpt := (Z.of_nat (String.length ds) + q)%Z in
      (if s then "-" else EmptyString) ++ layout (strip_trailing_zeros ds) decpt
  end.

(** ** [DeepDiff]: a positional tree diff *)

Definition dd_empty : DeepDiffResult := mkDeepDiff [] [] [] [] [] [].

Definition dd_merge (x y : DeepDiffResult) : DeepDiffResult :=
  mkDeepDiff (values_changed x ++ values_changed y)%list
             (type_changes x ++ type_changes y)%list
             (dictionary_item_added x ++ dictionary_item_added y)%list
             (dictionary_item_removed x ++ dictionary_item_removed y)%list
             (iterable_item_added x ++ iterable_item_added y)%list
             (iterable_item_removed x ++ iterable_item_removed y)%list.

(** The path segment of a dict key: in single quotes, or in double
    quotes when the key holds a single quote. *)
Definition key_segment (k : string) : string :=
  let q := if has_char engine.quote k then engine.dquote else engine.quote in
  "[" ++ String q (k ++ String q "]").

Definition index_segment (i : nat) : string :=
  "[" ++ digits_of (Z.of_nat i) ++ "]".

Fixpoint added_items (p : string) (i : nat) (l : list value)
  : list (string * value) :=
  match l with
  | [] => []
  | y :: l' => (p ++ index_segment i, y) :: added_items p (S i) l'
  end.

Fixpoint tree_diff (p : string) (a b : value) {struct a} : DeepDiffResult :=
  match a, b with
  | VDict da, VDict db =>
      dd_merge
        ((fix each (da : pydict) : DeepDiffResult :=
            match da with
            | [] => dd_empty
            | (k, x) :: da' =>
                dd_merge
                  (match dict_get k db with
                   | Some y => tree_diff (p ++ key_segment k) x y
                   | None =>
                       mkDeepDiff [] [] [] [(p ++ key_segment k, x)] [] []
                   end)
                  (each da')
            end) da)
        (mkDeepDiff [] []
           (map (fun ky => (p ++ key_segment (fst ky), snd ky))
                (filter (fun ky => negb (dict_has (fst ky) da)) db))
           [] [] [])
  | VList la, VList lb =>
      (fix each (i : nat) (la lb : list value) {struct la} : DeepDiffResult :=
         match la, lb with
         | [], _ => mkDeepDiff [] [] [] [] (added_items p i lb) []
         | x :: la', [] =>
             dd_merge (mkDeepDiff [] [] [] [] [] [(p ++ index_segment i, x)])
                      (each (S i) la' [])
         | x :: la', y :: lb' =>
             dd_merge (tree_diff (p ++ index_segment i) x y)
                      (each (S i) la' lb')
         end) O la lb
  | VNone, VNone => dd_empty
  | VBool x, VBool y =>
      if Bool.eqb x y then dd_empty else mkDeepDiff [(p, (a, b))] [] [] [] [] []
  | VInt x, VInt y =>
      if (x =? y)%Z then dd_empty else mkDeepDiff [(p, (a, b))] [] [] [] [] []
  | VFloat x, VFloat y =>
      if SFeqb x y then dd_empty else mkDeepDiff [(p, (a, b))] [] [] [] [] []
  | VStr x, VStr y =>
      if String.eqb x y then dd_empty
      else mkDeepDiff [(p, (a, b))] [] [] [] [] []
  | _, _ => mkDeepDiff [] [(p, (a, b))] [] [] [] []
  end.

(** ** [yaml.safe_load]: a table of documents *)

(** The loader of the examples knows the documents listed in [docs],
    each with the value PyYAML returns for it, and rejects any other
    text. *)
Definition table_load (docs : list (string * value)) (text : string)
  : option value :=
  dict_get text docs.

Definition runtime (docs : list (string * value)) : Runtime :=
  {| yaml_safe_load := table_load docs;
     DeepDiff := tree_diff "root";
     fnmatch := glob_fnmatch;
     sorted := insertion_sorted;
     float_repr := shortest_repr |}.

End reference.

(* ================================================================== *)
(** * Specification-side definitions and example manifests *)
(* ================================================================== *)

(** The documents the parser keeps: mappings that hold both an
    [apiVersion] and a [kind] entry. *)
Definition retained (v : value) : Prop :=
  exists body, v = VDict body
               /\ dict_has "apiVersion" body = true
               /\ dict_has "kind" body = true.

(** The [metadata] mapping of a document body, empty when absent;
    [None] when the entry is not a mapping. *)
Definition metadata_of (body : pydict) : option pydict :=
  match dict_get "metadata" body with
  | None => Some []
  | Some (VDict md) => Some md
  | Some _ => None
  end.

(** An optional string entry: absent, or present with a string. *)
Definition str_or (default : string) (k : string) (d : pydict)
  : option string :=
  match dict_get k d with
  | None => Some default
  | Some (VStr s) => Some s
  | Some _ => None
  end.

Definition newline : string := String (ascii_of_nat 10) EmptyString.

Module partial_doc.
(** A document with an [apiVersion] and no [kind]. *)
Definition text : string :=
  "apiVersion: v1" ++ newline ++
  "metadata:" ++ newline ++
  "  name: orphan".

Definition loaded : pydict :=
  [ ("apiVersion", VStr "v1");
    ("metadata", VDict [ ("name", VStr "orphan") ]) ].

(** A complete document. *)
Definition full_text : string :=
  "apiVersion: v1" ++ newline ++
  "kind: ConfigMap" ++ newline ++
  "metadata:" ++ newline ++
  "  name: settings" ++ newline.

Definition full_loaded : pydict :=
  [ ("apiVersion", VStr "v1");
    ("kind", VStr "ConfigMap");
    ("metadata", VDict [ ("name", VStr "settings") ]) ].

(** A complete document whose namespace is null and whose name is a
    number. *)
Definition untyped_text : string :=
  "apiVersion: v1" ++ newline ++
  "kind: ConfigMap" ++ newline ++
  "metadata:" ++ newline ++
  "  name: 123" ++ newline ++
  "  namespace:".

Definition untyped_loaded : pydict :=
  [ ("apiVersion", VStr "v1");
    ("kind", VStr "ConfigMap");
    ("metadata", VDict [ ("name", VInt 123); ("namespace", VNone) ]) ].

Definition rt : Runtime :=
  reference.runtime [ (text, VDict loaded);
                      (strip full_text, VDict full_loaded);
                      (untyped_text, VDict untyped_loaded) ].

(** Both documents in one stream. *)
Definition stream : string :=
  text ++ newline ++ "---" ++ newline ++ full_text.
End partial_doc.

(** ** Pairing, in the words of the specification *)

(** The distinct elements of [l], each at its first occurrence. *)
Fixpoint first_seen (l : list string) : list string :=
  match l with
  | [] => []
  | k :: l' => k :: filter (fun k' => negb (String.eqb k' k)) (first_seen l')
  end.

(** The last resource of [rs] whose identity key is [k]. *)
Definition last_with_key (k : string) (rs : list manifest.Resource)
  : option manifest.Resource :=
  find (fun r => String.eqb (manifest.key r) k) (rev rs).

(** Removed when the key is only in old, added when only in new,
    unchanged when the raw bodies are equal, changed otherwise. *)
Definition status_by_presence (o n : option manifest.Resource)
  : manifest.Status :=
  match o, n with
  | Some _, None => manifest.removed
  | None, _ => manifest.added
  | Some a, Some b =>
      if py_eq (VDict (manifest.body a)) (VDict (manifest.body b))
      then manifest.unchanged else manifest.changed
  end.

(** Old-side keys first, then the keys only the new side has. *)
Definition union_order (old new : list manifest.Resource) : list string :=
  let ko := map manifest.key old in
  let kn := map manifest.key new in
  (first_seen ko ++ filter (fun k => negb (mem k ko)) (first_seen kn))%list.

Definition pair_resources_spec (old new : list manifest.Resource)
  : list manifest.ResourcePair :=
  map (fun k =>
         let o := last_with_key k old in
         let n := last_with_key k new in
         manifest.mkPair o n (status_by_presence o n))
      (union_order old new).

(** ** Substrings *)

(** [sub] occurs in [s]. *)
Definition occurs_in (sub s : string) : Prop :=
  exists pre post, s = pre ++ sub ++ post.

(** ** Example change records *)

Module risk_examples.
Import manifest engine risk.

(** A Service whose [spec.type] moves from ClusterIP to LoadBalancer. *)
Definition exposed_service : ChangeRecord :=
  mkChangeRecord "v1/Service/default/web" "Service" "web" "default" changed
    [ mkFieldChange "spec.type" (VStr "ClusterIP") (VStr "LoadBalancer")
                    "value_changed" ].

(** A Service whose [spec.type] moves from NodePort to ClusterIP. *)
Definition hidden_service : ChangeRecord :=
  mkChangeRecord "v1/Service/default/web" "Service" "web" "default" changed
    [ mkFieldChange "spec.type" (VStr "NodePort") (VStr "ClusterIP")
                    "value_changed" ].

(** A Service with a change at [spec.clusterIPs], a field other than
    [spec.clusterIP]. *)
Definition dual_stack_service : ChangeRecord :=
  mkChangeRecord "v1/Service/default/web" "Service" "web" "default" changed
    [ mkFieldChange "spec.clusterIPs[0]" (VStr "10.0.0.1") (VStr "10.0.0.2")
                    "value_changed";
      mkFieldChange "spec.clusterIPs" VNone (VList [VStr "10.0.0.2"])
                    "item_added" ].

Definition cluster_ips_change : FieldChange :=
  mkFieldChange "spec.clusterIPs" VNone (VList [VStr "10.0.0.2"]) "item_added".

(** A claim with three changes whose paths hold both words away from
    [spec.resources.requests.storage], one change at the storage class
    and one that holds only one of the words. *)
Definition annotated_claim : ChangeRecord :=
  mkChangeRecord "v1/PersistentVolumeClaim/default/data"
    "PersistentVolumeClaim" "data" "default" changed
    [ mkFieldChange "metadata.labels.requests-storage-tier"
                    (VStr "gold") (VStr "silver") "value_changed";
      mkFieldChange "spec.storageClassName" (VStr "fast") (VStr "slow")
                    "value_changed";
      mkFieldChange "spec.resources.requests.cpu" (VStr "1") (VStr "2")
                    "value_changed" ].

Definition label_change : FieldChange :=
  mkFieldChange "metadata.labels.requests-storage-tier"
                (VStr "gold") (VStr "silver") "value_changed".

Definition class_change : FieldChange :=
  mkFieldChange "spec.storageClassName" (VStr "fast") (VStr "slow")
                "value_changed".

(** Snapshots: [gone] is in the live release only. *)
Definition gone : Resource :=
  mkResource "v1" "ConfigMap" "default" "legacy"
    [ ("apiVersion", VStr "v1"); ("kind", VStr "ConfigMap");
      ("metadata", VDict [ ("name", VStr "legacy") ]) ]
    EmptyString.

Definition kept : Resource :=
  mkResource "v1" "ConfigMap" "default" "settings"
    [ ("apiVersion", VStr "v1"); ("kind", VStr "ConfigMap");
      ("metadata", VDict [ ("name", VStr "settings") ]) ]
    EmptyString.

Definition fresh : Resource :=
  mkResource "v1" "Secret" "default" "token"
    [ ("apiVersion", VStr "v1"); ("kind", VStr "Secret");
      ("metadata", VDict [ ("name", VStr "token") ]) ]
    EmptyString.

Definition kept_edited : Resource :=
  mkResource "v1" "ConfigMap" "default" "settings"
    [ ("apiVersion", VStr "v1"); ("kind", VStr "ConfigMap");
      ("metadata", VDict [ ("name", VStr "settings") ]);
      ("data", VDict [ ("mode", VStr "fast") ]) ]
    EmptyString.

Definition gone_record : ChangeRecord :=
  mkChangeRecord "v1/ConfigMap/default/legacy" "ConfigMap" "legacy" "default"
                 removed [].

Definition rt : Runtime := reference.runtime [].
End risk_examples.

(** ** Paths, in the words of the specification *)

(** One step of a path: a mapping key or a list index. *)
Inductive segment : Type :=
  | Key (k : string)
  | Index (i : nat).

(** The path as DeepDiff writes it: [root], then [['key']] or [[i]]
    for each step. *)
Definition segment_text (s : segment) : string :=
  match s with
  | Key k => reference.key_segment k
  | Index i => reference.index_segment i
  end.

Definition deepdiff_path (segs : list segment) : string :=
  "root" ++ join_empty (map segment_text segs).

(** The grammar of the specification: keys joined with a dot, indices
    appended in brackets with no dot before them. *)
Fixpoint dot_tail (segs : list segment) : string :=
  match segs with
  | [] => EmptyString
  | Key k :: rest => "." ++ k ++ dot_tail rest
  | Index i :: rest => reference.index_segment i ++ dot_tail rest
  end.

Definition dot_path (segs : list segment) : string :=
  match segs with
  | [] => EmptyString
  | Key k :: rest => k ++ dot_tail rest
  | Index i :: rest => reference.index_segment i ++ dot_tail rest
  end.

(** Keys the scanner reads back whole: not empty, without a closing
    bracket, and with no quote character at either end. *)
Definition plain_key (k : string) : Prop :=
  k <> EmptyString
  /\ has_char "]"%char k = false
  /\ lstrip_chars engine.is_quote k = k
  /\ rstrip_chars engine.is_quote k = k.

Definition plain_segment (s : segment) : Prop :=
  match s with
  | Key k => plain_key k
  | Index _ => True
  end.

Module path_examples.
Import manifest.

Definition image_path : list segment :=
  [ Key "spec"; Key "template"; Key "spec"; Key "containers";
    Index 0; Key "image" ].

(** A custom resource whose [spec.properties] mapping uses property
    names with an index as keys; [after] changes two of its values. *)
Definition before : Resource :=
  mkResource "example.com/v1" "AppConfig" "default" "backend"
    [ ("apiVersion", VStr "example.com/v1"); ("kind", VStr "AppConfig");
      ("metadata", VDict [ ("name", VStr "backend") ]);
      ("spec", VDict
         [ ("properties", VDict [ ("servers[0].host", VStr "db-1");
                                  ("servers[0].port", VStr "5432") ]) ]) ]
    EmptyString.

Definition after : Resource :=
  mkResource "example.com/v1" "AppConfig" "default" "backend"
    [ ("apiVersion", VStr "example.com/v1"); ("kind", VStr "AppConfig");
      ("metadata", VDict [ ("name", VStr "backend") ]);
      ("spec", VDict
         [ ("properties", VDict [ ("servers[0].host", VStr "db-2");
                                  ("servers[0].port", VStr "5433") ]) ]) ]
    EmptyString.

Definition host_path : list segment :=
  [ Key "spec"; Key "properties"; Key "servers[0].host" ].

Definition rt : Runtime := reference.runtime [].
End path_examples.

(** ** Helpers of the statements and proofs *)

(** A number as a value. *)
Definition of_number (n : number) : value :=
  match n with
  | NInt z => VInt z
  | NFloat f => VFloat f
  end.

(** One item of a dict has an equal item in [db]. *)
Definition item_in (db : pydict) (kx : string * value) : bool :=
  match dict_get (fst kx) db with
  | Some y => py_eq (snd kx) y
  | None => false
  end.

(** Every character of [s] satisfies [p]. *)
Fixpoint all_chars (p : ascii -> bool) (s : string) : bool :=
  match s with
  | EmptyString => true
  | String c s' => p c && all_chars p s'
  end.

(** ** Two values that differ in representation only *)

Definition sym_left : value :=
  VDict [("port", VStr "80");
         ("flags", VList [VStr "Yes"; VFloat (S754_finite false 6755399441055744 (-52))]);
         ("extra", VNone)].

Definition sym_right : value :=
  VDict [("flags", VList [VBool true; VStr "1.5"]);
         ("port", VInt 80)].

(** ** A noise-only upgrade *)

Module noise_only.
Import manifest engine risk cli.

Definition live_body : pydict :=
  [ ("apiVersion", VStr "v1");
    ("kind", VStr "ConfigMap");
    ("metadata", VDict [ ("name", VStr "settings");
                         ("namespace", VStr "default");
                         ("resourceVersion", VStr "100") ]);
    ("data", VDict [ ("mode", VStr "fast"); ("retries", VStr "3") ]) ].

(** The same resource with another [metadata.resourceVersion] and its
    keys in another order. *)
Definition upgrade_body : pydict :=
  [ ("kind", VStr "ConfigMap");
    ("apiVersion", VStr "v1");
    ("data", VDict [ ("retries", VStr "3"); ("mode", VStr "fast") ]);
    ("metadata", VDict [ ("resourceVersion", VStr "200");
                         ("namespace", VStr "default");
                         ("name", VStr "settings") ]) ].

Definition live : Resource :=
  mkResource "v1" "ConfigMap" "default" "settings" live_body EmptyString.

Definition upgrade : Resource :=
  mkResource "v1" "ConfigMap" "default" "settings" upgrade_body EmptyString.

(** [live_body] with the resource version of [upgrade_body]. *)
Definition live_body_v200 : pydict :=
  [ ("apiVersion", VStr "v1");
    ("kind", VStr "ConfigMap");
    ("metadata", VDict [ ("name", VStr "settings");
                         ("namespace", VStr "default");
                         ("resourceVersion", VStr "200") ]);
    ("data", VDict [ ("mode", VStr "fast"); ("retries", VStr "3") ]) ].

Definition rt : Runtime := reference.runtime [].

End noise_only.

(** ** Noise stripping, step by step *)

Section StripSteps.
Context {rt : Runtime}.

(** The keys a leaf segment leaves in place. *)
Definition leaf_keeps (key k : string) : bool :=
  if is_glob key then negb (fnmatch k key) else negb (String.eqb key k).

(** The update an intermediate segment makes to the mapping under
    [key]. *)
Definition descend (key : string) (f : value -> value) (d : pydict) : pydict :=
  match dict_get key d with
  | Some (VDict sub) => dict_set key (f (VDict sub)) d
  | _ => d
  end.
End StripSteps.

(* ================================================================== *)
(** * analysis/ownership.py *)
(* ================================================================== *)

(** Truth value of a Python object, as [if x], [not x] and [x or y]
    take it. *)
Definition py_truthy (v : value) : bool :=
  match v with
  | VNone => false
  | VBool b => b
  | VInt z => negb (z =? 0)%Z
  | VFloat (S754_zero _) => false
  | VFloat _ => true
  | VStr s => negb (String.eqb s EmptyString)
  | VList l => match l with [] => false | _ => true end
  | VDict d => match d with [] => false | _ => true end
  end.

(** [d.get(k, default)]. *)
Definition get_default (k : string) (default : value) (d : pydict) : value :=
  match dict_get k d with
  | Some v => v
  | None => default
  end.

Module ownership.
Import manifest.

(** [release] and [app] hold what the labels and annotations give, of
    whatever type; [VNone] is their default [None]. *)
Record OwnershipInfo : Type := mkOwnership {
  manager : string;
  release : value;
  app : value;
  warnings : list string
}.

(** The receiver of a [.get] call: anything but a mapping has no such
    attribute. *)
Definition as_mapping (v : value) : outcome pydict :=
  match v with
  | VDict d => Ok d
  | _ => Raised AttributeError
  end.

(** The test of the two Flux comprehensions. *)
Definition is_flux_key (k : string) : bool :=
  contains "fluxcd.io" k || contains "kustomize.toolkit.fluxcd.io" k.

(** [detect_ownership]. *)
Definition detect_ownership (resource : Resource) : outcome OwnershipInfo :=
  metadata <- as_mapping (get_default "metadata" (VDict []) (body resource)) ;;
  let labels := get_default "labels" (VDict []) metadata in
  let annotations := get_default "annotations" (VDict []) metadata in
  labels <- as_mapping labels ;;
  let managed_by :=
    get_default "app.kubernetes.io/managed-by" (VStr EmptyString) labels in
  (* Helm detection *)
  annotations <- as_mapping annotations ;;
  let helm_release := get_or_none "meta.helm.sh/release-name" annotations in
  managed_lower <- match managed_by with
                   | VStr s => Ok (lower s)
                   | _ => Raised AttributeError
                   end ;;
  if String.eqb managed_lower "helm" || py_truthy helm_release then
    Ok (mkOwnership "helm"
                    (if py_truthy helm_release then helm_release
                     else get_or_none "app.kubernetes.io/instance" labels)
                    VNone [])
  else
    (* ArgoCD detection *)
    let argocd_app := get_or_none "argocd.argoproj.io/managed-by" annotations in
    let argocd_app :=
      if negb (py_truthy argocd_app)
      then get_or_none "argocd.argoproj.io/instance" labels
      else argocd_app in
    if py_truthy argocd_app then
      Ok (mkOwnership "argocd" VNone argocd_app [])
    else
      (* Flux detection *)
      let flux_keys := filter is_flux_key (keys annotations) in
      let flux_labels := filter is_flux_key (keys labels) in
      match flux_keys, flux_labels with
      | [], [] => Ok (mkOwnership "unknown" VNone VNone [])
      | _, _ => Ok (mkOwnership "flux" VNone VNone [])
      end.

End ownership.

(* ================================================================== *)
(** * core/runner.py, core/kubectl.py, core/helm.py *)
(* ================================================================== *)

(** How a call of [run] ends.  [subprocess.run] returns with exit
    status 0 and [run] returns the captured standard output; or it
    returns with another status and [run] raises [RunError]; or
    [subprocess.run] itself raises, because the program cannot be
    started ([FileNotFoundError]) or exceeds the timeout
    ([TimeoutExpired]), and that exception, which is no [RunError],
    leaves [run]. *)
Inductive run_result : Type :=
  | Completed (stdout : string)
  | RunError
  | NotRun.

(** The two calls that leave the program: [run cmd stdin] is
    [run(cmd, stdin=stdin)]. *)
Class Shell : Type := {
  run : list string -> option string -> run_result;
  (** [yaml.dump(body)] *)
  yaml_dump : pydict -> string
}.

(** [**kube_opts]: the two options [diff] passes on. *)
Record KubeOpts : Type := mkKubeOpts {
  kubeconfig : option string;
  kube_context : option string
}.

(** [if opt: flags += [name, opt]]: the option is given and not
    empty. *)
Definition flag (name : string) (opt : option string) : list string :=
  match opt with
  | Some (String c s) => [name; String c s]
  | _ => []
  end.

Module kubectl.

Definition _kube_flags (kube_opts : KubeOpts) : list string :=
  (flag "--kubeconfig" (kubeconfig kube_opts)
   ++ flag "--context" (kube_context kube_opts))%list.

Section Calls.
Context {sh : Shell}.

(** [server_side_dry_run]. *)
Definition server_side_dry_run (manifest_yaml namespace : string)
           (kube_opts : KubeOpts) : run_result :=
  run ([ "kubectl"; "apply"; "--dry-run=server"; "-o"; "yaml";
         "-n"; namespace; "-f"; "-" ] ++ _kube_flags kube_opts)%list
      (Some manifest_yaml).
End Calls.

End kubectl.

Module helm.

Definition _kube_flags (kube_opts : KubeOpts) : list string :=
  (flag "--kubeconfig" (kubeconfig kube_opts)
   ++ flag "--kube-context" (kube_context kube_opts))%list.

(** ** The two searches of [_strip_non_manifest] *)

(** The longest run of whitespace at the head of [s], and the rest. *)
Fixpoint span_space (s : string) : string * string :=
  match s with
  | String c s' =>
      if is_space c
      then let '(w, rest) := span_space s' in (String c w, rest)
      else (EmptyString, s)
  | EmptyString => (EmptyString, EmptyString)
  end.

(** [w] up to and including its last line feed; [None] when it holds
    none. *)
Fixpoint through_last_newline (w : string) : option string :=
  match w with
  | EmptyString => None
  | String c w' =>
      match through_last_newline w' with
      | Some t => Some (String c t)
      | None => if (code c =? 10)%nat then Some (String c EmptyString)
                else None
      end
  end.

(** A match of [header\s*\n] at the head of [s]: the text it covers.
    The greedy [\s*] takes the whole run of whitespace and gives back
    until a line feed follows. *)
Definition match_header (header s : string) : option string :=
  if String.prefix header s then
    let '(w, _) := span_space (drop (String.length header) s) in
    match through_last_newline w with
    | Some t => Some (header ++ t)
    | None => None
    end
  else None.

(** [re.search(r"^header\s*\n", s, re.MULTILINE)]: the start and the
    end of the leftmost match.  [^] matches at the start of the text
    and after each line feed; [pos] is the offset of the head of [s]
    and [at_line_start] tells whether [^] matches there. *)
Fixpoint search_header (header : string) (at_line_start : bool) (pos : nat)
         (s : string) : option (nat * nat) :=
  match (if at_line_start then match_header header s else None) with
  | Some m => Some (pos, (pos + String.length m)%nat)
  | None =>
      match s with
      | EmptyString => None
      | String c s' => search_header header (code c =? 10)%nat (S pos) s'
      end
  end.

(** [_strip_non_manifest]. *)
Definition _strip_non_manifest (output : string) : string :=
  (* Try to find MANIFEST: section *)
  let output :=
    match search_header "MANIFEST:" true 0 output with
    | Some (_, match_end) => drop match_end output
    | None => output
    end in
  (* Strip NOTES: section and everything after it *)
  let output :=
    match search_header "NOTES:" true 0 output with
    | Some (match_start, _) => String.substring 0 match_start output
    | None => output
    end in
  strip output ++ String (ascii_of_nat 10) EmptyString.

Section Calls.
Context {sh : Shell}.

(** [get_manifest]. *)
Definition get_manifest (release namespace : string) (kube_opts : KubeOpts)
  : run_result :=
  run ([ "helm"; "get"; "manifest"; release; "-n"; namespace ]
       ++ _kube_flags kube_opts)%list
      None.

(** [dry_run_upgrade]. *)
Definition dry_run_upgrade (release chart namespace : string)
           (values_files set_values : list string) (version : option string)
           (kube_opts : KubeOpts) : run_result :=
  let cmd :=
    ([ "helm"; "upgrade"; release; chart; "--dry-run"; "-n"; namespace ]
     ++ flat_map (fun vf => ["-f"; vf]) values_files
     ++ flat_map (fun sv => ["--set"; sv]) set_values
     ++ flag "--version" version
     ++ _kube_flags kube_opts)%list in
  match run cmd None with
  | Completed output => Completed (_strip_non_manifest output)
  | RunError => RunError
  | NotRun => NotRun
  end.
End Calls.

End helm.

(* ================================================================== *)
(** * cli.py: [diff] up to the renderers *)
(* ================================================================== *)

(** What leaves a step of [diff] uncaught: an exception of the
    pipeline, or the exception of a [subprocess.run] that did not
    run. *)
Inductive uncaught : Type :=
  | Pipeline (e : exn)
  | Subprocess.

Inductive attempt (A : Type) : Type :=
  | Returned (a : A)
  | Escaped (u : uncaught).
Arguments Returned {A} a.
Arguments Escaped {A} u.

Module cli_steps.
Import manifest engine risk ownership.

(** [_find_resource]: the first match among the new resources, then
    among the old ones. *)
Definition _find_resource (change : ChangeRecord)
           (old_resources new_resources : list Resource) : option Resource :=
  match find (fun res => String.eqb (manifest.key res) (resource_key change))
             new_resources with
  | Some res => Some res
  | None =>
      find (fun res => String.eqb (manifest.key res) (resource_key change))
           old_resources
  end.

Definition FullResult : Type :=
  (ChangeRecord * list RiskAnnotation * option OwnershipInfo)%type.

(** The loop of step 7: each record with its annotations and the
    ownership of the resource [_find_resource] gives, if any. *)
Fixpoint full_results (risk_results : list (ChangeRecord * list RiskAnnotation))
         (live_resources upgrade_resources : list Resource)
  : outcome (list FullResult) :=
  match risk_results with
  | [] => Ok []
  | (change, risk_annotations) :: rest =>
      ownership <-
        match _find_resource change live_resources upgrade_resources with
        | Some resource =>
            info <- detect_ownership resource ;; Ok (Some info)
        | None => Ok None
        end ;;
      more <- full_results rest live_resources upgrade_resources ;;
      Ok ((change, risk_annotations, ownership) :: more)
  end.

(** How [diff] ends, up to the renderers: with the results and the
    count of unchanged pairs it hands to them, with the error message
    and exit status 1 of a caught [RunError], or with an exception it
    does not catch. *)
Inductive diff_end : Type :=
  | ToRenderers (results : list FullResult) (total_unchanged : nat)
  | ErrorExit
  | Uncaught (u : uncaught).

Section Steps.
Context {rt : Runtime} {sh : Shell}.

(** One round of the loop of [_apply_server_side]. *)
Definition apply_one (namespace : string) (kube_opts : KubeOpts)
           (res : Loaded) : attempt Loaded :=
  match kubectl.server_side_dry_run (yaml_dump (loaded_body res)) namespace
                                    kube_opts with
  | Completed mutated_yaml =>
      match parse_multi_doc mutated_yaml namespace with
      | Ok mutated =>
          Returned (match mutated with
                    | first :: _ => first
                    | [] => res
                    end)
      | Raised e => Escaped (Pipeline e)
      end
  | RunError =>
      (* If server-side dry-run fails for a resource, use the original *)
      Returned res
  | NotRun => Escaped Subprocess
  end.

(** [_apply_server_side]. *)
Fixpoint _apply_server_side (resources : list Loaded) (namespace : string)
         (kube_opts : KubeOpts) : attempt (list Loaded) :=
  match resources with
  | [] => Returned []
  | res :: rest =>
      match apply_one namespace kube_opts res with
      | Returned r =>
          match _apply_server_side rest namespace kube_opts with
          | Returned rs => Returned (r :: rs)
          | Escaped u => Escaped u
          end
      | Escaped u => Escaped u
      end
  end.

(** Steps 4 to 7 of [diff] on two snapshots whose resources have their
    declared field types: pairing, diffing, risk and ownership, and
    the count of unchanged pairs. *)
Definition preview (live_resources upgrade_resources : list Resource)
           (show_all : bool) (ignore_path : list string)
  : outcome (list FullResult * nat) :=
  let pairs := pair_resources live_resources upgrade_resources in
  change_records <-
    diff_all pairs show_all
             (match ignore_path with [] => None | _ => Some ignore_path end) ;;
  results <- full_results (assess_risk change_records)
                          live_resources upgrade_resources ;;
  Ok (results, cli.total_unchanged pairs).

(** Steps 3 to 7 of [diff], from the two parsed snapshots. *)
Definition after_parsing (live_resources upgrade_resources : list Loaded)
           (ns : string) (kube_opts : KubeOpts) (server_side show_all : bool)
           (ignore_path : list string)
  : attempt (list FullResult * nat) :=
  match (if server_side
         then _apply_server_side upgrade_resources ns kube_opts
         else Returned upgrade_resources) with
  | Returned upgrade_resources =>
      match (live <- declared_all live_resources ;;
             upgrade <- declared_all upgrade_resources ;;
             preview live upgrade show_all ignore_path) with
      | Ok r => Returned r
      | Raised e => Escaped (Pipeline e)
      end
  | Escaped u => Escaped u
  end.

(** [diff] up to step 7. *)
Definition diff (release chart : string) (namespace : option string)
           (values set_values : list string) (version : option string)
           (server_side show_all : bool) (ignore_path : list string)
           (kubeconfig kube_context : option string) : diff_end :=
  let ns := match namespace with
            | Some (String c s) => String c s
            | _ => "default"
            end in
  let kube_opts := mkKubeOpts kubeconfig kube_context in
  (* 1. Fetch live manifests *)
  match helm.get_manifest release ns kube_opts with
  | RunError => ErrorExit
  | NotRun => Uncaught Subprocess
  | Completed live_yaml =>
      match parse_multi_doc live_yaml ns with
      | Raised e => Uncaught (Pipeline e)
      | Ok live_resources =>
          (* 2. Render upgrade (dry-run) *)
          match helm.dry_run_upgrade release chart ns values set_values
                                     version kube_opts with
          | RunError => ErrorExit
          | NotRun => Uncaught Subprocess
          | Completed upgrade_yaml =>
              match parse_multi_doc upgrade_yaml ns with
              | Raised e => Uncaught (Pipeline e)
              | Ok upgrade_resources =>
                  match after_parsing live_resources upgrade_resources ns
                                      kube_opts server_side show_all
                                      ignore_path with
                  | Returned (results, total_unchanged) =>
                      ToRenderers results total_unchanged
                  | Escaped u => Uncaught u
                  end
              end
          end
      end
  end.
End Steps.

End cli_steps.

(** ** Values without a NaN *)

(** No float of [v] is a NaN, the one value that differs from itself. *)
Fixpoint nan_free (v : value) : Prop :=
  match v with
  | VFloat S754_nan => False
  | VList l => (fix all (l : list value) : Prop :=
                  match l with
                  | [] => True
                  | x :: l' => nan_free x /\ all l'
                  end) l
  | VDict d => (fix all (d : pydict) : Prop :=
                  match d with
                  | [] => True
                  | (_, x) :: d' => nan_free x /\ all d'
                  end) d
  | _ => True
  end.

(** ** Documents as runs of lines *)

(** A delimiter line of [_split_raw_docs]. *)
Definition is_delimiter (line : string) : bool :=
  String.eqb (rstrip line) "---".

(** The lines between the delimiter lines: one run before the first
    delimiter, one after each delimiter. *)
Fixpoint runs (lines : list string) : list (list string) :=
  match lines with
  | [] => [[]]
  | line :: rest =>
      if is_delimiter line then [] :: runs rest
      else match runs rest with
           | g :: gs => (line :: g) :: gs
           | [] => [[line]]
           end
  end.

Definition nonempty {A : Type} (l : list A) : bool :=
  match l with [] => false | _ => true end.

(** ** Identity keys *)

Definition no_slash (s : string) : Prop := has_char "/"%char s = false.

Module key_examples.
Import manifest.

(** Two resources with different group and kind and one key. *)
Definition grouped : Resource :=
  mkResource "example.com/v1" "Widget" "default" "w" [] EmptyString.

Definition slashed : Resource :=
  mkResource "example.com" "v1/Widget" "default" "w" [] EmptyString.
End key_examples.

(** The key a pair stands for: that of its new resource, else that of
    its old one. *)
Definition pair_key (p : manifest.ResourcePair) : string :=
  match manifest.new p, manifest.old p with
  | Some n, _ => manifest.key n
  | None, Some o => manifest.key o
  | None, None => EmptyString
  end.

(** ** Looking a path up *)

(** The value at the end of [parts], walking through mappings only. *)
Fixpoint resolve (parts : list string) (v : value) : option value :=
  match parts with
  | [] => Some v
  | key :: rest =>
      match v with
      | VDict d =>
          match dict_get key d with
          | Some x => resolve rest x
          | None => None
          end
      | _ => None
      end
  end.

(** ** Writing a dot path *)

(** A key as a segment of a dot path: each of its dots gets a
    backslash. *)
Fixpoint escape_dots (s : string) : string :=
  match s with
  | EmptyString => EmptyString
  | String c s' =>
      if Ascii.eqb c "."%char
      then String backslash (String "."%char (escape_dots s'))
      else String c (escape_dots s')
  end.

Definition no_backslash (s : string) : Prop := has_char backslash s = false.

(** ** Values up to the order of mapping entries *)

(** [a] and [b] differ at most in the order of the entries of their
    mappings, at any depth: lists agree element by element, mappings
    have the same size and every entry of [a] has its key in [b] with
    a value that again differs at most in order; scalars are equal. *)
Fixpoint reordered (a b : value) {struct a} : Prop :=
  match a with
  | VList la =>
      match b with
      | VList lb =>
          (fix go (la lb : list value) {struct la} : Prop :=
             match la, lb with
             | [], [] => True
             | x :: la', y :: lb' => reordered x y /\ go la' lb'
             | _, _ => False
             end) la lb
      | _ => False
      end
  | VDict da =>
      match b with
      | VDict db =>
          List.length da = List.length db /\
          (fix go (da : pydict) {struct da} : Prop :=
             match da with
             | [] => True
             | (k, x) :: da' =>
                 match dict_get k db with
                 | Some y => reordered x y
                 | None => False
                 end /\ go da'
             end) da
      | _ => False
      end
  | _ => a = b
  end.

(** Each string is at most the next one. *)
Fixpoint ascending (l : list string) : bool :=
  match l with
  | k :: ((k' :: _) as rest) => String.leb k k' && ascending rest
  | _ => true
  end.

(** Every mapping of [v] lists its keys in ascending order. *)
Fixpoint key_sorted (v : value) : Prop :=
  match v with
  | VList l => (fix all (l : list value) : Prop :=
                  match l with
                  | [] => True
                  | x :: l' => key_sorted x /\ all l'
                  end) l
  | VDict d => ascending (keys d) = true /\
               (fix all (d : pydict) : Prop :=
                  match d with
                  | [] => True
                  | (_, x) :: d' => key_sorted x /\ all d'
                  end) d
  | _ => True
  end.

(** One entry of a mapping with its value key-sorted. *)
Definition sort_entry (kv : string * value) : string * value :=
  (fst kv, _sort_keys_recursive (snd kv)).

(** The entry of [db] under the key of [kv], [None] when absent. *)
Definition entry_in (db : pydict) (kv : string * value) : string * value :=
  (fst kv, get_or_none (fst kv) db).

(** ** Example shells *)

Module shell_examples.
Import manifest.

(** helm and kubectl exit with a non-zero status on every call. *)
Definition offline : Shell :=
  {| run := fun _ _ => RunError;
     yaml_dump := fun _ => EmptyString |}.

(** kubectl answers every dry run with the document [full_text] of
    [partial_doc]; helm exits with a non-zero status. *)
Definition defaulting : Shell :=
  {| run := fun cmd _ =>
              match cmd with
              | "kubectl" :: _ => Completed partial_doc.full_text
              | _ => RunError
              end;
     yaml_dump := fun _ => EmptyString |}.

(** helm prints the document [untyped_text] of [partial_doc] as the
    live manifest and fails on any other command; kubectl is not
    installed. *)
Definition no_kubectl : Shell :=
  {| run := fun cmd _ =>
              match cmd with
              | "helm" :: "get" :: _ => Completed partial_doc.untyped_text
              | "helm" :: _ => RunError
              | _ => NotRun
              end;
     yaml_dump := fun _ => EmptyString |}.

(** Two parsed resources. *)
Definition settings : Loaded :=
  mkLoaded (VStr "v1") (VStr "ConfigMap") (VStr "default") (VStr "settings")
           partial_doc.full_loaded (strip partial_doc.full_text).

Definition untyped : Loaded :=
  mkLoaded (VStr "v1") (VStr "ConfigMap") VNone (VInt 123)
           partial_doc.untyped_loaded partial_doc.untyped_text.
End shell_examples.

(** ** Labels and annotations of a resource *)

(** The mapping under [k], empty when [k] is absent. *)
Definition sub_mapping (k : string) (d : pydict) : pydict :=
  match dict_get k d with
  | Some (VDict m) => m
  | _ => []
  end.

Definition labels_of (r : manifest.Resource) : pydict :=
  sub_mapping "labels" (sub_mapping "metadata" (manifest.body r)).

Definition annotations_of (r : manifest.Resource) : pydict :=
  sub_mapping "annotations" (sub_mapping "metadata" (manifest.body r)).

(** The Helm marks: the managed-by label reads [helm] in any letter
    case, or the release-name annotation is set. *)
Definition helm_marked (r : manifest.Resource) : Prop :=
  (exists s, dict_get "app.kubernetes.io/managed-by" (labels_of r)
             = Some (VStr s)
             /\ lower s = "helm")
  \/ py_truthy (get_or_none "meta.helm.sh/release-name" (annotations_of r))
     = true.

(** The Argo CD marks. *)
Definition argocd_marked (r : manifest.Resource) : Prop :=
  py_truthy (get_or_none "argocd.argoproj.io/managed-by" (annotations_of r))
  = true
  \/ py_truthy (get_or_none "argocd.argoproj.io/instance" (labels_of r))
     = true.

(** The Flux mark: a label or annotation key that holds [fluxcd.io]. *)
Definition flux_marked (r : manifest.Resource) : Prop :=
  exists k, (In k (keys (annotations_of r)) \/ In k (keys (labels_of r)))
            /\ occurs_in "fluxcd.io" k.

Module ownership_examples.
Import manifest.

(** A resource that carries the marks of all three managers. *)
Definition contested : Resource :=
  mkResource "apps/v1" "Deployment" "default" "web"
    [ ("apiVersion", VStr "apps/v1"); ("kind", VStr "Deployment");
      ("metadata", VDict
         [ ("name", VStr "web");
           ("labels", VDict
              [ ("app.kubernetes.io/managed-by", VStr "Helm");
                ("app.kubernetes.io/instance", VStr "shop");
                ("argocd.argoproj.io/instance", VStr "shop-app");
                ("kustomize.toolkit.fluxcd.io/name", VStr "shop") ]) ]) ]
    EmptyString.

(** A resource whose [labels] entry is null. *)
Definition null_labels : Resource :=
  mkResource "v1" "ConfigMap" "default" "settings"
    [ ("apiVersion", VStr "v1"); ("kind", VStr "ConfigMap");
      ("metadata", VDict [ ("name", VStr "settings"); ("labels", VNone) ]) ]
    EmptyString.

(** A resource whose release-name annotation is the number 5. *)
Definition numbered : Resource :=
  mkResource "v1" "ConfigMap" "default" "settings"
    [ ("apiVersion", VStr "v1"); ("kind", VStr "ConfigMap");
      ("metadata", VDict
         [ ("name", VStr "settings");
           ("annotations", VDict
              [ ("meta.helm.sh/release-name", VInt 5) ]) ]) ]
    EmptyString.
End ownership_examples.

(** What makes [detect_ownership] fail on an attribute: a [metadata],
    [labels] or [annotations] entry that is present and not a mapping
    (a null one, for instance), or a managed-by label that is not a
    string. *)
Definition not_mapping (v : value) : Prop := forall d, v <> VDict d.
Definition not_text (v : value) : Prop := forall s, v <> VStr s.

Definition unreadable_metadata (r : manifest.Resource) : Prop :=
  (exists v, dict_get "metadata" (manifest.body r) = Some v /\ not_mapping v)
  \/ (exists v, dict_get "labels" (sub_mapping "metadata" (manifest.body r))
                = Some v /\ not_mapping v)
  \/ (exists v, dict_get "annotations"
                         (sub_mapping "metadata" (manifest.body r))
                = Some v /\ not_mapping v)
  \/ (exists v, dict_get "app.kubernetes.io/managed-by" (labels_of r)
                = Some v /\ not_text v).

(** ** An example of helm output *)

Module helm_examples.

(** What [helm upgrade --dry-run] prints: hooks, the manifest and the
    notes. *)
Definition dry_run_output : string :=
  "HOOKS:" ++ newline ++
  "---" ++ newline ++
  "kind: Job" ++ newline ++
  "MANIFEST:" ++ newline ++
  "---" ++ newline ++
  "kind: ConfigMap" ++ newline ++
  newline ++
  "NOTES:" ++ newline ++
  "Thank you for installing." ++ newline.

Definition manifest_section : string :=
  "---" ++ newline ++ "kind: ConfigMap" ++ newline.
End helm_examples.

(* ================================================================== *)
(** * diff/filters.py: [strip_noise] on objects *)
(* ================================================================== *)

(** A YAML document with anchors and aliases loads to an object graph
    in which one dict can be reached in several ways, and
    [copy.deepcopy] keeps that sharing.  [strip_noise] deletes keys in
    place inside the copy, so a shared dict changes for all its
    holders.  This model keeps the identity of dicts: a dict is an
    object at a location of a heap, and a deletion updates the heap.
    Lists are never changed by [strip_noise] and are given by their
    items. *)
Module objects.

Definition loc : Type := nat.

(** What a variable, a list item or a dict entry holds. *)
Inductive ref : Type :=
  | RNone
  | RBool (b : bool)
  | RInt (z : Z)
  | RFloat (f : spec_float)
  | RStr (s : string)
  | RList (items : list ref)
  | RDict (l : loc).

(** The dict objects: the entries of the dict at each location in
    use. *)
Definition heap : Type := loc -> option (list (string * ref)).

(** The heap after the dict at [l] has been given the entries [d]. *)
Definition store (h : heap) (l : loc) (d : list (string * ref)) : heap :=
  fun l' => if Nat.eqb l' l then Some d else h l'.

Section InPlace.
Context {rt : Runtime}.

(** [_remove_path_parts]: the heap after the call. *)
Fixpoint _remove_path_parts (h : heap) (obj : ref) (parts : list string)
  : heap :=
  match parts, obj with
  | key :: remaining, RDict l =>
      match h l with
      | Some d =>
          match remaining with
          | [] =>
              (* Leaf: remove matching keys (supports glob) *)
              if is_glob key
              then store h l (filter (fun kv => negb (fnmatch (fst kv) key)) d)
              else if dict_has key d then store h l (dict_del key d)
              else h
          | _ =>
              (* Intermediate: recurse *)
              match dict_get key d with
              | Some (RDict sub) => _remove_path_parts h (RDict sub) remaining
              | _ => h
              end
          end
      | None => h
      end
  | _, _ => h
  end.

(** [_remove_path]. *)
Definition _remove_path (obj : ref) (h : heap) (path : string) : heap :=
  _remove_path_parts h obj (_split_dot_path path).

(** [strip_noise].  [h] is the heap of the deep copy and [result] its
    root; [visited] is the order in which the loop meets the paths of
    the set [all_paths].  The function returns [result]; the model
    gives the heap in which it is then read. *)
Definition strip_noise (h : heap) (result : ref) (visited : list string)
  : heap :=
  fold_left (_remove_path result) visited h.
End InPlace.

(** ** Reading an object *)

(** [tree h r v fp]: in the heap [h], [r] reads as the value [v], and
    [fp] lists the locations of the dicts met on the way, one entry
    for each way of reaching a dict. *)
Inductive tree (h : heap) : ref -> value -> list loc -> Prop :=
  | tree_none : tree h RNone VNone []
  | tree_bool (b : bool) : tree h (RBool b) (VBool b) []
  | tree_int (z : Z) : tree h (RInt z) (VInt z) []
  | tree_float (f : spec_float) : tree h (RFloat f) (VFloat f) []
  | tree_str (s : string) : tree h (RStr s) (VStr s) []
  | tree_list (items : list ref) (vs : list value) (fp : list loc) :
      trees h items vs fp -> tree h (RList items) (VList vs) fp
  | tree_dict (l : loc) (d : list (string * ref)) (vd : pydict)
              (fp : list loc) :
      h l = Some d -> entries h d vd fp ->
      tree h (RDict l) (VDict vd) (l :: fp)
with trees (h : heap) : list ref -> list value -> list loc -> Prop :=
  | trees_nil : trees h [] [] []
  | trees_cons (r : ref) (v : value) (fp : list loc)
               (rs : list ref) (vs : list value) (fps : list loc) :
      tree h r v fp -> trees h rs vs fps ->
      trees h (r :: rs) (v :: vs) (fp ++ fps)%list
with entries (h : heap) : list (string * ref) -> pydict -> list loc -> Prop :=
  | entries_nil : entries h [] [] []
  | entries_cons (k : string) (r : ref) (v : value) (fp : list loc)
                 (d : list (string * ref)) (vd : pydict) (fps : list loc) :
      tree h r v fp -> entries h d vd fps ->
      entries h ((k, r) :: d) ((k, v) :: vd) (fp ++ fps)%list.

(** [r] reads as [v] and no dict is shared: none is reached in two
    ways. *)
Definition unshared (h : heap) (r : ref) (v : value) : Prop :=
  exists fp, tree h r v fp /\ NoDup fp.

(** ** A body that shares its labels *)

(** The body of
    [metadata: {labels: &l {helm.sh/chart: shop-1.0, app: shop}}] and
    [spec: {selector: *l}]: one dict, held twice. *)
Module shared_labels.

Definition h : heap :=
  fun l =>
    match l with
    | 0%nat => Some [ ("metadata", RDict 1); ("spec", RDict 2) ]
    | 1%nat => Some [ ("labels", RDict 3) ]
    | 2%nat => Some [ ("selector", RDict 3) ]
    | 3%nat => Some [ ("helm.sh/chart", RStr "shop-1.0"); ("app", RStr "shop") ]
    | _ => None
    end.

Definition result : ref := RDict 0.

(** What the body reads as. *)
Definition body : value :=
  VDict [ ("metadata", VDict [ ("labels",
             VDict [ ("helm.sh/chart", VStr "shop-1.0");
                     ("app", VStr "shop") ]) ]);
          ("spec", VDict [ ("selector",
             VDict [ ("helm.sh/chart", VStr "shop-1.0");
                     ("app", VStr "shop") ]) ]) ].
End shared_labels.

(** The same body without the alias: [selector] holds a dict of its
    own. *)
Module own_labels.

Definition h : heap :=
  fun l =>
    match l with
    | 0%nat => Some [ ("metadata", RDict 1); ("spec", RDict 2) ]
    | 1%nat => Some [ ("labels", RDict 3) ]
    | 2%nat => Some [ ("selector", RDict 4) ]
    | 3%nat => Some [ ("helm.sh/chart", RStr "shop-1.0"); ("app", RStr "shop") ]
    | 4%nat => Some [ ("helm.sh/chart", RStr "shop-1.0"); ("app", RStr "shop") ]
    | _ => None
    end.

Definition result : ref := RDict 0.
End own_labels.

End objects.

(* ================================================================== *)
(** * Properties *)
(* ================================================================== *)


(** ** Values: height, well-formedness, equality *)

Lemma height_list_in (x : value) (l : list value) :
  In x l -> (height x < height (VList l))%nat.
Proof.
  induction l as [|y l IH]; intros Hin; [destruct Hin|].
  simpl in *. destruct Hin as [->|Hin]; [lia|].
  specialize (IH Hin). lia.
Qed.

Lemma height_dict_in (k : string) (x : value) (d : pydict) :
  In (k, x) d -> (height x < height (VDict d))%nat.
Proof.
  induction d as [|[k' y] d IH]; intros Hin; [destruct Hin|].
  simpl in *. destruct Hin as [Heq|Hin].
  - inversion Heq; subst. lia.
  - specialize (IH Hin). lia.
Qed.

Lemma dict_get_in {A : Type} (k : string) (d : list (string * A)) (v : A) :
  dict_get k d = Some v -> In (k, v) d.
Proof.
  induction d as [|[k' y] d IH]; simpl; [discriminate|].
  destruct (String.eqb_spec k k') as [->|Hne]; intros H.
  - inversion H; subst. now left.
  - right. now apply IH.
Qed.

Lemma dict_get_nodup {A : Type} (k : string) (d : list (string * A)) (v : A) :
  NoDup (keys d) -> In (k, v) d -> dict_get k d = Some v.
Proof.
  induction d as [|[k' y] d IH]; simpl; intros Hnd Hin; [destruct Hin|].
  inversion Hnd as [|? ? Hnotin Hnd']; subst.
  destruct Hin as [Heq|Hin].
  - inversion Heq; subst. now rewrite String.eqb_refl.
  - destruct (String.eqb_spec k k') as [->|Hne].
    + exfalso. apply Hnotin. apply (in_map fst) in Hin. exact Hin.
    + now apply IH.
Qed.

Lemma dict_get_none_keys {A : Type} (k : string) (d : list (string * A)) :
  dict_get k d = None <-> ~ In k (keys d).
Proof.
  induction d as [|[k' y] d IH]; simpl.
  - split; [intros _ []|reflexivity].
  - destruct (String.eqb_spec k k') as [->|Hne].
    + split; [discriminate|]. intros H. exfalso. apply H. now left.
    + rewrite IH. split.
      * intros H [Heq|Hin]; [congruence|auto].
      * intros H Hin. apply H. now right.
Qed.

Lemma dict_get_some_keys {A : Type} (k : string) (d : list (string * A)) :
  In k (keys d) -> exists v, dict_get k d = Some v.
Proof.
  intros Hin. destruct (dict_get k d) eqn:E; [eauto|].
  apply dict_get_none_keys in E. contradiction.
Qed.

Lemma mem_In (k : string) (l : list string) : mem k l = true <-> In k l.
Proof.
  unfold mem. rewrite existsb_exists. split.
  - intros [x [Hin Heq]]. apply String.eqb_eq in Heq. now subst.
  - intros Hin. exists k. split; [assumption|apply String.eqb_refl].
Qed.

Lemma wf_list_in (x : value) (l : list value) :
  wf_value (VList l) -> In x l -> wf_value x.
Proof.
  induction l as [|y l IH]; intros Hwf Hin; [destruct Hin|].
  simpl in Hwf. destruct Hwf as [Hy Hl].
  destruct Hin as [->|Hin]; [assumption|]. now apply IH.
Qed.

Lemma wf_dict_nodup (d : pydict) : wf_value (VDict d) -> NoDup (keys d).
Proof. simpl. tauto. Qed.

Lemma wf_dict_in (k : string) (x : value) (d : pydict) :
  wf_value (VDict d) -> In (k, x) d -> wf_value x.
Proof.
  intros [_ Hall]. induction d as [|[k' y] d IH]; intros Hin; [destruct Hin|].
  destruct Hall as [Hy Hd]. destruct Hin as [Heq|Hin].
  - inversion Heq; now subst.
  - now apply IH.
Qed.

Lemma wf_get_or_none (k : string) (d : pydict) :
  wf_value (VDict d) -> wf_value (get_or_none k d).
Proof.
  intros Hwf. unfold get_or_none. destruct (dict_get k d) eqn:E; [|exact I].
  apply dict_get_in in E. eapply wf_dict_in; eassumption.
Qed.

Lemma height_get_or_none (k : string) (d : pydict) :
  (height (get_or_none k d) < height (VDict d))%nat.
Proof.
  unfold get_or_none. destruct (dict_get k d) eqn:E.
  - apply dict_get_in in E. eapply height_dict_in; eassumption.
  - simpl. lia.
Qed.

(** Induction on the nesting depth of a value. *)
Lemma value_height_ind (P : value -> Prop) :
  (forall v, (forall w, (height w < height v)%nat -> P w) -> P v) ->
  forall v, P v.
Proof.
  intros step v.
  assert (H : forall n w, (height w < n)%nat -> P w).
  { induction n as [|n IH]; intros w Hw; [lia|].
    apply step. intros u Hu. apply IH. lia. }
  apply (H (S (height v))). lia.
Qed.

Lemma SFeqb_sym (x y : spec_float) : SFeqb x y = SFeqb y x.
Proof.
  unfold SFeqb, SFcompare.
  destruct x as [sx|sx| |sx mx ex], y as [sy|sy| |sy my ey];
    try destruct sx; try destruct sy; try reflexivity.
  - rewrite (Z.compare_antisym ey ex).
    destruct (ey ?= ex)%Z eqn:E; simpl; try reflexivity.
    change (Pos.compare_cont Eq mx my) with (Pos.compare mx my).
    change (Pos.compare_cont Eq my mx) with (Pos.compare my mx).
    rewrite (Pos.compare_antisym my mx).
    destruct (my ?= mx)%positive; reflexivity.
  - rewrite (Z.compare_antisym ey ex).
    destruct (ey ?= ex)%Z eqn:E; simpl; try reflexivity.
    change (Pos.compare_cont Eq mx my) with (Pos.compare mx my).
    change (Pos.compare_cont Eq my mx) with (Pos.compare my mx).
    rewrite (Pos.compare_antisym my mx).
    destruct (my ?= mx)%positive; reflexivity.
Qed.

Lemma num_eqb_sym (x y : number) : num_eqb x y = num_eqb y x.
Proof.
  destruct x, y; simpl; auto using Z.eqb_sym, SFeqb_sym.
Qed.

Lemma py_eq_VList (la lb : list value) :
  py_eq (VList la) (VList lb) =
  (List.length la =? List.length lb)%nat &&
  forallb (fun xy => py_eq (fst xy) (snd xy)) (combine la lb).
Proof.
  revert lb. induction la as [|x la IH]; intros [|y lb]; try reflexivity.
  change (py_eq (VList (x :: la)) (VList (y :: lb)))
    with (py_eq x y && py_eq (VList la) (VList lb)).
  rewrite IH. simpl.
  destruct (py_eq x y), (List.length la =? List.length lb)%nat; reflexivity.
Qed.


Lemma py_eq_VDict (da db : pydict) :
  py_eq (VDict da) (VDict db) =
  (List.length da =? List.length db)%nat && forallb (item_in db) da.
Proof.
  simpl. f_equal.
  induction da as [|[k x] da IH]; [reflexivity|].
  simpl. rewrite IH. reflexivity.
Qed.

(** Every item of [da] has an equal item in [db]; with as many keys on
    both sides and no key twice, the converse follows. *)
Lemma items_in_swap (da db : pydict) :
  NoDup (keys da) -> NoDup (keys db) ->
  List.length da = List.length db ->
  (forall k x y, In (k, x) da -> In (k, y) db -> py_eq x y = py_eq y x) ->
  forallb (item_in db) da = true -> forallb (item_in da) db = true.
Proof.
  intros Hnda Hndb Hlen Hsym Hall.
  rewrite forallb_forall in Hall. apply forallb_forall.
  assert (Hincl : incl (keys da) (keys db)).
  { intros k Hk. apply in_map_iff in Hk. destruct Hk as [[k' x] [Hfst Hin]].
    simpl in Hfst; subst k'. specialize (Hall _ Hin). unfold item_in in Hall.
    simpl in Hall. destruct (dict_get k db) eqn:E; [|discriminate].
    apply dict_get_in in E. apply (in_map fst) in E. exact E. }
  assert (Hincl' : incl (keys db) (keys da)).
  { apply NoDup_length_incl; try assumption.
    unfold keys. rewrite !length_map. lia. }
  intros [k y] Hin. unfold item_in. simpl.
  assert (Hk : In k (keys da)).
  { apply Hincl'. apply (in_map fst) in Hin. exact Hin. }
  destruct (dict_get_some_keys k da Hk) as [x Hx]. rewrite Hx.
  pose proof (dict_get_in _ _ _ Hx) as Hinx.
  specialize (Hall _ Hinx). unfold item_in in Hall. simpl in Hall.
  rewrite (dict_get_nodup k db y Hndb Hin) in Hall.
  rewrite <- (Hsym k x y Hinx Hin). exact Hall.
Qed.

(** [==] is symmetric on well-formed values. *)
Lemma py_eq_sym (a : value) :
  forall b, wf_value a -> wf_value b -> py_eq a b = py_eq b a.
Proof.
  induction a as [a IH] using value_height_ind.
  intros b Hwa Hwb.
  destruct a as [|ba|za|fa|sa|la|da], b as [|bb|zb|fb|sb|lb|db];
    try reflexivity;
    try (simpl; solve [apply Z.eqb_sym | apply SFeqb_sym | reflexivity]).
  - simpl. apply String.eqb_sym.
  - rewrite !py_eq_VList. rewrite Nat.eqb_sym. f_equal.
    assert (Hel : forall x y, In x la -> In y lb -> py_eq x y = py_eq y x).
    { intros x y Hx Hy. apply IH.
      - now apply height_list_in.
      - exact (wf_list_in x la Hwa Hx).
      - exact (wf_list_in y lb Hwb Hy). }
    clear IH Hwa Hwb. revert lb Hel.
    induction la as [|x la IHl]; intros [|y lb] Hel; try reflexivity.
    simpl. rewrite (Hel x y) by (now left). f_equal.
    apply IHl. intros x' y' Hx' Hy'. apply Hel; now right.
  - rewrite !py_eq_VDict. rewrite Nat.eqb_sym.
    destruct (List.length db =? List.length da)%nat eqn:Hlen; [|reflexivity].
    apply Nat.eqb_eq in Hlen. simpl.
    assert (Hel : forall k x y, In (k, x) da -> In (k, y) db ->
                                py_eq x y = py_eq y x).
    { intros k x y Hx Hy. apply IH.
      - eapply height_dict_in; eassumption.
      - exact (wf_dict_in k x da Hwa Hx).
      - exact (wf_dict_in k y db Hwb Hy). }
    pose proof (wf_dict_nodup _ Hwa) as Hnda.
    pose proof (wf_dict_nodup _ Hwb) as Hndb.
    destruct (forallb (item_in db) da) eqn:E1,
             (forallb (item_in da) db) eqn:E2; try reflexivity.
    + rewrite (items_in_swap da db) in E2; auto.
    + rewrite (items_in_swap db da) in E1; auto.
      intros k y x Hy Hx. symmetry. eapply Hel; eassumption.
Qed.

(** ** The semantic comparator *)

Lemma all_opt_total {A : Type} (f : A -> option bool) (l : list A) :
  (forall x, In x l -> exists r, f x = Some r) ->
  exists r, all_opt f l = Some r.
Proof.
  induction l as [|x l IH]; intros H; simpl; [eauto|].
  destruct (H x (or_introl eq_refl)) as [b ->].
  destruct IH as [c ->]; [intros y Hy; apply H; now right|]. eauto.
Qed.

Lemma all_opt_none {A : Type} (f : A -> option bool) (l : list A) :
  all_opt f l = None <-> exists x, In x l /\ f x = None.
Proof.
  induction l as [|x l IH]; simpl.
  - split; [discriminate|]. intros [x [[] _]].
  - destruct (f x) as [b|] eqn:Ex.
    + destruct (all_opt f l) as [c|] eqn:El.
      * split; [discriminate|]. intros [y [[->|Hy] Hn]]; [congruence|].
        assert (Some c = None) by (apply IH; eauto). discriminate.
      * split; [|reflexivity]. intros _.
        destruct (proj1 IH eq_refl) as [y [Hy Hn]]. eauto.
    + split; [|reflexivity]. intros _. eauto.
Qed.

Lemma all_opt_true {A : Type} (f : A -> option bool) (l : list A) :
  all_opt f l = Some true <-> forall x, In x l -> f x = Some true.
Proof.
  induction l as [|x l IH]; simpl.
  - split; [intros _ x []|reflexivity].
  - destruct (f x) as [b|] eqn:Ex.
    + destruct (all_opt f l) as [c|] eqn:El.
      * split.
        -- intros H. inversion H as [Hbc]. apply andb_true_iff in Hbc.
           destruct Hbc; subst. intros y [->|Hy]; [assumption|].
           now apply IH.
        -- intros H. pose proof (H x (or_introl eq_refl)) as Hx.
           rewrite Ex in Hx. inversion Hx; subst.
           assert (Some c = Some true) as Hc
             by (apply IH; intros y Hy; apply H; now right).
           inversion Hc; subst. reflexivity.
      * split; [discriminate|]. intros H.
        assert (@None bool = Some true) as Hc
          by (apply IH; intros y Hy; apply H; now right).
        discriminate.
    + split; [discriminate|]. intros H.
      specialize (H x (or_introl eq_refl)). congruence.
Qed.

(** The conjunction depends on the set of elements only, not on their
    order or multiplicity. *)
Lemma all_opt_same_elements {A : Type} (f g : A -> option bool)
      (l l' : list A) :
  (forall x, In x l <-> In x l') ->
  (forall x, In x l -> f x = g x) ->
  all_opt f l = all_opt g l'.
Proof.
  intros Hset Hfg.
  destruct (all_opt f l) as [[|]|] eqn:E.
  - symmetry. apply all_opt_true. intros x Hx.
    rewrite <- Hfg by (now apply Hset).
    apply (proj1 (all_opt_true f l) E). now apply Hset.
  - destruct (all_opt g l') as [[|]|] eqn:E'; try reflexivity.
    + assert (all_opt f l = Some true) as Hc.
      { apply all_opt_true. intros x Hx. rewrite Hfg by assumption.
        apply (proj1 (all_opt_true g l') E'). now apply Hset. }
      congruence.
    + apply all_opt_none in E'. destruct E' as [x [Hx Hn]].
      assert (all_opt f l = None) as Hc.
      { apply all_opt_none. exists x. split; [now apply Hset|].
        rewrite Hfg by (now apply Hset). exact Hn. }
      congruence.
  - apply all_opt_none in E. destruct E as [x [Hx Hn]].
    symmetry. apply all_opt_none. exists x. split; [now apply Hset|].
    now rewrite <- Hfg.
Qed.

Lemma union_keys_In (a b : pydict) (k : string) :
  In k (union_keys a b) <-> In k (keys a) \/ In k (keys b).
Proof.
  unfold union_keys. rewrite in_app_iff, filter_In. split.
  - intros [H|[H _]]; auto.
  - intros [H|H]; [now left|].
    destruct (mem k (keys a)) eqn:E.
    + left. now apply mem_In.
    + right. split; [assumption|reflexivity].
Qed.

(** With fuel above the sum of the heights the comparator answers. *)
Lemma deep_fuel_total (n : nat) :
  forall a b, (height a + height b < n)%nat ->
              exists r, deep_fuel n a b = Some r.
Proof.
  induction n as [|n IH]; intros a b Hn; [lia|].
  simpl.
  destruct (py_eq a b); [eauto|].
  destruct (is_none a && is_none b); [eauto|].
  destruct (_coerce_numeric a) as [x|], (_coerce_numeric b) as [y|];
    try (eexists; reflexivity);
    destruct (_coerce_bool a) as [p|], (_coerce_bool b) as [q|];
    try (eexists; reflexivity);
    destruct a as [| | | | |la|da], b as [| | | | |lb|db];
    try (eexists; reflexivity).
  all: try (destruct (negb (List.length la =? List.length lb)%nat);
            [eauto|];
            apply all_opt_total; intros [u v] Huv; simpl; apply IH;
            pose proof (height_list_in u la (in_combine_l _ _ _ _ Huv));
            pose proof (height_list_in v lb (in_combine_r _ _ _ _ Huv));
            lia).
  all: apply all_opt_total; intros k _; apply IH;
       pose proof (height_get_or_none k da);
       pose proof (height_get_or_none k db); lia.
Qed.

(** The comparator answers on every pair of values: the fuel set by
    [_deep_semantic_equal] is never exhausted. *)
Lemma _deep_semantic_equal_total (a b : value) :
  exists r, _deep_semantic_equal a b = Some r.
Proof. apply deep_fuel_total. lia. Qed.

Lemma all_opt_combine_swap (F G : value -> value -> option bool)
      (la lb : list value) :
  (forall x y, In x la -> In y lb -> F x y = G y x) ->
  all_opt (fun xy => F (fst xy) (snd xy)) (combine la lb) =
  all_opt (fun xy => G (fst xy) (snd xy)) (combine lb la).
Proof.
  revert lb. induction la as [|x la IH]; intros [|y lb] H; try reflexivity.
  simpl. rewrite (H x y) by (now left).
  rewrite (IH lb) by (intros; apply H; now right). reflexivity.
Qed.

Lemma deep_fuel_sym (n : nat) :
  forall a b, wf_value a -> wf_value b ->
              deep_fuel n a b = deep_fuel n b a.
Proof.
  induction n as [|n IH]; intros a b Hwa Hwb; [reflexivity|].
  simpl. rewrite (py_eq_sym a b Hwa Hwb).
  destruct (py_eq b a); [reflexivity|].
  rewrite (andb_comm (is_none a)).
  destruct (is_none b && is_none a); [reflexivity|].
  destruct (_coerce_numeric a) as [x|], (_coerce_numeric b) as [y|];
    try (rewrite (num_eqb_sym x y); reflexivity);
    destruct (_coerce_bool a) as [p|], (_coerce_bool b) as [q|];
    try (destruct p, q; reflexivity);
    destruct a as [| | | | |la|da], b as [| | | | |lb|db];
    try reflexivity.
  all: try (rewrite (Nat.eqb_sym (List.length lb));
            destruct (negb (List.length la =? List.length lb)%nat);
            [reflexivity|];
            apply (all_opt_combine_swap (deep_fuel n) (deep_fuel n));
            intros u v Hu Hv; apply IH;
            [exact (wf_list_in u la Hwa Hu)|exact (wf_list_in v lb Hwb Hv)]).
  all: apply all_opt_same_elements;
       [ intros k; rewrite !union_keys_In; tauto
       | intros k _; apply IH; now apply wf_get_or_none ].
Qed.


Lemma _coerce_numeric_of_number (n : number) :
  _coerce_numeric (of_number n) = Some n.
Proof. destruct n; reflexivity. Qed.

Lemma string_vs_number (s : string) (n : number) :
  is_semantically_equal (VStr s) (of_number n) =
  match _coerce_numeric (VStr s) with
  | Some m => num_eqb m n
  | None => false
  end.
Proof.
  unfold is_semantically_equal, _deep_semantic_equal.
  replace (height (VStr s) + height (of_number n))%nat with O
    by (destruct n; reflexivity).
  cbn [deep_fuel].
  replace (py_eq (VStr s) (of_number n)) with false
    by (destruct n; reflexivity).
  cbn [is_none andb].
  rewrite _coerce_numeric_of_number.
  destruct (_coerce_numeric (VStr s)) as [m|]; [reflexivity|].
  replace (_coerce_bool (of_number n)) with (@None bool)
    by (destruct n; reflexivity).
  destruct (_coerce_bool (VStr s)); destruct n; reflexivity.
Qed.

(** C6. A string [s] and a number [n] (an integer or a float, not a
    boolean) are semantically equal exactly when [int(s)] succeeds with
    a value equal to [n], or [int(s)] fails and [float(s)] succeeds with
    a value equal to [n]; the order of the two arguments does not
    matter.  In particular [{"port": "80"}] equals [{"port": 80}],
    [{"x": "true"}] equals [{"x": True}] through the boolean tokens,
    and [{"x": "1"}] differs from [{"x": 2}]; and through [float],
    ["1.5"] equals the float 1.5 and ["1e2"] equals the integer 100. *)
Theorem semantic_string_number_coercion :
  (forall (s : string) (n : number),
      is_semantically_equal (VStr s) (of_number n) = true <->
      (exists z, py_int s = Some z /\ num_eqb (NInt z) n = true) \/
      (py_int s = None /\
       exists f, py_float s = Some f /\ num_eqb (NFloat f) n = true))
  /\ (forall (s : string) (n : number),
         is_semantically_equal (of_number n) (VStr s) =
         is_semantically_equal (VStr s) (of_number n))
  /\ is_semantically_equal (VDict [("port", VStr "80")])
                           (VDict [("port", VInt 80)]) = true
  /\ is_semantically_equal (VDict [("x", VStr "true")])
                           (VDict [("x", VBool true)]) = true
  /\ is_semantically_equal (VDict [("x", VStr "1")])
                           (VDict [("x", VInt 2)]) = false
  /\ is_semantically_equal
       (VStr "1.5") (VFloat (S754_finite false 6755399441055744 (-52))) = true
  /\ is_semantically_equal (VStr "1e2") (VInt 100) = true.
Proof.
  split; [|split; [|repeat split; vm_compute; reflexivity]].
  - intros s n. rewrite string_vs_number. cbn [_coerce_numeric].
    destruct (py_int s) as [z|] eqn:Ez.
    + split.
      * intros H. left. eauto.
      * intros [[z' [Hz' H]]|[Hn _]]; [|discriminate].
        inversion Hz'; subst. exact H.
    + destruct (py_float s) as [f|] eqn:Ef.
      * split.
        -- intros H. right. eauto.
        -- intros [[z' [Hz' _]]|[_ [f' [Hf' H]]]]; [discriminate|].
           inversion Hf'; subst. exact H.
      * split; [discriminate|].
        intros [[z' [Hz' _]]|[_ [f' [Hf' _]]]]; discriminate.
  - intros s n. unfold is_semantically_equal, _deep_semantic_equal.
    rewrite (Nat.add_comm (height (of_number n))).
    rewrite (deep_fuel_sym _ (of_number n) (VStr s));
      [reflexivity|destruct n; exact I|exact I].
Qed.

(** C7. The semantic comparator is symmetric: on values whose mappings
    hold each key once (as every Python dict does),
    [is_semantically_equal a b] and [is_semantically_equal b a] agree,
    through the direct-equality, numeric, boolean, mapping and list
    branches alike. *)
Theorem is_semantically_equal_symmetric (a b : value) :
  wf_value a -> wf_value b ->
  is_semantically_equal a b = is_semantically_equal b a.
Proof.
  intros Hwa Hwb. unfold is_semantically_equal, _deep_semantic_equal.
  rewrite (Nat.add_comm (height b)).
  rewrite (deep_fuel_sym _ a b Hwa Hwb). reflexivity.
Qed.



Lemma is_semantically_equal_symmetric_witness :
  wf_value sym_left /\ wf_value sym_right /\
  is_semantically_equal sym_left sym_right = true /\
  is_semantically_equal sym_left sym_right =
  is_semantically_equal sym_right sym_left.
Proof.
  assert (Hl : wf_value sym_left).
  { simpl. repeat split.
    repeat constructor; simpl; intuition discriminate. }
  assert (Hr : wf_value sym_right).
  { simpl. repeat split.
    repeat constructor; simpl; intuition discriminate. }
  split; [exact Hl|]. split; [exact Hr|].
  split; [vm_compute; reflexivity|].
  exact (is_semantically_equal_symmetric sym_left sym_right Hl Hr).
Defined.


(** ** The loop combinator *)

Lemma collect_cons_none {A B : Type} (f : A -> outcome (option B))
      (x : A) (l : list A) :
  f x = Ok None -> collect f (x :: l) = collect f l.
Proof.
  intros H. simpl. rewrite H. simpl.
  destruct (collect f l); reflexivity.
Qed.

Lemma collect_In {A B : Type} (f : A -> outcome (option B))
      (l : list A) (rs : list B) :
  collect f l = Ok rs ->
  forall y, In y rs <-> exists x, In x l /\ f x = Ok (Some y).
Proof.
  revert rs. induction l as [|x l IH]; intros rs H y; simpl in H.
  - inversion H; subst. split; [intros []|intros [x [[] _]]].
  - destruct (f x) as [r|e] eqn:Ex; [|discriminate]. simpl in H.
    destruct (collect f l) as [rs'|e] eqn:El; [|discriminate].
    simpl in H. inversion H; subst. specialize (IH rs' eq_refl y).
    destruct r as [z|].
    + split.
      * intros [->|Hy]; [exists x; split; [now left|assumption]|].
        apply IH in Hy. destruct Hy as [x' [Hx' Hf]].
        exists x'. split; [now right|assumption].
      * intros [x' [[->|Hx'] Hf]].
        -- rewrite Ex in Hf. inversion Hf. now left.
        -- right. apply IH. eauto.
    + split.
      * intros Hy. apply IH in Hy. destruct Hy as [x' [Hx' Hf]].
        exists x'. split; [now right|assumption].
      * intros [x' [[->|Hx'] Hf]]; [congruence|]. apply IH. eauto.
Qed.

Lemma collect_ok_each {A B : Type} (f : A -> outcome (option B))
      (l : list A) (rs : list B) :
  collect f l = Ok rs -> forall x, In x l -> exists r, f x = Ok r.
Proof.
  revert rs. induction l as [|x l IH]; intros rs H y Hy; [destruct Hy|].
  simpl in H. destruct (f x) as [r|e] eqn:Ex; [|discriminate]. simpl in H.
  destruct (collect f l) as [rs'|e] eqn:El; [|discriminate].
  destruct Hy as [->|Hy]; [eauto|]. eapply IH; eauto.
Qed.

(** ** The gate of [compute_diff] *)

Section GateFacts.
Context {rt : Runtime}.
Import manifest engine.

(** A changed pair whose bodies are semantically equal after the
    default noise stripping and the normalization is not reported. *)
Lemma compute_diff_semantic_gate (pair : ResourcePair) (o n : Resource)
      (extra_ignores : option (list string)) :
  manifest.status pair = changed ->
  old pair = Some o -> new pair = Some n ->
  is_semantically_equal
    (normalize_body (strip_noise (VDict (body o)) extra_ignores))
    (normalize_body (strip_noise (VDict (body n)) extra_ignores)) = true ->
  compute_diff pair false extra_ignores = Ok None.
Proof.
  intros Hst Ho Hn Heq. unfold compute_diff.
  rewrite Hst, Ho, Hn. cbv zeta. rewrite Heq. reflexivity.
Qed.

(** Such a pair leaves no record in the output of [diff_all]. *)
Lemma diff_all_skips (pair : ResourcePair) (pairs : list ResourcePair)
      (show_all : bool) (extra_ignores : option (list string)) :
  compute_diff pair show_all extra_ignores = Ok None ->
  diff_all (pair :: pairs) show_all extra_ignores =
  diff_all pairs show_all extra_ignores.
Proof. intros H. unfold diff_all. now apply collect_cons_none. Qed.

Lemma diff_all_none (pairs : list ResourcePair)
      (show_all : bool) (extra_ignores : option (list string)) :
  (forall p, In p pairs -> compute_diff p show_all extra_ignores = Ok None) ->
  diff_all pairs show_all extra_ignores = Ok [].
Proof.
  induction pairs as [|p pairs IH]; intros H; [reflexivity|].
  rewrite diff_all_skips by (apply H; now left).
  apply IH. intros q Hq. apply H. now right.
Qed.
End GateFacts.


(** C1. On the snapshots [noise_only.live] and [noise_only.upgrade],
    one resource each, identical except for [metadata.resourceVersion]
    and the order of the keys: the pair is [changed] (the raw bodies
    differ), its bodies are semantically equal after noise stripping and
    normalization, [diff_all] returns no ChangeRecord, and the count of
    unchanged pairs that [cli] reports is 0, not the resource count 1. *)
Theorem noise_only_upgrade_reports_zero_unchanged :
  let rt := noise_only.rt in
  let pairs := manifest.pair_resources [noise_only.live] [noise_only.upgrade] in
  _sort_keys_recursive (VDict noise_only.upgrade_body)
    = _sort_keys_recursive (VDict noise_only.live_body_v200)
  /\ pairs = [manifest.mkPair (Some noise_only.live) (Some noise_only.upgrade)
                              manifest.changed]
  /\ is_semantically_equal
       (normalize_body (strip_noise (VDict noise_only.live_body) None))
       (normalize_body (strip_noise (VDict noise_only.upgrade_body) None))
     = true
  /\ engine.diff_all pairs false None = Ok []
  /\ cli.analyse [noise_only.live] [noise_only.upgrade] false []
     = Ok (cli.mkAnalysis [] 0)
  /\ List.length pairs = 1%nat.
Proof. vm_compute. repeat split; reflexivity. Qed.

(** ** The parser *)

Section ParserFacts.
Context {rt : Runtime}.
Import manifest.

Lemma parse_doc_discard_iff (ns raw_doc : string) (v : value) :
  strip raw_doc <> EmptyString ->
  yaml_safe_load (strip raw_doc) = Some v ->
  (parse_doc ns raw_doc = Ok None <-> ~ retained v).
Proof.
  intros Hne Hload. unfold parse_doc.
  destruct (strip raw_doc) as [|c s] eqn:E; [contradiction|].
  rewrite Hload.
  destruct v as [|?|?|?|?|?|body];
    try (split; [intros _ [bd [Hbd _]]; discriminate|reflexivity]).
  destruct (dict_has "apiVersion" body) eqn:Ha;
    [|split; [intros _ [bd [Hbd [Hb1 _]]]; inversion Hbd; subst; congruence
             |reflexivity]].
  destruct (dict_has "kind" body) eqn:Hk;
    [|split; [intros _ [bd [Hbd [_ Hb2]]]; inversion Hbd; subst; congruence
             |reflexivity]].
  cbn [negb orb].
  split.
  - intros H. exfalso.
    destruct (match dict_get "metadata" body with
              | Some m => m | None => VDict [] end);
      discriminate.
  - intros H. exfalso. apply H. exists body. auto.
Qed.

Lemma parse_doc_produces (ns raw_doc : string) (body : pydict) :
  strip raw_doc <> EmptyString ->
  yaml_safe_load (strip raw_doc) = Some (VDict body) ->
  retained (VDict body) ->
  match metadata_of body with
  | Some md =>
      parse_doc ns raw_doc =
      Ok (Some (mkLoaded (get_or_none "apiVersion" body)
                         (get_or_none "kind" body)
                         (get_default "namespace" (VStr ns) md)
                         (get_default "name" (VStr EmptyString) md)
                         body (strip raw_doc)))
  | None => parse_doc ns raw_doc = Raised AttributeError
  end.
Proof.
  intros Hne Hload (b & Hb & Hav & Hkd). injection Hb as <-.
  unfold parse_doc.
  destruct (strip raw_doc) as [|c s] eqn:E; [contradiction|].
  rewrite Hload, Hav, Hkd. cbn [negb orb]. unfold metadata_of, get_default.
  destruct (dict_get "metadata" body) as [[|?|?|?|?|?|m]|]; reflexivity.
Qed.

Lemma parse_doc_fields (ns raw_doc : string) (r : Loaded) :
  parse_doc ns raw_doc = Ok (Some r) ->
  yaml_safe_load (strip raw_doc) = Some (VDict (loaded_body r))
  /\ loaded_raw r = strip raw_doc.
Proof.
  unfold parse_doc.
  destruct (strip raw_doc) as [|c s] eqn:E; [discriminate|].
  destruct (yaml_safe_load (String c s)) as [[|?|?|?|?|?|b]|];
    try discriminate.
  destruct (negb (dict_has "apiVersion" b) || negb (dict_has "kind" b));
    [discriminate|].
  destruct (match dict_get "metadata" b with
            | Some m => m | None => VDict [] end); try discriminate.
  intros H. inversion H; subst. simpl. auto.
Qed.

(** C2, amended. A non-empty document that [yaml.safe_load] parses is
    discarded exactly when it is not a mapping, or lacks the
    [apiVersion] entry, or lacks the [kind] entry.  A kept document
    appears in the result of [parse_multi_doc] whenever that call
    returns; its round of the loop returns a Resource with its body,
    its text and the identity entries as the document gives them, of
    whatever type, when [metadata] is a mapping or absent, and raises
    [AttributeError] when [metadata] is anything else. *)
Theorem parse_multi_doc_keeps_complete_documents
        (ns raw_doc : string) (v : value) :
  strip raw_doc <> EmptyString ->
  yaml_safe_load (strip raw_doc) = Some v ->
  (parse_doc ns raw_doc = Ok None <-> ~ retained v)
  /\ (forall text rs,
         parse_multi_doc text ns = Ok rs ->
         In raw_doc (_split_raw_docs text) ->
         retained v ->
         exists r, In r rs /\ VDict (loaded_body r) = v
                   /\ loaded_raw r = strip raw_doc)
  /\ (forall body,
         v = VDict body ->
         retained v ->
         match metadata_of body with
         | Some md =>
             parse_doc ns raw_doc =
             Ok (Some (mkLoaded (get_or_none "apiVersion" body)
                                (get_or_none "kind" body)
                                (get_default "namespace" (VStr ns) md)
                                (get_default "name" (VStr EmptyString) md)
                                body (strip raw_doc)))
         | None => parse_doc ns raw_doc = Raised AttributeError
         end).
Proof.
  intros Hne Hload.
  pose proof (parse_doc_discard_iff ns raw_doc v Hne Hload) as Hiff.
  split; [exact Hiff|]. split.
  - intros text rs Hparse Hin Hret. unfold parse_multi_doc in Hparse.
    destruct (collect_ok_each _ _ _ Hparse raw_doc Hin) as [[r|] Hr].
    + exists r. split.
      * apply (proj2 (collect_In _ _ _ Hparse r)). eauto.
      * destruct (parse_doc_fields ns raw_doc r Hr) as [Hb Hraw].
        split; [congruence|assumption].
    + exfalso. apply (proj1 Hiff); assumption.
  - intros body -> Hret.
    exact (parse_doc_produces ns raw_doc body Hne Hload Hret).
Qed.
End ParserFacts.

(** C2, counterexample. The document [partial_doc.text] is not empty,
    parses to a mapping and holds an [apiVersion] entry, one of the two
    fields; the parser discards it, alone or in a stream. *)
Lemma parse_multi_doc_discards_partial_document :
  let rt := partial_doc.rt in
  strip partial_doc.text <> EmptyString
  /\ yaml_safe_load (strip partial_doc.text) = Some (VDict partial_doc.loaded)
  /\ dict_has "apiVersion" partial_doc.loaded = true
  /\ dict_has "kind" partial_doc.loaded = false
  /\ manifest.parse_doc "default" partial_doc.text = Ok None
  /\ manifest.parse_multi_doc partial_doc.text "default" = Ok []
  /\ manifest.parse_multi_doc partial_doc.stream "default"
     = Ok [manifest.mkLoaded (VStr "v1") (VStr "ConfigMap") (VStr "default")
             (VStr "settings")
             partial_doc.full_loaded (strip partial_doc.full_text)].
Proof.
  cbv zeta. split; [vm_compute; discriminate|].
  repeat split; vm_compute; reflexivity.
Qed.

Lemma parse_multi_doc_keeps_complete_documents_witness :
  let rt := partial_doc.rt in
  strip partial_doc.untyped_text <> EmptyString
  /\ yaml_safe_load (strip partial_doc.untyped_text)
     = Some (VDict partial_doc.untyped_loaded)
  /\ retained (VDict partial_doc.untyped_loaded)
  /\ manifest.parse_doc "default" partial_doc.untyped_text
     = Ok (Some (manifest.mkLoaded (VStr "v1") (VStr "ConfigMap")
                   VNone (VInt 123)
                   partial_doc.untyped_loaded
                   (strip partial_doc.untyped_text))).
Proof.
  cbv zeta.
  assert (Hne : strip partial_doc.untyped_text <> EmptyString)
    by (vm_compute; discriminate).
  assert (Hload : @yaml_safe_load partial_doc.rt
                    (strip partial_doc.untyped_text)
                  = Some (VDict partial_doc.untyped_loaded))
    by (vm_compute; reflexivity).
  assert (Hret : retained (VDict partial_doc.untyped_loaded)).
  { exists partial_doc.untyped_loaded. repeat split; vm_compute; reflexivity. }
  split; [exact Hne|]. split; [exact Hload|]. split; [exact Hret|].
  exact (proj2 (proj2
           (@parse_multi_doc_keeps_complete_documents partial_doc.rt
              "default" partial_doc.untyped_text
              (VDict partial_doc.untyped_loaded) Hne Hload))
           partial_doc.untyped_loaded eq_refl Hret).
Defined.

(** ** Insertion-ordered dicts *)

Lemma mem_false_In (k : string) (l : list string) :
  mem k l = false <-> ~ In k l.
Proof.
  rewrite <- mem_In. destruct (mem k l); split; congruence.
Qed.

Lemma keys_dict_set {A : Type} (k : string) (v : A) (d : list (string * A)) :
  keys (dict_set k v d) = if mem k (keys d) then keys d else (keys d ++ [k])%list.
Proof.
  induction d as [|[k' v'] d IH]; [reflexivity|].
  simpl. destruct (String.eqb k k') eqn:E; [reflexivity|].
  simpl. rewrite IH. fold (mem k (keys d)).
  destruct (mem k (keys d)); reflexivity.
Qed.

Lemma dict_get_set {A : Type} (k k' : string) (v : A) (d : list (string * A)) :
  dict_get k (dict_set k' v d) =
  if String.eqb k k' then Some v else dict_get k d.
Proof.
  induction d as [|[k0 v0] d IH]; simpl.
  - destruct (String.eqb k k'); reflexivity.
  - destruct (String.eqb_spec k' k0) as [->|Hne]; simpl.
    + destruct (String.eqb k k0); reflexivity.
    + rewrite IH. destruct (String.eqb_spec k k0) as [->|Hne'];
        [|reflexivity].
      destruct (String.eqb_spec k0 k'); [congruence|reflexivity].
Qed.

Lemma filter_filter_implied {A : Type} (p q : A -> bool) (l : list A) :
  (forall x, p x = true -> q x = true) ->
  filter p (filter q l) = filter p l.
Proof.
  intros H. induction l as [|x l IH]; [reflexivity|].
  simpl. destruct (q x) eqn:Eq; simpl.
  - now rewrite IH.
  - destruct (p x) eqn:Ep; [|assumption].
    apply H in Ep. congruence.
Qed.

Lemma filter_ext_pred {A : Type} (p q : A -> bool) (l : list A) :
  (forall x, p x = q x) -> filter p l = filter q l.
Proof.
  intros H. induction l as [|x l IH]; [reflexivity|].
  simpl. rewrite H, IH. reflexivity.
Qed.

Lemma first_seen_In (k : string) (l : list string) :
  In k (first_seen l) <-> In k l.
Proof.
  induction l as [|x l IH]; [reflexivity|].
  simpl. rewrite filter_In, IH.
  destruct (String.eqb_spec k x) as [->|Hne].
  - split; auto.
  - split.
    + intros [Hx|[Hin _]]; [congruence|auto].
    + intros [Hx|Hin]; [congruence|auto].
Qed.

Lemma first_seen_NoDup (l : list string) : NoDup (first_seen l).
Proof.
  induction l as [|x l IH]; simpl; constructor.
  - rewrite filter_In. intros [_ H]. now rewrite String.eqb_refl in H.
  - now apply NoDup_filter.
Qed.

Lemma mem_app (k : string) (a b : list string) :
  mem k (a ++ b) = mem k a || mem k b.
Proof. unfold mem. apply existsb_app. Qed.

Lemma filter_filter_and {A : Type} (p q : A -> bool) (l : list A) :
  filter p (filter q l) = filter (fun x => p x && q x) l.
Proof.
  induction l as [|x l IH]; [reflexivity|].
  simpl. destruct (q x); simpl.
  - rewrite andb_true_r. destruct (p x); now rewrite IH.
  - now rewrite andb_false_r.
Qed.

(** The keys of a dict built by successive assignments: those already
    there, then the new ones in the order of their first assignment. *)
Lemma keys_fold_set {X A : Type} (kf : X -> string) (vf : X -> A)
      (xs : list X) (d : list (string * A)) :
  keys (fold_left (fun d x => dict_set (kf x) (vf x) d) xs d) =
  (keys d ++ filter (fun k => negb (mem k (keys d)))
                    (first_seen (map kf xs)))%list.
Proof.
  revert d. induction xs as [|x xs IH]; intros d; simpl.
  - now rewrite app_nil_r.
  - rewrite IH, keys_dict_set.
    destruct (mem (kf x) (keys d)) eqn:E; simpl.
    + f_equal. symmetry. apply filter_filter_implied.
      intros k Hk. destruct (String.eqb_spec k (kf x)) as [->|]; [|reflexivity].
      now rewrite E in Hk.
    + rewrite <- app_assoc. simpl. f_equal. f_equal.
      rewrite filter_filter_and. apply filter_ext_pred.
      intros k. rewrite mem_app. simpl. rewrite orb_false_r.
      now rewrite negb_orb.
Qed.

Lemma find_append {A : Type} (p : A -> bool) (l l' : list A) :
  find p (l ++ l') =
  match find p l with
  | Some x => Some x
  | None => find p l'
  end.
Proof.
  induction l as [|x l IH]; [reflexivity|].
  simpl. destruct (p x); [reflexivity|exact IH].
Qed.

(** The value under a key is the one assigned last. *)
Lemma get_fold_set {X A : Type} (kf : X -> string) (vf : X -> A)
      (xs : list X) (d : list (string * A)) (k : string) :
  dict_get k (fold_left (fun d x => dict_set (kf x) (vf x) d) xs d) =
  match find (fun x => String.eqb (kf x) k) (rev xs) with
  | Some x => Some (vf x)
  | None => dict_get k d
  end.
Proof.
  revert d. induction xs as [|x xs IH]; intros d; [reflexivity|].
  simpl. rewrite IH, find_append.
  destruct (find (fun x0 => String.eqb (kf x0) k) (rev xs)); [reflexivity|].
  simpl. rewrite dict_get_set, (String.eqb_sym (kf x) k).
  destruct (String.eqb k (kf x)); reflexivity.
Qed.

Lemma first_seen_fixed (l : list string) : NoDup l -> first_seen l = l.
Proof.
  induction l as [|x l IH]; intros Hnd; [reflexivity|].
  inversion Hnd as [|? ? Hnotin Hnd']; subst. simpl. f_equal.
  rewrite IH by assumption.
  rewrite forallb_filter_id; [reflexivity|].
  apply forallb_forall. intros y Hy.
  destruct (String.eqb_spec y x) as [->|]; [contradiction|reflexivity].
Qed.

Lemma first_seen_app (a b : list string) :
  first_seen (a ++ b) =
  (first_seen a ++ filter (fun k => negb (mem k a)) (first_seen b))%list.
Proof.
  induction a as [|x a IH]; simpl.
  - symmetry. apply forallb_filter_id. apply forallb_forall. reflexivity.
  - f_equal. rewrite IH, filter_app. f_equal.
    rewrite filter_filter_and. apply filter_ext_pred.
    intros k. rewrite (String.eqb_sym k x).
    destruct (String.eqb x k), (mem k a); reflexivity.
Qed.

Lemma mem_first_seen (k : string) (l : list string) :
  mem k (first_seen l) = mem k l.
Proof.
  destruct (mem k l) eqn:E.
  - apply mem_In. apply first_seen_In. now apply mem_In.
  - apply mem_false_In. rewrite first_seen_In. now apply mem_false_In.
Qed.

Import manifest.

Lemma keys_key_map (rs : list Resource) :
  keys (key_map rs) = first_seen (map key rs).
Proof.
  unfold key_map.
  rewrite (keys_fold_set key (fun r => r) rs []). simpl.
  apply forallb_filter_id. apply forallb_forall. reflexivity.
Qed.

Lemma get_key_map (k : string) (rs : list Resource) :
  dict_get k (key_map rs) = last_with_key k rs.
Proof.
  unfold key_map, last_with_key.
  rewrite (get_fold_set key (fun r => r) rs [] k).
  destruct (find _ (rev rs)); reflexivity.
Qed.

Lemma fromkeys_first_seen (ks : list string) : fromkeys ks = first_seen ks.
Proof.
  unfold fromkeys.
  rewrite (keys_fold_set (fun k => k) (fun _ => tt) ks []). simpl.
  rewrite map_id. apply forallb_filter_id. apply forallb_forall. reflexivity.
Qed.

Lemma last_with_key_some (k : string) (rs : list Resource) :
  In k (map key rs) <-> exists r, last_with_key k rs = Some r.
Proof.
  unfold last_with_key. split.
  - intros Hin. apply in_map_iff in Hin. destruct Hin as [r [Hk Hr]].
    destruct (find (fun r0 => String.eqb (key r0) k) (rev rs)) eqn:E; [eauto|].
    exfalso. apply in_rev in Hr.
    pose proof (find_none _ _ E r Hr) as Hf. cbv beta in Hf.
    apply String.eqb_neq in Hf. contradiction.
  - intros [r Hr]. apply find_some in Hr. destruct Hr as [Hin Hk].
    apply String.eqb_eq in Hk. subst. apply in_map. now apply in_rev.
Qed.

Lemma last_with_key_key (k : string) (rs : list Resource) (r : Resource) :
  last_with_key k rs = Some r -> key r = k /\ In r rs.
Proof.
  unfold last_with_key. intros H. apply find_some in H.
  destruct H as [Hin Hk]. apply String.eqb_eq in Hk.
  split; [assumption|]. now apply in_rev.
Qed.

Lemma last_with_key_none (k : string) (rs : list Resource) :
  ~ In k (map key rs) <-> last_with_key k rs = None.
Proof.
  rewrite last_with_key_some. split.
  - intros H. destruct (last_with_key k rs); [exfalso; eauto|reflexivity].
  - intros H [r Hr]. congruence.
Qed.

Lemma union_order_In (old new : list Resource) (k : string) :
  In k (union_order old new) <-> In k (map key old) \/ In k (map key new).
Proof.
  unfold union_order. rewrite in_app_iff, filter_In, !first_seen_In. split.
  - intros [H|[H _]]; auto.
  - intros [H|H]; [now left|].
    destruct (mem k (map key old)) eqn:E.
    + left. now apply mem_In.
    + right. split; [assumption|reflexivity].
Qed.

Lemma union_order_NoDup (old new : list Resource) :
  NoDup (union_order old new).
Proof.
  unfold union_order. apply NoDup_app.
  - apply first_seen_NoDup.
  - apply NoDup_filter, first_seen_NoDup.
  - intros k Hk Hk'. apply (proj1 (first_seen_In _ _)) in Hk.
    apply filter_In in Hk'. destruct Hk' as [_ Hk'].
    apply (proj2 (mem_In _ _)) in Hk. now rewrite Hk in Hk'.
Qed.

Lemma pair_resources_refines (old new : list Resource) :
  pair_resources old new = pair_resources_spec old new.
Proof.
  unfold pair_resources, pair_resources_spec, union_order.
  rewrite fromkeys_first_seen, !keys_key_map, first_seen_app.
  rewrite (first_seen_fixed _ (first_seen_NoDup (map key old))).
  rewrite (first_seen_fixed _ (first_seen_NoDup (map key new))).
  rewrite (filter_ext_pred
             (fun k => negb (mem k (first_seen (map key old))))
             (fun k => negb (mem k (map key old))))
    by (intros k; now rewrite mem_first_seen).
  apply map_ext. intros k. unfold pair_of.
  rewrite !get_key_map. unfold status_by_presence.
  destruct (last_with_key k old), (last_with_key k new); reflexivity.
Qed.

Lemma pair_of_old_only (old new : list Resource) (k : string) :
  In k (map key old) -> ~ In k (map key new) ->
  exists o, last_with_key k old = Some o /\ key o = k /\
            In (mkPair (Some o) None removed) (pair_resources old new).
Proof.
  intros Ho Hn. rewrite pair_resources_refines. unfold pair_resources_spec.
  destruct (proj1 (last_with_key_some k old) Ho) as [o Hlo].
  apply last_with_key_none in Hn.
  exists o. split; [assumption|].
  split; [apply (last_with_key_key _ _ _ Hlo)|].
  apply in_map_iff. exists k. rewrite Hlo, Hn. split; [reflexivity|].
  apply union_order_In. now left.
Qed.

Lemma pair_of_new_only (old new : list Resource) (k : string) :
  ~ In k (map key old) -> In k (map key new) ->
  exists n, last_with_key k new = Some n /\ key n = k /\
            In (mkPair None (Some n) added) (pair_resources old new).
Proof.
  intros Ho Hn. rewrite pair_resources_refines. unfold pair_resources_spec.
  destruct (proj1 (last_with_key_some k new) Hn) as [n Hln].
  apply last_with_key_none in Ho.
  exists n. split; [assumption|].
  split; [apply (last_with_key_key _ _ _ Hln)|].
  apply in_map_iff. exists k. rewrite Hln, Ho. split; [reflexivity|].
  apply union_order_In. now right.
Qed.

Lemma pair_of_both (old new : list Resource) (k : string) :
  In k (map key old) -> In k (map key new) ->
  exists o n, last_with_key k old = Some o /\
              last_with_key k new = Some n /\
              key o = k /\ key n = k /\
              In (mkPair (Some o) (Some n)
                         (if py_eq (VDict (body o)) (VDict (body n))
                          then unchanged else changed))
                 (pair_resources old new).
Proof.
  intros Ho Hn. rewrite pair_resources_refines. unfold pair_resources_spec.
  destruct (proj1 (last_with_key_some k old) Ho) as [o Hlo].
  destruct (proj1 (last_with_key_some k new) Hn) as [n Hln].
  exists o, n. split; [assumption|]. split; [assumption|].
  split; [apply (last_with_key_key _ _ _ Hlo)|].
  split; [apply (last_with_key_key _ _ _ Hln)|].
  apply in_map_iff. exists k. rewrite Hlo, Hln. split; [reflexivity|].
  apply union_order_In. now left.
Qed.

(** C3. [pair_resources] returns one pair per identity key of the union
    of both sides: the old-side keys in the order they are first seen,
    then the keys only the new side has, each key once
    ([pair_resources_spec]); the pair of a key holds the last resource
    with that key on each side; and the status is [removed] for a key
    only in old, [added] for a key only in new, [unchanged] when both
    raw bodies are equal under [==], [changed] otherwise. *)
Theorem pair_resources_meets_spec (old new : list Resource) :
  pair_resources old new = pair_resources_spec old new
  /\ NoDup (union_order old new)
  /\ (forall k, In k (union_order old new) <->
                In k (map key old) \/ In k (map key new))
  /\ (forall k, In k (map key old) -> ~ In k (map key new) ->
        exists o, last_with_key k old = Some o /\ key o = k /\
                  In (mkPair (Some o) None removed) (pair_resources old new))
  /\ (forall k, ~ In k (map key old) -> In k (map key new) ->
        exists n, last_with_key k new = Some n /\ key n = k /\
                  In (mkPair None (Some n) added) (pair_resources old new))
  /\ (forall k, In k (map key old) -> In k (map key new) ->
        exists o n, last_with_key k old = Some o /\
                    last_with_key k new = Some n /\
                    key o = k /\ key n = k /\
                    In (mkPair (Some o) (Some n)
                               (if py_eq (VDict (body o)) (VDict (body n))
                                then unchanged else changed))
                       (pair_resources old new)).
Proof.
  split; [apply pair_resources_refines|].
  split; [apply union_order_NoDup|].
  split; [apply union_order_In|].
  split; [apply pair_of_old_only|].
  split; [apply pair_of_new_only|apply pair_of_both].
Qed.

(** ** Text lemmas *)

Lemma prefix_iff (p s : string) :
  String.prefix p s = true <-> exists post, s = p ++ post.
Proof.
  revert s. induction p as [|c p IH]; intros s.
  - split; [intros _; exists s; reflexivity|destruct s; reflexivity].
  - destruct s as [|d s]; simpl.
    + split; [discriminate|]. intros [post H]. discriminate.
    + destruct (Ascii.ascii_dec c d) as [->|Hne].
      * rewrite IH. split; intros [post H]; exists post.
        -- now rewrite H.
        -- now inversion H.
      * split; [discriminate|]. intros [post H]. inversion H. congruence.
Qed.

Lemma contains_iff (sub s : string) :
  contains sub s = true <-> occurs_in sub s.
Proof.
  unfold occurs_in. induction s as [|c s IH].
  - cbn [contains]. rewrite orb_false_r, prefix_iff. split.
    + intros [post H]. exists EmptyString, post. exact H.
    + intros [pre [post H]]. destruct pre; [exists post; exact H|discriminate].
  - cbn [contains]. rewrite orb_true_iff, prefix_iff, IH. split.
    + intros [[post H]|[pre [post H]]].
      * exists EmptyString, post. exact H.
      * exists (String c pre), post. simpl. now rewrite H.
    + intros [pre [post H]]. destruct pre as [|d pre].
      * left. exists post. exact H.
      * right. exists pre, post. simpl in H. now inversion H.
Qed.

Lemma eq_str_iff (v : value) (text : string) :
  risk.eq_str v text = true <-> v = VStr text.
Proof.
  unfold risk.eq_str. destruct v; simpl;
    try (split; [discriminate|intros H; discriminate]).
  rewrite String.eqb_eq. split; [intros ->; reflexivity|].
  intros H. now inversion H.
Qed.

(** ** The risk rules *)

Section RiskFacts.
Context {rt : Runtime}.
Import engine risk.

Lemma flat_map_if_filter {A B : Type} (p : A -> bool) (f : A -> B)
      (l : list A) :
  flat_map (fun x => if p x then [f x] else []) l = map f (filter p l).
Proof.
  induction l as [|x l IH]; [reflexivity|].
  simpl. destruct (p x); simpl; now rewrite IH.
Qed.

(** C4. For a record of kind "Service" the rule yields one annotation
    per field change whose path is exactly [spec.type], in order, and
    nothing else; the annotation has rule "service_type_change" and
    the path of the change, and its level is DANGER when the old value
    is "ClusterIP" and the new value is "NodePort" or "LoadBalancer",
    WARNING otherwise.  A record of any other kind gets nothing from
    this rule.  A Service going from ClusterIP to LoadBalancer gets
    exactly one annotation from the whole rule set: DANGER,
    "service_type_change". *)
Theorem service_type_rule :
  (forall c, engine.kind c = "Service" ->
     check_service_type_change c =
     map service_annotation
         (filter (fun fc => String.eqb (engine.path fc) "spec.type")
                 (changes c)))
  /\ (forall fc,
        rule (service_annotation fc) = "service_type_change"
        /\ risk.path (service_annotation fc) = engine.path fc
        /\ (old_value fc = VStr "ClusterIP" /\
            (new_value fc = VStr "NodePort"
             \/ new_value fc = VStr "LoadBalancer") ->
            level (service_annotation fc) = DANGER)
        /\ (~ (old_value fc = VStr "ClusterIP" /\
               (new_value fc = VStr "NodePort"
                \/ new_value fc = VStr "LoadBalancer")) ->
            level (service_annotation fc) = WARNING))
  /\ (forall c, engine.kind c <> "Service" ->
        check_service_type_change c = [])
  /\ assess_risk [risk_examples.exposed_service] =
     [ (risk_examples.exposed_service,
        [ mkAnnotation DANGER "service_type_change"
            "Service type changed from ClusterIP to LoadBalancer"
            "spec.type" ]) ].
Proof.
  split; [|split; [|split]].
  - intros c Hk. unfold check_service_type_change. rewrite Hk.
    cbn [String.eqb Ascii.eqb Bool.eqb negb].
    apply flat_map_if_filter.
  - intros fc. split; [reflexivity|]. split; [reflexivity|].
    unfold service_annotation. cbn [level]. split.
    + intros [Ho Hn].
      apply eq_str_iff in Ho. rewrite Ho.
      destruct Hn as [Hn|Hn]; apply eq_str_iff in Hn; rewrite Hn;
        [reflexivity|now rewrite orb_true_r].
    + intros H.
      destruct (eq_str (old_value fc) "ClusterIP") eqn:Eo; [|reflexivity].
      destruct (eq_str (new_value fc) "NodePort") eqn:En1.
      * exfalso. apply H. split; [now apply eq_str_iff|].
        left. now apply eq_str_iff.
      * destruct (eq_str (new_value fc) "LoadBalancer") eqn:En2;
          [|reflexivity].
        exfalso. apply H. split; [now apply eq_str_iff|].
        right. now apply eq_str_iff.
  - intros c Hk. unfold check_service_type_change.
    apply String.eqb_neq in Hk. now rewrite Hk.
  - reflexivity.
Qed.

Lemma rules_on_removed_without_changes (c : ChangeRecord) :
  engine.status c = manifest.removed -> changes c = [] ->
  flat_map (fun rule => rule c) RISK_RULES = [deletion_annotation c].
Proof.
  intros Hs Hc. unfold RISK_RULES. cbn [flat_map].
  unfold check_immutable_fields, check_service_type_change,
    check_pvc_changes, check_resource_deletion, check_crd_changes,
    check_rbac_escalation.
  rewrite Hs, Hc. cbn [flat_map].
  destruct (negb (String.eqb (engine.kind c) "Service"));
  destruct (negb (String.eqb (engine.kind c) "PersistentVolumeClaim"));
  destruct (negb (String.eqb (engine.kind c) "CustomResourceDefinition"));
  destruct (negb (String.eqb (engine.kind c) "ClusterRole"
                  || String.eqb (engine.kind c) "Role"));
  reflexivity.
Qed.

(** C5. A key that only the old snapshot holds gives a pair for which
    [compute_diff] returns a record with that key, status [removed]
    and no field change; the record is in the output of [diff_all]
    whenever that call returns; [assess_risk] attaches to it one
    annotation exactly: WARNING, "resource_deleted", empty path.  And
    every record with status [removed], whatever else it holds, gets
    this annotation from the deletion rule. *)
Theorem removed_resource_is_flagged :
  (forall old new k show_all extra_ignores,
      In k (map manifest.key old) -> ~ In k (map manifest.key new) ->
      exists p c,
        In p (manifest.pair_resources old new)
        /\ compute_diff p show_all extra_ignores = Ok (Some c)
        /\ resource_key c = k
        /\ engine.status c = manifest.removed
        /\ changes c = []
        /\ (forall crs,
               diff_all (manifest.pair_resources old new)
                        show_all extra_ignores = Ok crs -> In c crs)
        /\ assess_risk [c] =
           [ (c, [ mkAnnotation WARNING "resource_deleted"
                     (engine.kind c ++ "/" ++ engine.name c
                        ++ " will be removed")
                     EmptyString ]) ])
  /\ (forall c, engine.status c = manifest.removed ->
        check_resource_deletion c =
        [ mkAnnotation WARNING "resource_deleted"
            (engine.kind c ++ "/" ++ engine.name c ++ " will be removed")
            EmptyString ]
        /\ forall crs, In c crs ->
             exists anns, In (c, anns) (assess_risk crs)
                          /\ In (deletion_annotation c) anns).
Proof.
  split.
  - intros old new k show_all extra Ho Hn.
    destruct (pair_of_old_only old new k Ho Hn) as [o [Hlo [Hko Hin]]].
    exists (manifest.mkPair (Some o) None manifest.removed),
           (record_of o manifest.removed []).
    split; [exact Hin|]. split; [reflexivity|].
    split; [exact Hko|]. split; [reflexivity|]. split; [reflexivity|].
    split.
    + intros crs Hd. unfold diff_all in Hd.
      apply (proj2 (collect_In _ _ _ Hd _)).
      exists (manifest.mkPair (Some o) None manifest.removed).
      split; [exact Hin|reflexivity].
    + unfold assess_risk. cbn [map].
      now rewrite rules_on_removed_without_changes.
  - intros c Hs. split.
    + unfold check_resource_deletion. now rewrite Hs.
    + intros crs Hin.
      exists (flat_map (fun rule => rule c) RISK_RULES). split.
      * unfold assess_risk.
        apply (in_map (fun change =>
                         (change, flat_map (fun rule => rule change)
                                           RISK_RULES)) crs c Hin).
      * apply in_flat_map. exists check_resource_deletion. split.
        -- unfold RISK_RULES. simpl. tauto.
        -- unfold check_resource_deletion. rewrite Hs. now left.
Qed.
End RiskFacts.

Section RiskFacts2.
Context {rt : Runtime}.
Import engine risk.

(** C9. For a record of kind "PersistentVolumeClaim" and each of its
    field changes: the WARNING annotation "pvc_storage_change" is
    attached exactly when the path holds "storage" and "requests" as
    substrings, wherever and in whichever order they stand; the DANGER
    annotation "pvc_storage_class_change" is attached exactly when the
    path is [spec.storageClassName]. *)
Theorem pvc_rule_matches_substrings (c : ChangeRecord) (fc : FieldChange) :
  engine.kind c = "PersistentVolumeClaim" ->
  In fc (changes c) ->
  (In (pvc_storage_annotation fc) (check_pvc_changes c) <->
   occurs_in "storage" (engine.path fc)
   /\ occurs_in "requests" (engine.path fc))
  /\ (In (pvc_class_annotation fc) (check_pvc_changes c) <->
      engine.path fc = "spec.storageClassName")
  /\ level (pvc_storage_annotation fc) = WARNING
  /\ rule (pvc_storage_annotation fc) = "pvc_storage_change"
  /\ level (pvc_class_annotation fc) = DANGER
  /\ rule (pvc_class_annotation fc) = "pvc_storage_class_change".
Proof.
  intros Hk Hin.
  assert (Hrule : check_pvc_changes c =
    flat_map
      (fun fc =>
         ((if contains "storage" (engine.path fc)
              && contains "requests" (engine.path fc)
           then [pvc_storage_annotation fc] else [])
          ++
          (if String.eqb (engine.path fc) "spec.storageClassName"
           then [pvc_class_annotation fc] else []))%list)
      (changes c)).
  { unfold check_pvc_changes. rewrite Hk. reflexivity. }
  rewrite Hrule. clear Hrule.
  assert (Hsplit : forall ann,
    In ann (flat_map
      (fun fc =>
         ((if contains "storage" (engine.path fc)
              && contains "requests" (engine.path fc)
           then [pvc_storage_annotation fc] else [])
          ++
          (if String.eqb (engine.path fc) "spec.storageClassName"
           then [pvc_class_annotation fc] else []))%list)
      (changes c)) ->
    exists fc', In fc' (changes c) /\
      ((ann = pvc_storage_annotation fc'
        /\ contains "storage" (engine.path fc') = true
        /\ contains "requests" (engine.path fc') = true)
       \/ (ann = pvc_class_annotation fc'
           /\ engine.path fc' = "spec.storageClassName"))).
  { intros ann H. apply in_flat_map in H. destruct H as [fc' [Hfc' H]].
    exists fc'. split; [exact Hfc'|].
    apply in_app_or in H. destruct H as [H|H].
    - destruct (contains "storage" (engine.path fc')
                && contains "requests" (engine.path fc')) eqn:E;
        [|destruct H].
      destruct H as [H|[]]. apply andb_true_iff in E. left. auto.
    - destruct (String.eqb (engine.path fc') "spec.storageClassName")
        eqn:E; [|destruct H].
      destruct H as [H|[]]. apply String.eqb_eq in E. right. auto. }
  split; [|split; [|repeat split]].
  - split.
    + intros H. apply Hsplit in H.
      destruct H as [fc' [_ [[Heq [E1 E2]]|[Heq _]]]].
      * apply (f_equal risk.path) in Heq. simpl in Heq. rewrite Heq.
        split; now apply contains_iff.
      * apply (f_equal rule) in Heq. discriminate.
    + intros [H1 H2]. apply in_flat_map. exists fc. split; [exact Hin|].
      apply in_or_app. left.
      apply contains_iff in H1. apply contains_iff in H2.
      rewrite H1, H2. now left.
  - split.
    + intros H. apply Hsplit in H.
      destruct H as [fc' [_ [[Heq _]|[Heq E]]]].
      * apply (f_equal rule) in Heq. discriminate.
      * apply (f_equal risk.path) in Heq. simpl in Heq. now rewrite Heq.
    + intros H. apply in_flat_map. exists fc. split; [exact Hin|].
      apply in_or_app. right. rewrite H. now left.
Qed.

(** C10. The immutable-field rule compares raw strings: when the
    lower-cased kind of a record has a configured prefix and the path
    of one of its field changes starts with the characters of that
    prefix, whatever follows them, the change gets a DANGER annotation
    with rule "immutable_field" and its own path.  No segment boundary
    is asked for after the prefix. *)
Theorem immutable_rule_matches_raw_prefix
        (c : ChangeRecord) (fc : FieldChange) (prefix suffix : string) :
  In prefix (immutable_paths_of (lower (engine.kind c))) ->
  In fc (changes c) ->
  engine.path fc = prefix ++ suffix ->
  In (mkAnnotation DANGER "immutable_field"
        ("Immutable field '" ++ engine.path fc ++ "' changed on "
           ++ engine.kind c ++ "/" ++ engine.name c)
        (engine.path fc))
     (check_immutable_fields c).
Proof.
  intros Hp Hfc Hpath. unfold check_immutable_fields.
  apply in_flat_map. exists fc. split; [exact Hfc|].
  apply in_flat_map. exists prefix. split; [exact Hp|].
  unfold startswith.
  replace (String.prefix prefix (engine.path fc)) with true.
  - now left.
  - symmetry. apply prefix_iff. eauto.
Qed.
End RiskFacts2.

(** ** The theorems at work on concrete records *)

Lemma service_type_rule_witness :
  let rt := risk_examples.rt in
  engine.kind risk_examples.exposed_service = "Service"
  /\ risk.check_service_type_change risk_examples.exposed_service =
     [ risk.mkAnnotation risk.DANGER "service_type_change"
         "Service type changed from ClusterIP to LoadBalancer" "spec.type" ]
  /\ risk.check_service_type_change risk_examples.hidden_service =
     [ risk.mkAnnotation risk.WARNING "service_type_change"
         "Service type changed from NodePort to ClusterIP" "spec.type" ]
  /\ engine.kind risk_examples.annotated_claim <> "Service"
  /\ risk.check_service_type_change risk_examples.annotated_claim = [].
Proof.
  cbv zeta.
  assert (Hne : engine.kind risk_examples.annotated_claim <> "Service")
    by (vm_compute; discriminate).
  split; [reflexivity|].
  split; [exact (proj1 (@service_type_rule risk_examples.rt)
                       risk_examples.exposed_service eq_refl)|].
  split; [exact (proj1 (@service_type_rule risk_examples.rt)
                       risk_examples.hidden_service eq_refl)|].
  split; [exact Hne|].
  exact (proj1 (proj2 (proj2 (@service_type_rule risk_examples.rt)))
               risk_examples.annotated_claim Hne).
Defined.

Lemma pvc_rule_matches_substrings_witness :
  let rt := risk_examples.rt in
  engine.kind risk_examples.annotated_claim = "PersistentVolumeClaim"
  /\ In risk_examples.label_change (engine.changes risk_examples.annotated_claim)
  /\ In risk_examples.class_change (engine.changes risk_examples.annotated_claim)
  /\ In (risk.pvc_storage_annotation risk_examples.label_change)
        (risk.check_pvc_changes risk_examples.annotated_claim)
  /\ ~ In (risk.pvc_class_annotation risk_examples.label_change)
          (risk.check_pvc_changes risk_examples.annotated_claim)
  /\ In (risk.pvc_class_annotation risk_examples.class_change)
        (risk.check_pvc_changes risk_examples.annotated_claim)
  /\ risk.check_pvc_changes risk_examples.annotated_claim =
     [ risk.mkAnnotation risk.WARNING "pvc_storage_change"
         "PVC storage request changed from gold to silver"
         "metadata.labels.requests-storage-tier";
       risk.mkAnnotation risk.DANGER "pvc_storage_class_change"
         "PVC storageClassName changed from fast to slow"
         "spec.storageClassName" ].
Proof.
  cbv zeta.
  assert (H1 : In risk_examples.label_change
                  (engine.changes risk_examples.annotated_claim))
    by (simpl; auto).
  assert (H2 : In risk_examples.class_change
                  (engine.changes risk_examples.annotated_claim))
    by (simpl; auto).
  pose proof (@pvc_rule_matches_substrings risk_examples.rt
                risk_examples.annotated_claim risk_examples.label_change
                eq_refl H1) as L.
  pose proof (@pvc_rule_matches_substrings risk_examples.rt
                risk_examples.annotated_claim risk_examples.class_change
                eq_refl H2) as C.
  split; [reflexivity|]. split; [exact H1|]. split; [exact H2|].
  split.
  { apply (proj2 (proj1 L)). split.
    - exists "metadata.labels.requests-", "-tier". reflexivity.
    - exists "metadata.labels.", "-storage-tier". reflexivity. }
  split.
  { intros H. apply (proj1 (proj1 (proj2 L))) in H. discriminate. }
  split.
  { apply (proj2 (proj1 (proj2 C))). reflexivity. }
  reflexivity.
Defined.

Lemma immutable_rule_matches_raw_prefix_witness :
  let rt := risk_examples.rt in
  In "spec.clusterIP"
     (risk.immutable_paths_of
        (lower (engine.kind risk_examples.dual_stack_service)))
  /\ In risk_examples.cluster_ips_change
        (engine.changes risk_examples.dual_stack_service)
  /\ engine.path risk_examples.cluster_ips_change = "spec.clusterIP" ++ "s"
  /\ In (risk.mkAnnotation risk.DANGER "immutable_field"
           "Immutable field 'spec.clusterIPs' changed on Service/web"
           "spec.clusterIPs")
        (risk.check_immutable_fields risk_examples.dual_stack_service).
Proof.
  cbv zeta.
  assert (H1 : In "spec.clusterIP"
                  (risk.immutable_paths_of
                     (lower (engine.kind risk_examples.dual_stack_service))))
    by (simpl; auto).
  assert (H2 : In risk_examples.cluster_ips_change
                  (engine.changes risk_examples.dual_stack_service))
    by (simpl; auto).
  split; [exact H1|]. split; [exact H2|]. split; [reflexivity|].
  exact (immutable_rule_matches_raw_prefix
           risk_examples.dual_stack_service risk_examples.cluster_ips_change
           "spec.clusterIP" "s" H1 H2 eq_refl).
Defined.

Lemma pair_resources_meets_spec_witness :
  let old := [risk_examples.kept; risk_examples.gone;
              risk_examples.kept_edited] in
  let new := [risk_examples.fresh; risk_examples.kept] in
  In "v1/ConfigMap/default/legacy" (map manifest.key old)
  /\ ~ In "v1/ConfigMap/default/legacy" (map manifest.key new)
  /\ (exists o,
         last_with_key "v1/ConfigMap/default/legacy" old = Some o
         /\ manifest.key o = "v1/ConfigMap/default/legacy"
         /\ In (manifest.mkPair (Some o) None manifest.removed)
               (manifest.pair_resources old new))
  /\ manifest.pair_resources old new =
     [ manifest.mkPair (Some risk_examples.kept_edited)
                       (Some risk_examples.kept) manifest.changed;
       manifest.mkPair (Some risk_examples.gone) None manifest.removed;
       manifest.mkPair None (Some risk_examples.fresh) manifest.added ].
Proof.
  cbv zeta.
  assert (Ho : In "v1/ConfigMap/default/legacy"
                  (map manifest.key [risk_examples.kept; risk_examples.gone;
                                     risk_examples.kept_edited]))
    by (vm_compute; auto).
  assert (Hn : ~ In "v1/ConfigMap/default/legacy"
                    (map manifest.key [risk_examples.fresh;
                                       risk_examples.kept])).
  { vm_compute. intros [H|[H|[]]]; discriminate. }
  split; [exact Ho|]. split; [exact Hn|].
  split; [|vm_compute; reflexivity].
  exact (proj1 (proj2 (proj2 (proj2
           (pair_resources_meets_spec
              [risk_examples.kept; risk_examples.gone;
               risk_examples.kept_edited]
              [risk_examples.fresh; risk_examples.kept]))))
           "v1/ConfigMap/default/legacy" Ho Hn).
Defined.

Lemma removed_resource_is_flagged_witness :
  let rt := risk_examples.rt in
  let old := [risk_examples.gone; risk_examples.kept] in
  let new := [risk_examples.kept; risk_examples.fresh] in
  In "v1/ConfigMap/default/legacy" (map manifest.key old)
  /\ ~ In "v1/ConfigMap/default/legacy" (map manifest.key new)
  /\ (exists p c,
         In p (manifest.pair_resources old new)
         /\ engine.compute_diff p false None = Ok (Some c)
         /\ engine.resource_key c = "v1/ConfigMap/default/legacy"
         /\ engine.status c = manifest.removed
         /\ engine.changes c = []
         /\ (forall crs,
                engine.diff_all (manifest.pair_resources old new) false None
                = Ok crs -> In c crs)
         /\ risk.assess_risk [c] =
            [ (c, [ risk.mkAnnotation risk.WARNING "resource_deleted"
                      (engine.kind c ++ "/" ++ engine.name c
                         ++ " will be removed")
                      EmptyString ]) ])
  /\ cli.analyse old new false [] =
     Ok (cli.mkAnalysis
           [ (risk_examples.gone_record,
              [ risk.mkAnnotation risk.WARNING "resource_deleted"
                  "ConfigMap/legacy will be removed" EmptyString ]);
             (engine.mkChangeRecord "v1/Secret/default/token" "Secret"
                "token" "default" manifest.added [],
              []) ]
           1).
Proof.
  cbv zeta.
  assert (Ho : In "v1/ConfigMap/default/legacy"
                  (map manifest.key [risk_examples.gone;
                                     risk_examples.kept]))
    by (vm_compute; auto).
  assert (Hn : ~ In "v1/ConfigMap/default/legacy"
                    (map manifest.key [risk_examples.kept;
                                       risk_examples.fresh])).
  { vm_compute. intros [H|[H|[]]]; discriminate. }
  split; [exact Ho|]. split; [exact Hn|].
  split; [|vm_compute; reflexivity].
  exact (proj1 (@removed_resource_is_flagged risk_examples.rt)
           [risk_examples.gone; risk_examples.kept]
           [risk_examples.kept; risk_examples.fresh]
           "v1/ConfigMap/default/legacy" false None Ho Hn).
Defined.

(** ** Path conversion *)


Lemma all_chars_app (p : ascii -> bool) (s t : string) :
  all_chars p (s ++ t) = all_chars p s && all_chars p t.
Proof.
  induction s as [|c s IH]; [reflexivity|].
  simpl. rewrite IH. now rewrite andb_assoc.
Qed.

Lemma uint_digits (d : Decimal.uint) :
  all_chars is_digit (NilEmpty.string_of_uint d) = true.
Proof. induction d; simpl; auto. Qed.

Lemma digits_of_digits (n : Z) : all_chars is_digit (reference.digits_of n) = true.
Proof.
  unfold reference.digits_of, NilZero.string_of_uint.
  destruct (N.to_uint (Z.to_N n)); try reflexivity; apply uint_digits.
Qed.

Lemma digits_no_bracket (s : string) :
  all_chars is_digit s = true -> has_char "]"%char s = false.
Proof.
  induction s as [|c s IH]; [reflexivity|].
  cbn [all_chars has_char]. intros H.
  apply andb_true_iff in H. destruct H as [Hc Hs].
  rewrite (IH Hs), orb_false_r.
  destruct (Ascii.eqb_spec "]"%char c) as [<-|]; [discriminate|reflexivity].
Qed.

Lemma digits_no_quote (s : string) :
  all_chars is_digit s = true -> engine.starts_with_quote s = false.
Proof.
  destruct s as [|c s]; [reflexivity|].
  cbn [all_chars engine.starts_with_quote]. intros H.
  apply andb_true_iff in H. destruct H as [Hc _].
  unfold engine.is_quote.
  destruct (Ascii.eqb_spec c engine.quote) as [->|]; [discriminate|].
  destruct (Ascii.eqb_spec c engine.dquote) as [->|]; [discriminate|].
  reflexivity.
Qed.

Lemma append_assoc (a b c : string) : (a ++ b) ++ c = a ++ b ++ c.
Proof. induction a as [|x a IH]; simpl; [reflexivity|now rewrite IH]. Qed.

Lemma append_nil_r (a : string) : a ++ EmptyString = a.
Proof. induction a as [|x a IH]; simpl; [reflexivity|now rewrite IH]. Qed.

Lemma has_char_app (c : ascii) (s t : string) :
  has_char c (s ++ t) = has_char c s || has_char c t.
Proof.
  induction s as [|d s IH]; [reflexivity|].
  simpl. rewrite IH. now rewrite orb_assoc.
Qed.

(** Inside a bracket the scanner collects everything up to the first
    closing bracket. *)
Lemma scan_path_inside (inner rest result acc : string) :
  has_char "]"%char inner = false ->
  engine.scan_path result (Some acc) (inner ++ String "]"%char rest) =
  engine.scan_path (engine.add_segment result (acc ++ inner)) None rest.
Proof.
  revert acc. induction inner as [|c inner IH]; intros acc H.
  - simpl. now rewrite append_nil_r.
  - cbn [has_char] in H. apply orb_false_iff in H. destruct H as [Hc Hin].
    cbn [append engine.scan_path].
    rewrite (Ascii.eqb_sym c "]"%char), Hc.
    rewrite (IH _ Hin), append_assoc. reflexivity.
Qed.

Lemma scan_path_segment (inner rest result : string) :
  has_char "]"%char inner = false ->
  engine.scan_path result None (String "["%char (inner ++ String "]"%char rest)) =
  engine.scan_path (engine.add_segment result inner) None rest.
Proof.
  intros H. cbn [engine.scan_path Ascii.eqb Bool.eqb].
  now rewrite (scan_path_inside inner rest result EmptyString H).
Qed.

Lemma lstrip_chars_length (p : ascii -> bool) (s : string) :
  (String.length (lstrip_chars p s) <= String.length s)%nat.
Proof.
  induction s as [|c s IH]; simpl; [lia|].
  destruct (p c); simpl; lia.
Qed.

Lemma lstrip_chars_head (p : ascii -> bool) (k t : string) :
  k <> EmptyString -> lstrip_chars p k = k ->
  lstrip_chars p (k ++ t) = k ++ t.
Proof.
  destruct k as [|c k]; [congruence|]. intros _. simpl.
  destruct (p c); [|reflexivity].
  intros H. pose proof (lstrip_chars_length p k) as Hl.
  rewrite H in Hl. simpl in Hl. lia.
Qed.

Lemma rstrip_chars_cons (p : ascii -> bool) (c : ascii) (s : string) :
  rstrip_chars p (String c s) =
  match rstrip_chars p s with
  | EmptyString => if p c then EmptyString else String c EmptyString
  | String a r => String c (String a r)
  end.
Proof. reflexivity. Qed.

Lemma rstrip_chars_tail (p : ascii -> bool) (k : string) (q : ascii) :
  p q = true -> k <> EmptyString -> rstrip_chars p k = k ->
  rstrip_chars p (k ++ String q EmptyString) = k.
Proof.
  intros Hq. induction k as [|c k IH]; [congruence|].
  intros _ H. rewrite rstrip_chars_cons in H.
  change (String c k ++ String q EmptyString)
    with (String c (k ++ String q EmptyString)).
  rewrite rstrip_chars_cons.
  destruct k as [|d k].
  - change (EmptyString ++ String q EmptyString) with (String q EmptyString).
    rewrite rstrip_chars_cons. cbn [rstrip_chars] in *. rewrite Hq.
    exact H.
  - assert (Hk : rstrip_chars p (String d k) = String d k).
    { destruct (rstrip_chars p (String d k)) as [|a r].
      - destruct (p c); discriminate.
      - now inversion H. }
    rewrite (IH ltac:(discriminate) Hk). reflexivity.
Qed.

Lemma add_segment_key (result k : string) :
  plain_key k ->
  engine.add_segment result
    (String (if has_char engine.quote k then engine.dquote else engine.quote)
            (k ++ String (if has_char engine.quote k
                          then engine.dquote else engine.quote) EmptyString)) =
  match result with
  | EmptyString => k
  | _ => result ++ "." ++ k
  end.
Proof.
  intros [Hne [_ [Hl Hr]]]. unfold engine.add_segment.
  set (q := if has_char engine.quote k then engine.dquote else engine.quote).
  assert (Hq : engine.is_quote q = true) by (subst q; destruct (has_char _ k); reflexivity).
  cbn [engine.starts_with_quote]. rewrite Hq.
  unfold strip_chars. cbn [lstrip_chars]. rewrite Hq.
  rewrite (lstrip_chars_head _ k _ Hne Hl).
  rewrite (rstrip_chars_tail _ k q Hq Hne Hr). reflexivity.
Qed.

Lemma add_segment_index (result : string) (i : nat) :
  engine.add_segment result (reference.digits_of (Z.of_nat i)) =
  result ++ reference.index_segment i.
Proof.
  unfold engine.add_segment.
  rewrite (digits_no_quote _ (digits_of_digits _)). reflexivity.
Qed.

Lemma key_segment_shape (k rest : string) :
  reference.key_segment k ++ rest =
  String "["%char
    (String (if has_char engine.quote k then engine.dquote else engine.quote)
            (k ++ String (if has_char engine.quote k
                          then engine.dquote else engine.quote) EmptyString)
       ++ String "]"%char rest).
Proof.
  unfold reference.key_segment. cbn [append]. f_equal. f_equal.
  rewrite !append_assoc. reflexivity.
Qed.

Lemma index_segment_shape (i : nat) (rest : string) :
  reference.index_segment i ++ rest =
  String "["%char (reference.digits_of (Z.of_nat i) ++ String "]"%char rest).
Proof.
  unfold reference.index_segment. cbn [append]. f_equal.
  rewrite append_assoc. reflexivity.
Qed.

Lemma key_inner_no_bracket (k : string) :
  has_char "]"%char k = false ->
  has_char "]"%char
    (String (if has_char engine.quote k then engine.dquote else engine.quote)
            (k ++ String (if has_char engine.quote k
                          then engine.dquote else engine.quote) EmptyString))
  = false.
Proof.
  intros H. cbn [has_char]. rewrite has_char_app, H. cbn [has_char].
  destruct (has_char engine.quote k); reflexivity.
Qed.

Lemma append_not_empty (a b : string) :
  b <> EmptyString -> a ++ b <> EmptyString.
Proof. destruct a, b; simpl; congruence. Qed.

Lemma index_segment_not_empty (i : nat) :
  reference.index_segment i <> EmptyString.
Proof. unfold reference.index_segment. discriminate. Qed.

Lemma scan_path_segments (segs : list segment) :
  forall result,
    Forall plain_segment segs -> result <> EmptyString ->
    engine.scan_path result None (join_empty (map segment_text segs)) =
    Ok (result ++ dot_tail segs).
Proof.
  induction segs as [|seg segs IH]; intros result Hall Hne.
  - simpl. now rewrite append_nil_r.
  - inversion Hall as [|? ? Hseg Hrest]; subst.
    cbn [map join_empty fold_right].
    fold (join_empty (map segment_text segs)).
    destruct seg as [k|i]; cbn [segment_text dot_tail].
    + pose proof Hseg as Hplain. destruct Hseg as [Hk [Hb _]].
      rewrite key_segment_shape.
      rewrite scan_path_segment by (now apply key_inner_no_bracket).
      rewrite (add_segment_key result k Hplain).
      destruct result as [|c result]; [congruence|].
      rewrite IH; [|assumption|discriminate].
      now rewrite !append_assoc.
    + rewrite index_segment_shape.
      rewrite scan_path_segment
        by (apply digits_no_bracket, digits_of_digits).
      rewrite add_segment_index.
      rewrite IH;
        [|assumption|apply append_not_empty, index_segment_not_empty].
      now rewrite append_assoc.
Qed.

(** On paths whose keys are plain, the conversion follows the grammar
    of the specification. *)
Lemma path_grammar_on_plain_keys (segs : list segment) :
  Forall plain_segment segs ->
  engine._deepdiff_path_to_dot (deepdiff_path segs) = Ok (dot_path segs).
Proof.
  intros Hall. unfold engine._deepdiff_path_to_dot, deepdiff_path.
  assert (Hroot : forall x, replace_first "root" EmptyString ("root" ++ x) = x).
  { intros x. cbn [append replace_first].
    replace (String.prefix "root"
               (String "r" (String "o" (String "o" (String "t" x)))))
      with true by (destruct x; reflexivity).
    reflexivity. }
  rewrite Hroot.
  destruct segs as [|seg segs]; [reflexivity|].
  inversion Hall as [|? ? Hseg Hrest]; subst.
  cbn [map join_empty fold_right].
  fold (join_empty (map segment_text segs)).
  destruct seg as [k|i]; cbn [segment_text dot_path].
  - pose proof Hseg as Hplain. destruct Hseg as [Hk [Hb _]].
    rewrite key_segment_shape.
    rewrite scan_path_segment by (now apply key_inner_no_bracket).
    rewrite (add_segment_key EmptyString k Hplain).
    now apply scan_path_segments.
  - rewrite index_segment_shape.
    rewrite scan_path_segment by (apply digits_no_bracket, digits_of_digits).
    rewrite add_segment_index. cbn [append].
    apply scan_path_segments; [assumption|apply index_segment_not_empty].
Qed.

Lemma path_grammar_on_plain_keys_witness :
  Forall plain_segment path_examples.image_path
  /\ deepdiff_path path_examples.image_path =
     "root['spec']['template']['spec']['containers'][0]['image']"
  /\ engine._deepdiff_path_to_dot (deepdiff_path path_examples.image_path) =
     Ok "spec.template.spec.containers[0].image".
Proof.
  assert (H : Forall plain_segment path_examples.image_path).
  { repeat constructor; discriminate. }
  split; [exact H|]. split; [reflexivity|].
  exact (path_grammar_on_plain_keys path_examples.image_path H).
Defined.

(** C8. The path of the change at key [image] of element 0 of the list
    at [spec.template.spec.containers] renders as
    [spec.template.spec.containers[0].image].  The grammar is not kept
    for every path: a key is cut at its first closing bracket.  The
    DeepDiff path of the key [servers[0].host] under [spec.properties]
    renders as [spec.properties.servers[0] without the closing bracket
    and the rest of the key, where the grammar gives
    [spec.properties.servers[0].host]; and the changes under the keys
    [servers[0].host] and [servers[0].port] are reported under one and
    the same path. *)
Theorem path_conversion_cuts_keys_at_bracket :
  let rt := path_examples.rt in
  engine._deepdiff_path_to_dot
    "root['spec']['template']['spec']['containers'][0]['image']"
  = Ok "spec.template.spec.containers[0].image"
  /\ deepdiff_path path_examples.host_path
     = "root['spec']['properties']['servers[0].host']"
  /\ dot_path path_examples.host_path = "spec.properties.servers[0].host"
  /\ engine._deepdiff_path_to_dot (deepdiff_path path_examples.host_path)
     = Ok "spec.properties.servers[0"
  /\ engine.compute_diff
       (manifest.mkPair (Some path_examples.before)
                        (Some path_examples.after) manifest.changed)
       false None
     = Ok (Some (engine.mkChangeRecord
                   "example.com/v1/AppConfig/default/backend"
                   "AppConfig" "backend" "default" manifest.changed
                   [ engine.mkFieldChange "spec.properties.servers[0"
                       (VStr "db-1") (VStr "db-2") "value_changed";
                     engine.mkFieldChange "spec.properties.servers[0"
                       (VStr "5432") (VStr "5433") "value_changed" ])).
Proof. vm_compute. repeat split; reflexivity. Qed.

Lemma compute_diff_semantic_gate_witness :
  let rt := noise_only.rt in
  let pair := manifest.mkPair (Some noise_only.live) (Some noise_only.upgrade)
                              manifest.changed in
  is_semantically_equal
    (normalize_body (strip_noise (VDict (manifest.body noise_only.live)) None))
    (normalize_body (strip_noise (VDict (manifest.body noise_only.upgrade)) None))
  = true
  /\ engine.compute_diff pair false None = Ok None.
Proof.
  cbv zeta.
  assert (H : is_semantically_equal
                (@normalize_body noise_only.rt
                   (@strip_noise noise_only.rt
                      (VDict (manifest.body noise_only.live)) None))
                (@normalize_body noise_only.rt
                   (@strip_noise noise_only.rt
                      (VDict (manifest.body noise_only.upgrade)) None))
              = true)
    by (vm_compute; reflexivity).
  split; [exact H|].
  exact (@compute_diff_semantic_gate noise_only.rt
           (manifest.mkPair (Some noise_only.live) (Some noise_only.upgrade)
                            manifest.changed)
           noise_only.live noise_only.upgrade None
           eq_refl eq_refl eq_refl H).
Defined.

(** ** Noise stripping does not depend on the order of the paths *)

Section StripFacts.
Context {rt : Runtime}.

Lemma filter_key_absent {A : Type} (key : string) (d : list (string * A)) :
  dict_has key d = false ->
  filter (fun kv => negb (String.eqb key (fst kv))) d = d.
Proof.
  unfold dict_has. induction d as [|[k v] d IH]; [reflexivity|].
  simpl. destruct (String.eqb key k); [discriminate|].
  intros H. simpl. now rewrite IH.
Qed.

Lemma remove_leaf (d : pydict) (key : string) :
  _remove_path_parts (VDict d) [key] =
  VDict (filter (fun kv => leaf_keeps key (fst kv)) d).
Proof.
  cbn [_remove_path_parts]. unfold leaf_keeps.
  destruct (is_glob key); [reflexivity|].
  destruct (dict_has key d) eqn:E; [reflexivity|].
  now rewrite filter_key_absent.
Qed.

Lemma remove_descend (d : pydict) (key k2 : string) (rest : list string) :
  _remove_path_parts (VDict d) (key :: k2 :: rest) =
  VDict (descend key (fun v => _remove_path_parts v (k2 :: rest)) d).
Proof.
  cbn [_remove_path_parts]. unfold descend.
  destruct (dict_get key d) as [[|?|?|?|?|?|sub]|]; reflexivity.
Qed.

Lemma remove_not_dict (v : value) (parts : list string) :
  (forall d, v <> VDict d) -> _remove_path_parts v parts = v.
Proof.
  intros H. destruct parts; [destruct v; reflexivity|].
  destruct v; try reflexivity. exfalso. eapply H. reflexivity.
Qed.

Lemma remove_keeps_dict (d : pydict) (parts : list string) :
  exists d', _remove_path_parts (VDict d) parts = VDict d'.
Proof.
  destruct parts as [|key [|k2 rest]].
  - eexists. reflexivity.
  - rewrite remove_leaf. eauto.
  - rewrite remove_descend. eauto.
Qed.

Lemma dict_get_filter_keys {A : Type} (p : string -> bool) (k : string)
      (d : list (string * A)) :
  dict_get k (filter (fun kv => p (fst kv)) d) =
  if p k then dict_get k d else None.
Proof.
  induction d as [|[k' v] d IH]; simpl; [now destruct (p k)|].
  destruct (p k') eqn:Ek'; simpl.
  - destruct (String.eqb_spec k k') as [->|Hne].
    + now rewrite Ek'.
    + exact IH.
  - destruct (String.eqb_spec k k') as [->|Hne].
    + rewrite Ek' in *. exact IH.
    + exact IH.
Qed.

Lemma filter_dict_set_present {A : Type} (p : string -> bool) (k : string)
      (x : A) (d : list (string * A)) :
  dict_has k d = true ->
  filter (fun kv => p (fst kv)) (dict_set k x d) =
  if p k then dict_set k x (filter (fun kv => p (fst kv)) d)
  else filter (fun kv => p (fst kv)) d.
Proof.
  unfold dict_has. induction d as [|[k' v] d IH]; simpl; [discriminate|].
  destruct (String.eqb_spec k k') as [->|Hne]; intros H; simpl.
  - destruct (p k') eqn:Ek'; simpl; [|reflexivity].
    now rewrite String.eqb_refl.
  - rewrite (IH H). destruct (p k') eqn:Ek', (p k) eqn:Ek; simpl;
      try reflexivity.
    destruct (String.eqb_spec k k'); [contradiction|reflexivity].
Qed.

Lemma dict_has_get {A : Type} (k : string) (d : list (string * A)) (v : A) :
  dict_get k d = Some v -> dict_has k d = true.
Proof. unfold dict_has. now intros ->. Qed.

Lemma descend_filter (p : string -> bool) (key : string)
      (f : value -> value) (d : pydict) :
  filter (fun kv => p (fst kv)) (descend key f d) =
  descend key f (filter (fun kv => p (fst kv)) d).
Proof.
  unfold descend. rewrite dict_get_filter_keys.
  destruct (dict_get key d) as [[|?|?|?|?|?|sub]|] eqn:E;
    try (destruct (p key); reflexivity).
  rewrite (filter_dict_set_present p key _ d (dict_has_get _ _ _ E)).
  destruct (p key); reflexivity.
Qed.

Lemma filter_filter_comm {A : Type} (p q : A -> bool) (l : list A) :
  filter p (filter q l) = filter q (filter p l).
Proof.
  rewrite !filter_filter_and. apply filter_ext_pred.
  intros x. apply andb_comm.
Qed.

Lemma dict_set_twice {A : Type} (k : string) (x y : A)
      (d : list (string * A)) :
  dict_set k x (dict_set k y d) = dict_set k x d.
Proof.
  induction d as [|[k' v] d IH]; simpl.
  - now rewrite String.eqb_refl.
  - destruct (String.eqb k k') eqn:E; simpl; rewrite E; [reflexivity|].
    now rewrite IH.
Qed.

Lemma dict_set_comm {A : Type} (k k' : string) (x y : A)
      (d : list (string * A)) :
  k <> k' -> dict_has k d = true -> dict_has k' d = true ->
  dict_set k x (dict_set k' y d) = dict_set k' y (dict_set k x d).
Proof.
  intros Hne. unfold dict_has.
  induction d as [|[k0 v] d IH]; simpl; [discriminate|].
  destruct (String.eqb_spec k k0) as [->|H0];
    destruct (String.eqb_spec k' k0) as [->|H0']; intros Hk Hk'; simpl.
  - congruence.
  - rewrite String.eqb_refl.
    destruct (String.eqb_spec k' k0); [contradiction|reflexivity].
  - rewrite String.eqb_refl.
    destruct (String.eqb_spec k k0); [contradiction|reflexivity].
  - destruct (String.eqb_spec k k0); [contradiction|].
    destruct (String.eqb_spec k' k0); [contradiction|].
    now rewrite (IH Hk Hk').
Qed.

Lemma descend_descend (k k' : string) (f g : value -> value) (d : pydict) :
  (forall s, exists s', f (VDict s) = VDict s') ->
  (forall s, exists s', g (VDict s) = VDict s') ->
  (k = k' -> forall s, f (g (VDict s)) = g (f (VDict s))) ->
  descend k f (descend k' g d) = descend k' g (descend k f d).
Proof.
  intros Hf Hg Hfg. unfold descend.
  destruct (String.eqb_spec k k') as [<-|Hne].
  - destruct (dict_get k d) as [[|?|?|?|?|?|sub]|] eqn:E;
      rewrite ?E; try reflexivity.
    rewrite !dict_get_set, String.eqb_refl.
    destruct (Hf sub) as [sf Ef], (Hg sub) as [sg Eg].
    rewrite Ef, Eg, !dict_set_twice.
    rewrite <- Ef, <- Eg. now rewrite (Hfg eq_refl sub).
  - destruct (dict_get k d) as [[|?|?|?|?|?|sub]|] eqn:E;
      destruct (dict_get k' d) as [[|?|?|?|?|?|sub']|] eqn:E';
      rewrite ?E, ?E'; try reflexivity;
      rewrite ?dict_get_set;
      try (destruct (String.eqb_spec k k'); [contradiction|]);
      try (destruct (String.eqb_spec k' k); [congruence|]);
      rewrite ?E, ?E'; try reflexivity.
    apply dict_set_comm;
      [assumption|eapply dict_has_get; eassumption
      |eapply dict_has_get; eassumption].
Qed.

(** Removing two paths gives the same body in either order. *)
Lemma remove_parts_comm (ps : list string) :
  forall (qs : list string) (v : value),
    _remove_path_parts (_remove_path_parts v ps) qs =
    _remove_path_parts (_remove_path_parts v qs) ps.
Proof.
  induction ps as [|p ps IH]; intros qs v.
  - destruct v; destruct qs; reflexivity.
  - destruct v as [|?|?|?|?|?|d];
      try (destruct qs; reflexivity).
    destruct qs as [|q qs]; [reflexivity|].
    destruct ps as [|p2 ps], qs as [|q2 qs].
    + repeat rewrite remove_leaf. f_equal.
      apply (filter_filter_comm (fun kv => leaf_keeps q (fst kv))
                                (fun kv => leaf_keeps p (fst kv))).
    + repeat (rewrite remove_leaf || rewrite remove_descend). f_equal.
      symmetry. apply (descend_filter (leaf_keeps p)).
    + repeat (rewrite remove_leaf || rewrite remove_descend). f_equal.
      apply (descend_filter (leaf_keeps q)).
    + repeat rewrite remove_descend. f_equal.
      apply descend_descend.
      * intros s. apply remove_keeps_dict.
      * intros s. apply remove_keeps_dict.
      * intros _ s. apply IH.
Qed.

Lemma remove_path_comm (v : value) (p q : string) :
  _remove_path (_remove_path v p) q = _remove_path (_remove_path v q) p.
Proof. unfold _remove_path. apply remove_parts_comm. Qed.
End StripFacts.

Section StripOrder.
Context {rt : Runtime}.

Lemma filter_twice {A : Type} (p : A -> bool) (l : list A) :
  filter p (filter p l) = filter p l.
Proof.
  rewrite filter_filter_and. apply filter_ext_pred.
  intros x. now destruct (p x).
Qed.

Lemma descend_twice (key : string) (f : value -> value) (d : pydict) :
  (forall s, exists s', f (VDict s) = VDict s') ->
  (forall s, f (f (VDict s)) = f (VDict s)) ->
  descend key f (descend key f d) = descend key f d.
Proof.
  intros Hf Hff. unfold descend.
  destruct (dict_get key d) as [[|?|?|?|?|?|sub]|] eqn:E;
    rewrite ?E; try reflexivity.
  rewrite dict_get_set, String.eqb_refl.
  destruct (Hf sub) as [sf Ef]. rewrite Ef, dict_set_twice.
  rewrite <- Ef. now rewrite Hff.
Qed.

(** Removing a path twice is removing it once. *)
Lemma remove_parts_twice (ps : list string) :
  forall v, _remove_path_parts (_remove_path_parts v ps) ps =
            _remove_path_parts v ps.
Proof.
  induction ps as [|p ps IH]; intros v.
  - destruct v; reflexivity.
  - destruct v as [|?|?|?|?|?|d]; try reflexivity.
    destruct ps as [|p2 ps].
    + repeat rewrite remove_leaf. f_equal. apply filter_twice.
    + repeat rewrite remove_descend. f_equal.
      apply descend_twice.
      * intros s. apply remove_keeps_dict.
      * intros s. apply IH.
Qed.

Lemma fold_remove_absorb (l : list string) :
  forall (p : string) (v : value),
    In p l ->
    fold_left _remove_path l (_remove_path v p) = fold_left _remove_path l v.
Proof.
  induction l as [|x l IH]; intros p v Hin; [destruct Hin|].
  cbn [fold_left]. destruct Hin as [->|Hin].
  - unfold _remove_path at 2 3. now rewrite remove_parts_twice.
  - rewrite remove_path_comm. now apply IH.
Qed.

Lemma fold_remove_permutation (l l' : list string) :
  Permutation l l' ->
  forall v, fold_left _remove_path l v = fold_left _remove_path l' v.
Proof.
  induction 1 as [|x l l' _ IH|x y l|l l' l'' _ IH1 _ IH2]; intros v.
  - reflexivity.
  - cbn [fold_left]. apply IH.
  - cbn [fold_left]. now rewrite remove_path_comm.
  - now rewrite IH1.
Qed.

Lemma fold_remove_nodup (l : list string) :
  forall v, fold_left _remove_path (nodup string_dec l) v =
            fold_left _remove_path l v.
Proof.
  induction l as [|x l IH]; intros v; [reflexivity|].
  cbn [nodup fold_left]. destruct (in_dec string_dec x l) as [Hin|Hnin].
  - rewrite IH. symmetry. now apply fold_remove_absorb.
  - cbn [fold_left]. apply IH.
Qed.

(** The body [strip_noise] returns is the same for every order in which
    the set of paths is visited, and for every repetition in it. *)
Lemma strip_noise_any_order (body : value)
      (extra_ignores : option (list string)) (visited : list string) :
  (forall p, In p visited <-> In p (NOISE_PATHS ++ or_empty extra_ignores)%list) ->
  fold_left _remove_path visited body = strip_noise body extra_ignores.
Proof.
  intros Hsame. unfold strip_noise.
  rewrite <- (fold_remove_nodup visited).
  rewrite <- (fold_remove_nodup (NOISE_PATHS ++ or_empty extra_ignores)%list).
  apply fold_remove_permutation.
  apply NoDup_Permutation; try apply NoDup_nodup.
  intros p. rewrite !nodup_In. apply Hsame.
Qed.
End StripOrder.

(** ** Further properties of the comparator *)

Lemma nan_free_list_in (x : value) (l : list value) :
  nan_free (VList l) -> In x l -> nan_free x.
Proof.
  induction l as [|y l IH]; simpl; intros H Hin; [contradiction|].
  destruct H as [Hy Hl]. destruct Hin as [->|Hin]; [exact Hy|].
  apply IH; assumption.
Qed.

Lemma nan_free_dict_in (k : string) (x : value) (d : pydict) :
  nan_free (VDict d) -> In (k, x) d -> nan_free x.
Proof.
  induction d as [|[k' y] d IH]; simpl; intros H Hin; [contradiction|].
  destruct H as [Hy Hd]. destruct Hin as [Heq|Hin].
  - inversion Heq; subst. exact Hy.
  - apply IH; assumption.
Qed.

Lemma SFeqb_refl (f : spec_float) : f <> S754_nan -> SFeqb f f = true.
Proof.
  intros Hf. unfold SFeqb, SFcompare.
  destruct f as [s|s| |s m e]; try (destruct s; reflexivity).
  - contradiction Hf; reflexivity.
  - destruct s; rewrite Z.compare_refl, Pos.compare_refl; reflexivity.
Qed.

Lemma py_eq_refl (v : value) : wf_value v -> nan_free v -> py_eq v v = true.
Proof.
  induction v as [v IH] using value_height_ind.
  intros Hwf Hnf.
  destruct v as [|b|z|f|s|l|d].
  - reflexivity.
  - simpl. destruct b; reflexivity.
  - simpl. apply Z.eqb_refl.
  - simpl. apply SFeqb_refl. intros ->. exact Hnf.
  - simpl. apply String.eqb_refl.
  - rewrite py_eq_VList, Nat.eqb_refl. simpl.
    apply forallb_forall. intros [x y] Hin.
    assert (Hxy : x = y /\ In x l).
    { clear -Hin. induction l as [|a l IHl]; simpl in Hin; [contradiction|].
      destruct Hin as [Heq|Hin].
      - inversion Heq; subst. split; [reflexivity|left; reflexivity].
      - destruct (IHl Hin) as [-> Hi]. split; [reflexivity|right; exact Hi]. }
    destruct Hxy as [<- Hx]. simpl.
    apply IH.
    + apply height_list_in; exact Hx.
    + exact (wf_list_in x l Hwf Hx).
    + exact (nan_free_list_in x l Hnf Hx).
  - rewrite py_eq_VDict, Nat.eqb_refl. simpl.
    apply forallb_forall. intros [k x] Hin. unfold item_in. simpl.
    rewrite (dict_get_nodup k d x (wf_dict_nodup d Hwf) Hin).
    apply IH.
    + exact (height_dict_in k x d Hin).
    + exact (wf_dict_in k x d Hwf Hin).
    + exact (nan_free_dict_in k x d Hnf Hin).
Qed.
Lemma deep_fuel_equal (n : nat) (a b : value) :
  py_eq a b = true -> deep_fuel (S n) a b = Some true.
Proof. intros H. simpl. rewrite H. reflexivity. Qed.

(** X5.  A string and a boolean are semantically equal exactly when the
    lower-cased string is one of the four words of [_BOOL_MAP] and the
    word stands for that boolean: [true] and [yes] for [True], [false]
    and [no] for [False], in any letter case.  Numeric strings such as
    ["1"] and ["0"] never equal a boolean, although [True == 1] in
    Python, and the order of the two arguments does not matter. *)
Theorem semantic_string_bool_coercion (s : string) (b : bool) :
  is_semantically_equal (VStr s) (VBool b) =
    match dict_get (lower s) _BOOL_MAP with
    | Some c => Bool.eqb c b
    | None => false
    end
  /\ is_semantically_equal (VBool b) (VStr s) =
     is_semantically_equal (VStr s) (VBool b)
  /\ (is_semantically_equal (VStr s) (VBool b) = true <->
      (b = true /\ (lower s = "true" \/ lower s = "yes")) \/
      (b = false /\ (lower s = "false" \/ lower s = "no")))
  /\ is_semantically_equal (VStr "YES") (VBool true) = true
  /\ is_semantically_equal (VStr "1") (VBool true) = false
  /\ is_semantically_equal (VInt 1) (VBool true) = true
  /\ is_semantically_equal (VStr "on") (VBool true) = false.
Proof.
  assert (E1 : is_semantically_equal (VStr s) (VBool b) =
               match dict_get (lower s) _BOOL_MAP with
               | Some c => Bool.eqb c b
               | None => false
               end).
  { unfold is_semantically_equal, _deep_semantic_equal. simpl.
    destruct (py_int s); [|destruct (py_float s)];
      destruct (String.eqb (lower s) "true");
      try destruct (String.eqb (lower s) "false");
      try destruct (String.eqb (lower s) "yes");
      try destruct (String.eqb (lower s) "no"); reflexivity. }
  assert (E2 : is_semantically_equal (VBool b) (VStr s) =
               match dict_get (lower s) _BOOL_MAP with
               | Some c => Bool.eqb c b
               | None => false
               end).
  { unfold is_semantically_equal, _deep_semantic_equal. simpl.
    destruct (String.eqb (lower s) "true");
      try destruct (String.eqb (lower s) "false");
      try destruct (String.eqb (lower s) "yes");
      try destruct (String.eqb (lower s) "no"); destruct b; reflexivity. }
  split; [exact E1|]. split; [rewrite E1, E2; reflexivity|].
  split; [|repeat split; reflexivity].
  rewrite E1. simpl.
  destruct (String.eqb_spec (lower s) "true") as [Ht|Ht].
  { destruct b; simpl; split; intros H; try discriminate; auto.
    destruct H as [[H _]|[_ [H|H]]]; try discriminate;
      rewrite Ht in H; discriminate. }
  destruct (String.eqb_spec (lower s) "false") as [Hf|Hf].
  { destruct b; simpl; split; intros H; try discriminate; auto.
    destruct H as [[_ [H|H]]|[H _]]; try discriminate;
      rewrite Hf in H; discriminate. }
  destruct (String.eqb_spec (lower s) "yes") as [Hy|Hy].
  { destruct b; simpl; split; intros H; try discriminate; auto.
    destruct H as [[H _]|[_ [H|H]]]; try discriminate;
      rewrite Hy in H; discriminate. }
  destruct (String.eqb_spec (lower s) "no") as [Hn|Hn].
  { destruct b; simpl; split; intros H; try discriminate; auto.
    destruct H as [[_ [H|H]]|[H _]]; try discriminate;
      rewrite Hn in H; discriminate. }
  split; [discriminate|].
  intros [[_ [H|H]]|[_ [H|H]]]; contradiction.
Qed.
(** X6.  Two strings are semantically equal exactly when they are the
    same text, or both read as numbers ([int], else [float]) and the
    numbers are equal, or one of them is not a number and both are
    boolean words for the same boolean.  So a change between two
    spellings of one number, such as an image tag going from ["1.10"]
    to ["1.1"], or between ["yes"] and ["true"], counts as no
    change. *)
Theorem semantic_string_string (s t : string) :
  (is_semantically_equal (VStr s) (VStr t) = true <->
   s = t
   \/ (exists x y, _coerce_numeric (VStr s) = Some x
                   /\ _coerce_numeric (VStr t) = Some y
                   /\ num_eqb x y = true)
   \/ ((_coerce_numeric (VStr s) = None \/ _coerce_numeric (VStr t) = None)
       /\ exists c, dict_get (lower s) _BOOL_MAP = Some c
                    /\ dict_get (lower t) _BOOL_MAP = Some c))
  /\ is_semantically_equal (VStr "1.10") (VStr "1.1") = true
  /\ is_semantically_equal (VStr "0x10") (VStr "16") = false
  /\ is_semantically_equal (VStr "yes") (VStr "True") = true
  /\ is_semantically_equal (VStr "v1.10") (VStr "v1.1") = false.
Proof.
  split; [|repeat split; vm_compute; reflexivity].
  unfold is_semantically_equal, _deep_semantic_equal.
  cbn [height Nat.add deep_fuel py_eq is_none andb].
  destruct (String.eqb_spec s t) as [Hst|Hst].
  { split; [left; exact Hst|reflexivity]. }
  destruct (_coerce_numeric (VStr s)) as [x|] eqn:Hs.
  - destruct (_coerce_numeric (VStr t)) as [y|] eqn:Ht.
    + split.
      * intros H. right; left. exists x, y.
        auto.
      * intros [H|[(x' & y' & Hx & Hy & H)|[[H|H] _]]];
          try contradiction; try discriminate.
        injection Hx as <-. injection Hy as <-. rewrite H. reflexivity.
    + cbn [_coerce_bool].
      destruct (dict_get (lower s) _BOOL_MAP) as [c|] eqn:Hc;
        [destruct (dict_get (lower t) _BOOL_MAP) as [c'|] eqn:Hc'|].
      * split.
        -- intros H. apply Bool.eqb_prop in H. subst c'.
           right; right. split; [right; reflexivity|]. exists c. auto.
        -- intros [H|[(x' & y' & _ & Hy & _)|[_ (c0 & H1 & H2)]]];
             try contradiction; try discriminate.
           injection H1 as <-. injection H2 as <-.
           rewrite Bool.eqb_reflx. reflexivity.
      * split; [discriminate|].
        intros [H|[(x' & y' & _ & Hy & _)|[_ (c0 & _ & H2)]]];
          try contradiction; discriminate.
      * split; [discriminate|].
        intros [H|[(x' & y' & _ & Hy & _)|[_ (c0 & H1 & _)]]];
          try contradiction; discriminate.
  - cbn [_coerce_bool].
    destruct (dict_get (lower s) _BOOL_MAP) as [c|] eqn:Hc;
      [destruct (dict_get (lower t) _BOOL_MAP) as [c'|] eqn:Hc'|].
    + split.
      * intros H. apply Bool.eqb_prop in H. subst c'.
        right; right. split; [left; reflexivity|]. exists c. auto.
      * intros [H|[(x' & y' & Hx & _ & _)|[_ (c0 & H1 & H2)]]];
          try contradiction; try discriminate.
        injection H1 as <-. injection H2 as <-.
        rewrite Bool.eqb_reflx. reflexivity.
    + split; [discriminate|].
      intros [H|[(x' & y' & Hx & _ & _)|[_ (c0 & _ & H2)]]];
        try contradiction; discriminate.
    + split; [discriminate|].
      intros [H|[(x' & y' & Hx & _ & _)|[_ (c0 & H1 & _)]]];
        try contradiction; discriminate.
Qed.
Lemma nan_free_get_or_none (k : string) (d : pydict) :
  nan_free (VDict d) -> nan_free (get_or_none k d).
Proof.
  intros H. unfold get_or_none.
  destruct (dict_get k d) as [v|] eqn:E; [|exact I].
  exact (nan_free_dict_in k v d H (dict_get_in k d v E)).
Qed.

Lemma deep_fuel_dicts (n : nat) (da db : pydict) :
  py_eq (VDict da) (VDict db) = false ->
  deep_fuel (S n) (VDict da) (VDict db) =
  all_opt (fun key => deep_fuel n (get_or_none key da) (get_or_none key db))
          (union_keys da db).
Proof.
  intros H. cbn [deep_fuel]. rewrite H. reflexivity.
Qed.

Lemma same_entries_semantic (da db : pydict) :
  wf_value (VDict da) -> nan_free (VDict da) ->
  (forall key, get_or_none key da = get_or_none key db) ->
  is_semantically_equal (VDict da) (VDict db) = true.
Proof.
  intros Hwf Hnf Hget.
  unfold is_semantically_equal, _deep_semantic_equal.
  destruct (py_eq (VDict da) (VDict db)) eqn:E.
  - rewrite (deep_fuel_equal _ _ _ E). reflexivity.
  - rewrite (deep_fuel_dicts _ _ _ E).
    replace (all_opt _ _) with (Some true); [reflexivity|].
    symmetry. apply all_opt_true. intros key _.
    rewrite <- Hget.
    change (height (VDict da) + height (VDict db))%nat
      with (S (pred (height (VDict da)) + height (VDict db)))%nat.
    apply deep_fuel_equal. apply py_eq_refl.
    + apply wf_get_or_none; exact Hwf.
    + apply nan_free_get_or_none; exact Hnf.
Qed.

(** X7.  Null against missing key: two mappings whose [.get] agree on
    every key (an absent key reads as [None]) are semantically equal,
    whichever side holds the explicit nulls.  The values are those of
    a well-formed mapping without a NaN. *)
Theorem null_entry_equals_missing_key (da db : pydict) :
  wf_value (VDict da) -> nan_free (VDict da) ->
  (forall key, get_or_none key da = get_or_none key db) ->
  is_semantically_equal (VDict da) (VDict db) = true
  /\ is_semantically_equal (VDict db) (VDict da) = true.
Proof.
  intros Hwf Hnf Hget. split.
  - apply same_entries_semantic; assumption.
  - unfold is_semantically_equal, _deep_semantic_equal.
    destruct (py_eq (VDict db) (VDict da)) eqn:E.
    + rewrite (deep_fuel_equal _ _ _ E). reflexivity.
    + rewrite (deep_fuel_dicts _ _ _ E).
      replace (all_opt _ _) with (Some true); [reflexivity|].
      symmetry. apply all_opt_true. intros key _.
      rewrite <- Hget.
      change (height (VDict db) + height (VDict da))%nat
        with (S (pred (height (VDict db)) + height (VDict da)))%nat.
      apply deep_fuel_equal. apply py_eq_refl.
      * apply wf_get_or_none; exact Hwf.
      * apply nan_free_get_or_none; exact Hnf.
Qed.

Lemma null_entry_equals_missing_key_witness :
  let da := [("replicas", VInt 2); ("paused", VNone)] in
  let db := [("nodeName", VNone); ("replicas", VInt 2)] in
  py_eq (VDict da) (VDict db) = false
  /\ is_semantically_equal (VDict da) (VDict db) = true
  /\ is_semantically_equal (VDict db) (VDict da) = true.
Proof.
  split; [reflexivity|].
  apply (null_entry_equals_missing_key
           [("replicas", VInt 2); ("paused", VNone)]
           [("nodeName", VNone); ("replicas", VInt 2)]).
  - simpl. repeat split; try exact I.
    repeat constructor; simpl; intuition discriminate.
  - simpl. repeat split.
  - intros key. unfold get_or_none. simpl.
    destruct (String.eqb_spec key "replicas") as [->|_]; [reflexivity|].
    destruct (String.eqb key "paused"); destruct (String.eqb key "nodeName");
      reflexivity.
Defined.

Section IdentityFacts.
Context {rt : Runtime}.
Import engine risk cli.

Lemma length_filter_none {A : Type} (p : A -> bool) (l : list A) :
  (forall x, In x l -> p x = false) -> filter p l = [].
Proof.
  induction l as [|x l IH]; simpl; intros H; [reflexivity|].
  rewrite (H x (or_introl eq_refl)). apply IH. intros y Hy. apply H. right; exact Hy.
Qed.

Lemma filter_all {A : Type} (p : A -> bool) (l : list A) :
  (forall x, In x l -> p x = true) -> filter p l = l.
Proof.
  induction l as [|x l IH]; simpl; intros H; [reflexivity|].
  rewrite (H x (or_introl eq_refl)). f_equal. apply IH.
  intros y Hy. apply H. right; exact Hy.
Qed.

(** X8.  A snapshot compared with itself: every pair is unchanged, no
    change record is produced, and the unchanged count is the number of
    distinct resource keys.  The bodies are well-formed mappings
    without a NaN (a NaN differs from itself). *)
Theorem same_snapshot_reports_nothing (rs : list Resource)
        (show_all : bool) (ignore_path : list string) :
  (forall r, In r rs ->
             wf_value (VDict (body r)) /\ nan_free (VDict (body r))) ->
  (forall p, In p (pair_resources rs rs) ->
             manifest.status p = unchanged /\ old p = new p)
  /\ analyse rs rs show_all ignore_path =
     Ok (mkAnalysis [] (List.length (first_seen (map key rs)))).
Proof.
  intros Hrs.
  assert (Hp : forall p, In p (pair_resources rs rs) ->
                         manifest.status p = unchanged /\ old p = new p).
  { intros p Hin. rewrite pair_resources_refines in Hin.
    unfold pair_resources_spec in Hin. apply in_map_iff in Hin.
    destruct Hin as (k & <- & Hk). cbn [manifest.status old new].
    split; [|reflexivity].
    apply union_order_In in Hk.
    assert (Hk' : In k (map key rs)) by tauto.
    apply last_with_key_some in Hk'. destruct Hk' as [r Hr].
    rewrite Hr. unfold status_by_presence.
    destruct (last_with_key_key k rs r Hr) as [_ Hin].
    destruct (Hrs r Hin) as [Hwf Hnf].
    rewrite (py_eq_refl _ Hwf Hnf). reflexivity. }
  split; [exact Hp|].
  unfold analyse.
  rewrite diff_all_none.
  - cbn [bind]. unfold assess_risk. cbn [map]. f_equal. f_equal.
    unfold total_unchanged. rewrite filter_all.
    + rewrite pair_resources_refines. unfold pair_resources_spec, union_order.
      rewrite length_map, length_app.
      rewrite length_filter_none; [simpl; lia|].
      intros k Hk. apply (proj1 (first_seen_In _ _)) in Hk.
      apply (proj2 (mem_In k (map key rs))) in Hk. rewrite Hk. reflexivity.
    + intros p Hin. destruct (Hp p Hin) as [-> _]. reflexivity.
  - intros p Hin. unfold compute_diff. destruct (Hp p Hin) as [-> _].
    reflexivity.
Qed.
End IdentityFacts.

Lemma same_snapshot_reports_nothing_witness :
  let rt := risk_examples.rt in
  let rs := [risk_examples.kept; risk_examples.gone;
             risk_examples.kept_edited] in
  (forall r, In r rs ->
             wf_value (VDict (body r)) /\ nan_free (VDict (body r)))
  /\ cli.analyse rs rs false [] = Ok (cli.mkAnalysis [] 2).
Proof.
  assert (H : forall r,
             In r [risk_examples.kept; risk_examples.gone;
                   risk_examples.kept_edited] ->
             wf_value (VDict (body r)) /\ nan_free (VDict (body r))).
  { intros r [<-|[<-|[<-|[]]]]; simpl; repeat split;
      repeat constructor; simpl; intuition discriminate. }
  split; [exact H|].
  exact (proj2 (@same_snapshot_reports_nothing risk_examples.rt
                  [risk_examples.kept; risk_examples.gone;
                   risk_examples.kept_edited] false [] H)).
Defined.

(** ** Further properties of the parser *)

Lemma split_last_slash (a a' b b' : string) :
  no_slash b -> no_slash b' ->
  a ++ "/" ++ b = a' ++ "/" ++ b' -> a = a' /\ b = b'.
Proof.
  unfold no_slash. revert a'.
  induction a as [|c a IH]; intros a' Hb Hb' H.
  - destruct a' as [|c' a'].
    + simpl in H. injection H as H. split; [reflexivity|exact H].
    + simpl in H. injection H as <- H. subst b.
      rewrite has_char_app in Hb. simpl in Hb.
      rewrite orb_true_r in Hb. discriminate.
  - destruct a' as [|c' a'].
    + simpl in H. injection H as -> H. subst b'.
      rewrite has_char_app in Hb'. simpl in Hb'.
      rewrite orb_true_r in Hb'. discriminate.
    + simpl in H. injection H as <- H.
      destruct (IH a' Hb Hb' H) as [-> ->]. split; reflexivity.
Qed.

(** X9.  The identity key tells resources apart when kind, namespace
    and name hold no ["/"] (as Kubernetes requires): two such resources
    with one key agree on apiVersion, kind, namespace and name.  The
    apiVersion may hold slashes. *)
Theorem key_injective (r1 r2 : Resource) :
  no_slash (kind r1) -> no_slash (namespace r1) -> no_slash (name r1) ->
  no_slash (kind r2) -> no_slash (namespace r2) -> no_slash (name r2) ->
  key r1 = key r2 ->
  api_version r1 = api_version r2 /\ kind r1 = kind r2
  /\ namespace r1 = namespace r2 /\ name r1 = name r2.
Proof.
  intros Hk1 Hn1 Hm1 Hk2 Hn2 Hm2 H. unfold key in H.
  assert (H3 : (api_version r1 ++ "/" ++ kind r1 ++ "/" ++ namespace r1)
                 ++ "/" ++ name r1 =
               (api_version r2 ++ "/" ++ kind r2 ++ "/" ++ namespace r2)
                 ++ "/" ++ name r2).
  { rewrite !append_assoc. exact H. }
  apply split_last_slash in H3; try assumption. destruct H3 as [H3 Hname].
  assert (H2 : (api_version r1 ++ "/" ++ kind r1) ++ "/" ++ namespace r1 =
               (api_version r2 ++ "/" ++ kind r2) ++ "/" ++ namespace r2).
  { rewrite !append_assoc. exact H3. }
  apply split_last_slash in H2; try assumption. destruct H2 as [H2 Hns].
  apply split_last_slash in H2; try assumption. destruct H2 as [Hav Hkind].
  repeat split; assumption.
Qed.

Lemma key_injective_witness :
  (api_version risk_examples.kept = api_version risk_examples.kept_edited
   /\ kind risk_examples.kept = kind risk_examples.kept_edited
   /\ namespace risk_examples.kept = namespace risk_examples.kept_edited
   /\ name risk_examples.kept = name risk_examples.kept_edited)
  /\ key key_examples.grouped = key key_examples.slashed
  /\ kind key_examples.grouped <> kind key_examples.slashed.
Proof.
  split; [|split; [reflexivity|discriminate]].
  apply (key_injective risk_examples.kept risk_examples.kept_edited);
    reflexivity.
Defined.
Lemma splitlines_aux_join (s cur : string) :
  join_empty (splitlines_aux cur s) = cur ++ s.
Proof.
  revert cur. induction s as [s IH] using
    (well_founded_induction (Wf_nat.well_founded_ltof _ String.length)).
  unfold Wf_nat.ltof in IH.
  intros cur. destruct s as [|c s].
  - simpl. destruct cur; simpl; [reflexivity|].
    rewrite !append_nil_r. reflexivity.
  - cbn [splitlines_aux].
    destruct (code c =? 13)%nat.
    + destruct s as [|d s'].
      * simpl. rewrite !append_nil_r. reflexivity.
      * destruct (code d =? 10)%nat.
        -- cbn [join_empty fold_right]. fold (join_empty (splitlines_aux EmptyString s')).
           rewrite IH; [|simpl; lia].
           rewrite append_assoc. reflexivity.
        -- cbn [join_empty fold_right].
           fold (join_empty (splitlines_aux EmptyString (String d s'))).
           rewrite IH; [|simpl; lia].
           rewrite append_assoc. reflexivity.
    + destruct (is_linebreak c).
      * cbn [join_empty fold_right].
        fold (join_empty (splitlines_aux EmptyString s)).
        rewrite IH; [|simpl; lia].
        rewrite append_assoc. reflexivity.
      * rewrite IH; [|simpl; lia].
        rewrite append_assoc. reflexivity.
Qed.

Lemma splitlines_join (s : string) :
  join_empty (splitlines_keepends s) = s.
Proof. apply splitlines_aux_join. Qed.

Lemma runs_not_nil (lines : list string) : runs lines <> [].
Proof.
  destruct lines as [|l rest]; simpl; [discriminate|].
  destruct (is_delimiter l); [discriminate|].
  destruct (runs rest); discriminate.
Qed.

(** The loop of [_split_raw_docs], from any state. *)
Lemma split_loop_runs (lines : list string) :
  forall docs cur,
    (let '(docs', cur') := fold_left split_step lines (docs, cur) in
     match cur' with
     | [] => docs'
     | _ => docs' ++ [join_empty cur']
     end)%list =
    (docs ++ map join_empty
               (filter nonempty
                  (match runs lines with
                   | g :: gs => (cur ++ g) :: gs
                   | [] => [cur]
                   end)))%list.
Proof.
  induction lines as [|l rest IH]; intros docs cur.
  - simpl. rewrite app_nil_r. destruct cur; simpl.
    + rewrite app_nil_r. reflexivity.
    + reflexivity.
  - cbn [fold_left runs]. unfold split_step at 2. fold (is_delimiter l).
    destruct (is_delimiter l).
    + rewrite app_nil_r. destruct cur as [|c0 cur].
      * rewrite IH. cbn [filter nonempty].
        destruct (runs rest) as [|g gs] eqn:E.
        -- exfalso. exact (runs_not_nil rest E).
        -- reflexivity.
      * rewrite IH. cbn [filter nonempty map].
        destruct (runs rest) as [|g gs] eqn:E.
        -- exfalso. exact (runs_not_nil rest E).
        -- cbn [app]. rewrite <- app_assoc. reflexivity.
    + rewrite IH. destruct (runs rest) as [|g gs] eqn:E.
      * exfalso. exact (runs_not_nil rest E).
      * rewrite <- app_assoc. reflexivity.
Qed.

Lemma runs_no_delimiter (lines : list string) :
  forallb (fun l => negb (is_delimiter l)) lines = true ->
  runs lines = [lines].
Proof.
  induction lines as [|l rest IH]; simpl; intros H; [reflexivity|].
  apply andb_true_iff in H. destruct H as [Hl Hr].
  apply negb_true_iff in Hl. rewrite Hl, (IH Hr). reflexivity.
Qed.

Lemma runs_concat (lines : list string) :
  List.concat (runs lines) = filter (fun l => negb (is_delimiter l)) lines
  /\ Forall (Forall (fun l => is_delimiter l = false)) (runs lines).
Proof.
  induction lines as [|l rest [IH1 IH2]]; simpl.
  - split; [reflexivity|]. repeat constructor.
  - destruct (is_delimiter l) eqn:E; simpl.
    + split; [exact IH1|]. constructor; [constructor|exact IH2].
    + destruct (runs rest) as [|g gs].
      * simpl in IH1. rewrite <- IH1. split; [reflexivity|].
        repeat constructor. exact E.
      * simpl in *. rewrite <- IH1. split; [reflexivity|].
        inversion IH2; subst. constructor; [|assumption].
        constructor; assumption.
Qed.

Lemma splitlines_aux_nonempty (s : string) :
  forall cur, Forall (fun l => l <> EmptyString) (splitlines_aux cur s).
Proof.
  induction s as [s IH] using
    (well_founded_induction (Wf_nat.well_founded_ltof _ String.length)).
  unfold Wf_nat.ltof in IH.
  intros cur. destruct s as [|c s].
  - simpl. destruct cur; constructor; [discriminate|constructor].
  - cbn [splitlines_aux].
    assert (Hne : forall x y, cur ++ String x y <> EmptyString).
    { intros x y. apply append_not_empty. discriminate. }
    destruct (code c =? 13)%nat.
    + destruct s as [|d s'].
      * constructor; [apply Hne|constructor].
      * destruct (code d =? 10)%nat.
        -- constructor; [apply Hne|]. apply IH. simpl; lia.
        -- constructor; [apply Hne|]. apply IH. simpl; lia.
    + destruct (is_linebreak c).
      * constructor; [apply Hne|]. apply IH. simpl; lia.
      * apply IH. simpl; lia.
Qed.

Lemma join_empty_not_empty (g : list string) :
  g <> [] -> Forall (fun l => l <> EmptyString) g ->
  join_empty g <> EmptyString.
Proof.
  destruct g as [|l g]; intros Hg Hall; [contradiction|].
  inversion Hall; subst. simpl.
  destruct l; [contradiction|]. discriminate.
Qed.

Lemma join_empty_app (a b : list string) :
  join_empty (a ++ b)%list = join_empty a ++ join_empty b.
Proof.
  induction a as [|x a IH]; [reflexivity|].
  simpl. fold (join_empty (a ++ b)%list). fold (join_empty a).
  rewrite IH, append_assoc. reflexivity.
Qed.

Lemma join_empty_groups (gs : list (list string)) :
  join_empty (map join_empty (filter nonempty gs)) =
  join_empty (List.concat gs).
Proof.
  induction gs as [|g gs IH]; [reflexivity|].
  cbn [filter List.concat]. rewrite join_empty_app.
  destruct g as [|l g].
  - cbn [nonempty]. exact IH.
  - cbn [nonempty map]. rewrite <- IH. reflexivity.
Qed.

(** X10.  [_split_raw_docs] cuts the text at the delimiter lines (the
    lines that read [---] once trailing whitespace is removed): the
    documents are the non-empty runs of lines between delimiters, each
    joined back into one text, in order.  Hence no document is empty,
    the documents together are the text without its delimiter lines,
    and a text without a delimiter line is one document, itself. *)
Theorem _split_raw_docs_runs (yaml_text : string) :
  _split_raw_docs yaml_text =
    map join_empty (filter nonempty (runs (splitlines_keepends yaml_text)))
  /\ Forall (fun doc => doc <> EmptyString) (_split_raw_docs yaml_text)
  /\ join_empty (_split_raw_docs yaml_text) =
     join_empty (filter (fun l => negb (is_delimiter l))
                        (splitlines_keepends yaml_text))
  /\ (forallb (fun l => negb (is_delimiter l))
              (splitlines_keepends yaml_text) = true ->
      _split_raw_docs yaml_text =
      match yaml_text with
      | EmptyString => []
      | _ => [yaml_text]
      end).
Proof.
  assert (E : _split_raw_docs yaml_text =
              map join_empty
                  (filter nonempty (runs (splitlines_keepends yaml_text)))).
  { unfold _split_raw_docs.
    pose proof (split_loop_runs (splitlines_keepends yaml_text) [] []) as H.
    cbn [app] in H.
    destruct (runs (splitlines_keepends yaml_text)) as [|g gs] eqn:Er.
    - exfalso. exact (runs_not_nil _ Er).
    - exact H. }
  split; [exact E|].
  pose proof (runs_concat (splitlines_keepends yaml_text)) as [Hc Hd].
  pose proof (splitlines_aux_nonempty yaml_text EmptyString) as Hne.
  fold (splitlines_keepends yaml_text) in Hne.
  split; [|split].
  - rewrite E. apply Forall_forall. intros doc Hin.
    apply in_map_iff in Hin. destruct Hin as (g & <- & Hg).
    apply filter_In in Hg. destruct Hg as [Hg Hn].
    apply join_empty_not_empty.
    + intros ->. discriminate.
    + apply Forall_forall. intros l Hl.
      assert (Hin : In l (List.concat (runs (splitlines_keepends yaml_text)))).
      { apply in_concat. exists g. split; assumption. }
      rewrite Hc in Hin. apply filter_In in Hin.
      exact (proj1 (Forall_forall _ _) Hne l (proj1 Hin)).
  - rewrite E, <- Hc. apply join_empty_groups.
  - intros Hall. rewrite E, (runs_no_delimiter _ Hall).
    cbn [filter]. destruct (splitlines_keepends yaml_text) as [|l ls] eqn:El.
    + pose proof (splitlines_join yaml_text) as Hj. rewrite El in Hj.
      simpl in Hj. subst yaml_text. reflexivity.
    + cbn [nonempty map]. rewrite <- El, splitlines_join.
      destruct yaml_text; [discriminate El|reflexivity].
Qed.
Lemma collect_length {A B : Type} (f : A -> outcome (option B))
      (l : list A) (rs : list B) :
  collect f l = Ok rs -> (List.length rs <= List.length l)%nat.
Proof.
  revert rs. induction l as [|x l IH]; simpl; intros rs H.
  - injection H as <-. simpl. lia.
  - destruct (f x) as [r|e]; [|discriminate]. cbn [bind] in H.
    destruct (collect f l) as [rs'|e]; [|discriminate]. cbn [bind] in H.
    injection H as <-. specialize (IH rs' eq_refl).
    destruct r; simpl; lia.
Qed.

Section ParsedFacts.
Context {rt : Runtime}.

Lemma parse_doc_identity (ns raw_doc : string) (r : Loaded) :
  parse_doc ns raw_doc = Ok (Some r) ->
  loaded_raw r = strip raw_doc
  /\ loaded_raw r <> EmptyString
  /\ yaml_safe_load (loaded_raw r) = Some (VDict (loaded_body r))
  /\ dict_get "apiVersion" (loaded_body r) = Some (loaded_api_version r)
  /\ dict_get "kind" (loaded_body r) = Some (loaded_kind r)
  /\ exists md, metadata_of (loaded_body r) = Some md
                /\ loaded_namespace r = get_default "namespace" (VStr ns) md
                /\ loaded_name r
                   = get_default "name" (VStr EmptyString) md.
Proof.
  unfold parse_doc. intros H.
  destruct (strip raw_doc) as [|c0 s0] eqn:Es; [discriminate|].
  destruct (yaml_safe_load (String c0 s0)) as [v|] eqn:El; [|discriminate].
  destruct v as [|?|?|?|?|?|d]; try discriminate.
  unfold dict_has, get_or_none, metadata_of, get_default in *.
  destruct (dict_get "apiVersion" d) as [av|] eqn:Eav; [|discriminate].
  destruct (dict_get "kind" d) as [kd|] eqn:Ekd; [|discriminate].
  cbn [negb orb] in H.
  destruct (dict_get "metadata" d) as [m|] eqn:Em.
  - destruct m as [|?|?|?|?|?|md]; try discriminate.
    injection H as <-. cbn. rewrite Em.
    repeat split; try discriminate; try assumption.
    exists md. repeat split.
  - injection H as <-. cbn. rewrite Em.
    repeat split; try discriminate; try assumption.
    exists []. repeat split.
Qed.

(** X11.  Every resource [parse_multi_doc] returns carries the
    identity of its own document: its raw text is the stripped,
    non-empty text of one of the split documents and loads to its body;
    apiVersion and kind are the entries of the body under these keys;
    namespace and name are the entries of the body's metadata mapping,
    the default namespace and the empty name standing in when the
    entry is absent.  The four are taken as the document gives them,
    whatever their type.  There are at most as many resources as
    documents. *)
Theorem parsed_resources_carry_their_identity
        (yaml_text ns : string) (rs : list Loaded) :
  parse_multi_doc yaml_text ns = Ok rs ->
  (List.length rs <= List.length (_split_raw_docs yaml_text))%nat
  /\ forall r, In r rs ->
       (exists raw_doc, In raw_doc (_split_raw_docs yaml_text)
                        /\ loaded_raw r = strip raw_doc)
       /\ loaded_raw r <> EmptyString
       /\ yaml_safe_load (loaded_raw r) = Some (VDict (loaded_body r))
       /\ dict_get "apiVersion" (loaded_body r) = Some (loaded_api_version r)
       /\ dict_get "kind" (loaded_body r) = Some (loaded_kind r)
       /\ exists md, metadata_of (loaded_body r) = Some md
                     /\ loaded_namespace r
                        = get_default "namespace" (VStr ns) md
                     /\ loaded_name r
                        = get_default "name" (VStr EmptyString) md.
Proof.
  unfold parse_multi_doc. intros H. split.
  - exact (collect_length _ _ _ H).
  - intros r Hr.
    apply (proj1 (collect_In _ _ _ H r)) in Hr.
    destruct Hr as (raw_doc & Hin & Hdoc).
    destruct (parse_doc_identity ns raw_doc r Hdoc)
      as (H1 & H2 & H3 & H4 & H5 & H6).
    split; [exists raw_doc; split; assumption|].
    repeat split; assumption.
Qed.
End ParsedFacts.

Lemma parsed_resources_carry_their_identity_witness :
  let rt := partial_doc.rt in
  let r := mkLoaded (VStr "v1") (VStr "ConfigMap") VNone (VInt 123)
                    partial_doc.untyped_loaded
                    (strip partial_doc.untyped_text) in
  parse_multi_doc partial_doc.untyped_text "default" = Ok [r]
  /\ dict_get "kind" (loaded_body r) = Some (loaded_kind r)
  /\ exists md, metadata_of (loaded_body r) = Some md
                /\ loaded_namespace r
                   = get_default "namespace" (VStr "default") md
                /\ loaded_name r = get_default "name" (VStr EmptyString) md.
Proof.
  assert (H : @parse_multi_doc partial_doc.rt partial_doc.untyped_text
                               "default" =
              Ok [mkLoaded (VStr "v1") (VStr "ConfigMap") VNone (VInt 123)
                    partial_doc.untyped_loaded
                    (strip partial_doc.untyped_text)])
    by (vm_compute; reflexivity).
  split; [exact H|].
  destruct (proj2 (@parsed_resources_carry_their_identity partial_doc.rt
                     partial_doc.untyped_text "default" _ H)
                  _ (or_introl eq_refl))
    as (_ & _ & _ & _ & Hk & Hm).
  split; [exact Hk|exact Hm].
Defined.

(** ** Pairs and change records *)

Lemma collect_raised {A B : Type} (f : A -> outcome (option B))
      (l : list A) (e : exn) :
  collect f l = Raised e -> exists x, In x l /\ f x = Raised e.
Proof.
  induction l as [|x l IH]; simpl; intros H; [discriminate|].
  destruct (f x) as [r|e'] eqn:E.
  - cbn [bind] in H. destruct (collect f l) as [rs|e'']; [discriminate|].
    cbn [bind] in H. injection H as ->.
    destruct (IH eq_refl) as (y & Hy & Hf). exists y. split; [right|]; assumption.
  - cbn [bind] in H. injection H as ->. exists x. split; [left; reflexivity|assumption].
Qed.

Lemma collect_count {A B : Type} (f : A -> outcome (option B))
      (p : A -> bool) (l : list A) (rs : list B) :
  collect f l = Ok rs ->
  (forall x, In x l -> p x = true -> f x = Ok None) ->
  (List.length rs + List.length (filter p l) <= List.length l)%nat.
Proof.
  revert rs. induction l as [|x l IH]; simpl; intros rs H Hp.
  - injection H as <-. simpl. lia.
  - destruct (f x) as [r|e] eqn:E; [|discriminate]. cbn [bind] in H.
    destruct (collect f l) as [rs'|e]; [|discriminate]. cbn [bind] in H.
    injection H as <-.
    assert (IH' := IH rs' eq_refl (fun y Hy => Hp y (or_intror Hy))).
    destruct (p x) eqn:Epx.
    + rewrite (Hp x (or_introl eq_refl) Epx) in E. injection E as <-.
      simpl. lia.
    + destruct r; simpl; lia.
Qed.

Lemma collect_keys {A B : Type} (kf : B -> string) (ka : A -> string)
      (f : A -> outcome (option B)) (l : list A) (rs : list B) :
  collect f l = Ok rs ->
  (forall x y, In x l -> f x = Ok (Some y) -> kf y = ka x) ->
  NoDup (map ka l) ->
  map kf rs = filter (fun k => mem k (map kf rs)) (map ka l).
Proof.
  revert rs. induction l as [|x l IH]; simpl; intros rs H Hk Hnd.
  - injection H as <-. reflexivity.
  - destruct (f x) as [r|e] eqn:E; [|discriminate]. cbn [bind] in H.
    destruct (collect f l) as [rs'|e] eqn:Ec; [|discriminate]. cbn [bind] in H.
    injection H as <-. inversion Hnd as [|? ? Hnotin Hnd']; subst.
    assert (IH' := IH rs' eq_refl
                      (fun a b Ha Hb => Hk a b (or_intror Ha) Hb) Hnd').
    assert (Hsub : forall k, In k (map kf rs') -> In k (map ka l)).
    { intros k Hin. rewrite IH' in Hin. apply filter_In in Hin. tauto. }
    destruct r as [y|].
    + cbn [map]. rewrite (Hk x y (or_introl eq_refl) E).
      unfold mem at 1. cbn [existsb]. rewrite String.eqb_refl. cbn [orb].
      f_equal. rewrite IH' at 1. apply filter_ext_in.
      intros k Hin. unfold mem. cbn [existsb].
      destruct (String.eqb_spec k (ka x)) as [->|_]; [contradiction|].
      reflexivity.
    + destruct (mem (ka x) (map kf rs')) eqn:Em.
      * apply mem_In in Em. apply Hsub in Em. contradiction.
      * exact IH'.
Qed.

Lemma scan_path_raises (s : string) :
  forall result inner e,
    engine.scan_path result inner s = Raised e -> e = ValueError.
Proof.
  induction s as [|c s IH]; intros result inner e H.
  - simpl in H. destruct inner; [|discriminate]. injection H as <-. reflexivity.
  - simpl in H. destruct inner as [acc|].
    + destruct (Ascii.eqb c "]"); exact (IH _ _ _ H).
    + destruct (Ascii.eqb c "["); exact (IH _ _ _ H).
Qed.

Lemma each_item_raises {A : Type} (mk : string -> A -> engine.FieldChange)
      (items : list (string * A)) (e : exn) :
  engine.each_item mk items = Raised e -> e = ValueError.
Proof.
  induction items as [|[p d] items IH]; simpl; intros H; [discriminate|].
  destruct (engine._deepdiff_path_to_dot p) as [dot|e'] eqn:E.
  - cbn [bind] in H. destruct (engine.each_item mk items) as [rest|e''].
    + discriminate.
    + cbn [bind] in H. injection H as ->. apply IH. reflexivity.
  - cbn [bind] in H. injection H as ->.
    exact (scan_path_raises _ _ _ _ E).
Qed.

Lemma _extract_changes_raises (dd : DeepDiffResult) (e : exn) :
  engine._extract_changes dd = Raised e -> e = ValueError.
Proof.
  unfold engine._extract_changes. intros H.
  repeat match type of H with
         | bind ?m _ = Raised _ =>
             let E := fresh "E" in
             destruct m eqn:E;
               [cbn [bind] in H
               |cbn [bind] in H; injection H as ->;
                exact (each_item_raises _ _ _ E)]
         end.
  discriminate.
Qed.

Section PairFacts.
Context {rt : Runtime}.
Import engine cli.

Lemma pairs_shape (old new : list Resource) (p : ResourcePair) :
  In p (pair_resources old new) ->
  In (pair_key p) (union_order old new)
  /\ match manifest.status p with
     | added => manifest.old p = None /\ exists n, manifest.new p = Some n
     | removed => manifest.new p = None /\ exists o, manifest.old p = Some o
     | _ => exists o n, manifest.old p = Some o /\ manifest.new p = Some n
                        /\ key o = key n
     end.
Proof.
  intros Hin. rewrite pair_resources_refines in Hin.
  unfold pair_resources_spec in Hin. apply in_map_iff in Hin.
  destruct Hin as (k & <- & Hk). unfold pair_key.
  cbn [manifest.status manifest.old manifest.new].
  destruct (last_with_key k old) as [o|] eqn:Eo;
    destruct (last_with_key k new) as [n|] eqn:En.
  - destruct (last_with_key_key k old o Eo) as [Ho _].
    destruct (last_with_key_key k new n En) as [Hn _].
    rewrite Hn. split; [exact Hk|].
    unfold status_by_presence.
    destruct (py_eq _ _); exists o, n; rewrite Ho, Hn; auto.
  - destruct (last_with_key_key k old o Eo) as [Ho _].
    rewrite Ho. split; [exact Hk|]. simpl. split; [reflexivity|].
    exists o; reflexivity.
  - destruct (last_with_key_key k new n En) as [Hn _].
    rewrite Hn. split; [exact Hk|]. simpl. split; [reflexivity|].
    exists n; reflexivity.
  - exfalso. apply union_order_In in Hk.
    apply last_with_key_none in Eo. apply last_with_key_none in En. tauto.
Qed.

Lemma pair_keys_union (old new : list Resource) :
  map pair_key (pair_resources old new) = union_order old new.
Proof.
  rewrite pair_resources_refines. unfold pair_resources_spec.
  rewrite map_map. rewrite <- (map_id (union_order old new)) at 2.
  apply map_ext_in. intros k Hk. unfold pair_key.
  cbn [manifest.old manifest.new].
  destruct (last_with_key k new) as [n|] eqn:En.
  - exact (proj1 (last_with_key_key k new n En)).
  - destruct (last_with_key k old) as [o|] eqn:Eo.
    + exact (proj1 (last_with_key_key k old o Eo)).
    + exfalso. apply union_order_In in Hk.
      apply last_with_key_none in Eo. apply last_with_key_none in En. tauto.
Qed.

(** X12.  The pairs of [pair_resources] meet the assertions of
    [compute_diff]: an added pair has a new resource and no old one, a
    removed pair an old resource and no new one, and any other pair
    both, with one key.  So [diff_all] on these pairs never fails one
    of these assertions. *)
Theorem paired_resources_meet_assertions (old new : list Resource) :
  (forall p, In p (pair_resources old new) ->
     match manifest.status p with
     | added => manifest.old p = None /\ exists n, manifest.new p = Some n
     | removed => manifest.new p = None /\ exists o, manifest.old p = Some o
     | _ => exists o n, manifest.old p = Some o /\ manifest.new p = Some n
                        /\ key o = key n
     end)
  /\ (forall show_all extra_ignores,
         diff_all (pair_resources old new) show_all extra_ignores
         <> Raised AssertionError).
Proof.
  split.
  - intros p Hin. exact (proj2 (pairs_shape old new p Hin)).
  - intros show_all extra_ignores H. unfold diff_all in H.
    apply collect_raised in H. destruct H as (p & Hin & H).
    pose proof (proj2 (pairs_shape old new p Hin)) as Hs.
    unfold compute_diff in H.
    destruct (manifest.status p).
    + destruct Hs as [_ [n Hn]]. rewrite Hn in H. discriminate.
    + destruct Hs as [_ [o Ho]]. rewrite Ho in H. discriminate.
    + destruct Hs as (o & n & Ho & Hn & _). rewrite Ho, Hn in H.
      destruct (is_semantically_equal _ _); [discriminate|].
      destruct (_extract_changes _) as [chs|e'] eqn:E.
      * cbn [bind] in H. destruct chs; discriminate.
      * cbn [bind] in H. injection H as ->.
        pose proof (_extract_changes_raises _ _ E). discriminate.
    + discriminate.
Qed.

Lemma compute_diff_record (p : ResourcePair) (c : ChangeRecord)
      (show_all : bool) (extra_ignores : option (list string)) :
  compute_diff p show_all extra_ignores = Ok (Some c) ->
  engine.status c = manifest.status p
  /\ manifest.status p <> unchanged
  /\ (changes c = [] <-> manifest.status p <> changed)
  /\ exists res,
       (if match manifest.status p with added => true | _ => false end
        then manifest.new p = Some res else manifest.old p = Some res)
       /\ c = record_of res (manifest.status p) (changes c).
Proof.
  unfold compute_diff. intros H.
  destruct (manifest.status p) eqn:Es.
  - destruct (manifest.new p) as [res|]; [|discriminate].
    injection H as <-. cbn. repeat split; try discriminate.
    exists res. split; reflexivity.
  - destruct (manifest.old p) as [res|]; [|discriminate].
    injection H as <-. cbn. repeat split; try discriminate.
    exists res. split; reflexivity.
  - destruct (manifest.old p) as [o|]; [|discriminate].
    destruct (manifest.new p) as [n|]; [|discriminate].
    destruct (is_semantically_equal _ _); [discriminate|].
    destruct (_extract_changes _) as [chs|e']; [|discriminate].
    cbn [bind] in H. destruct chs as [|ch chs]; [discriminate|].
    injection H as <-. cbn. repeat split; try discriminate.
    + intros Hc. contradiction Hc. reflexivity.
    + exists o. split; reflexivity.
  - discriminate.
Qed.

(** X13.  The change records of a diff follow the pairs: their keys
    are distinct and come in the order of the pairs (old keys first,
    then new-only keys); each record has the status of its pair, which
    is never unchanged, and holds field changes exactly when that
    status is changed; and the records and the unchanged pairs together
    never exceed the pairs. *)
Theorem change_records_follow_pairs (old new : list Resource)
        (show_all : bool) (extra_ignores : option (list string))
        (crs : list ChangeRecord) :
  diff_all (pair_resources old new) show_all extra_ignores = Ok crs ->
  NoDup (map resource_key crs)
  /\ map resource_key crs =
     filter (fun k => mem k (map resource_key crs)) (union_order old new)
  /\ (forall c, In c crs ->
        exists p, In p (pair_resources old new)
                  /\ resource_key c = pair_key p
                  /\ engine.status c = manifest.status p
                  /\ engine.status c <> unchanged
                  /\ (changes c = [] <-> engine.status c <> changed))
  /\ (List.length crs + total_unchanged (pair_resources old new)
      <= List.length (pair_resources old new))%nat.
Proof.
  intros H. unfold diff_all in H.
  assert (Hkey : forall p c,
             In p (pair_resources old new) ->
             compute_diff p show_all extra_ignores = Ok (Some c) ->
             resource_key c = pair_key p).
  { intros p c Hin Hc.
    destruct (compute_diff_record p c _ _ Hc) as (_ & _ & _ & res & Hres & ->).
    pose proof (proj2 (pairs_shape old new p Hin)) as Hs.
    unfold pair_key. cbn [record_of resource_key].
    destruct (manifest.status p).
    - rewrite Hres. reflexivity.
    - destruct Hs as [-> _]. rewrite Hres. reflexivity.
    - destruct Hs as (o & n & Ho & Hn & Hk). rewrite Hn.
      rewrite Ho in Hres. injection Hres as <-. exact Hk.
    - destruct Hs as (o & n & Ho & Hn & Hk). rewrite Hn.
      rewrite Ho in Hres. injection Hres as <-. exact Hk. }
  assert (Hord : map resource_key crs =
                 filter (fun k => mem k (map resource_key crs))
                        (union_order old new)).
  { rewrite <- (pair_keys_union old new).
    apply (collect_keys resource_key pair_key _ _ _ H Hkey).
    rewrite pair_keys_union. apply union_order_NoDup. }
  split; [|split; [exact Hord|split]].
  - rewrite Hord. apply NoDup_filter. apply union_order_NoDup.
  - intros c Hc. apply (proj1 (collect_In _ _ _ H c)) in Hc.
    destruct Hc as (p & Hin & Hp). exists p.
    destruct (compute_diff_record p c _ _ Hp) as (Hs & Hu & Hch & _).
    split; [exact Hin|]. split; [exact (Hkey p c Hin Hp)|].
    rewrite Hs. repeat split; tauto.
  - unfold total_unchanged. apply (collect_count _ _ _ _ H).
    intros p _ Hp. unfold compute_diff.
    destruct (manifest.status p); try discriminate. reflexivity.
Qed.
End PairFacts.

Lemma change_records_follow_pairs_witness :
  let rt := risk_examples.rt in
  let old := [risk_examples.gone; risk_examples.kept] in
  let new := [risk_examples.kept; risk_examples.fresh] in
  exists crs,
    engine.diff_all (pair_resources old new) false None = Ok crs
    /\ map engine.resource_key crs =
       ["v1/ConfigMap/default/legacy"; "v1/Secret/default/token"]
    /\ NoDup (map engine.resource_key crs)
    /\ (List.length crs + cli.total_unchanged (pair_resources old new)
        <= List.length (pair_resources old new))%nat.
Proof.
  eexists. split; [vm_compute; reflexivity|]. split; [reflexivity|].
  pose proof (@change_records_follow_pairs risk_examples.rt
                [risk_examples.gone; risk_examples.kept]
                [risk_examples.kept; risk_examples.fresh] false None _
                eq_refl) as (H1 & _ & _ & H4).
  split; [exact H1|exact H4].
Defined.

(** ** Further properties of the noise filter *)

Section StripMore.
Context {rt : Runtime}.

Lemma fold_remove_absorb_all (l' : list string) :
  forall (l : list string) (v : value),
    incl l' l ->
    fold_left _remove_path l (fold_left _remove_path l' v) =
    fold_left _remove_path l v.
Proof.
  induction l' as [|p l' IH]; intros l v Hincl; [reflexivity|].
  cbn [fold_left]. rewrite IH.
  - apply fold_remove_absorb. apply Hincl. left; reflexivity.
  - intros x Hx. apply Hincl. right; exact Hx.
Qed.

(** X14.  Noise stripping is idempotent: stripping a stripped body
    with the same ignore paths changes nothing. *)
Theorem strip_noise_idempotent (body : value)
        (extra_ignores : option (list string)) :
  strip_noise (strip_noise body extra_ignores) extra_ignores =
  strip_noise body extra_ignores.
Proof.
  unfold strip_noise. apply fold_remove_absorb_all. apply incl_refl.
Qed.

Lemma resolve_not_dict (parts : list string) (v : value) (d : pydict) :
  (forall d', v <> VDict d') -> resolve parts v = Some (VDict d) -> False.
Proof.
  intros Hv H. destruct parts as [|k rest].
  - simpl in H. injection H as ->. exact (Hv d eq_refl).
  - destruct v; try discriminate. exact (Hv _ eq_refl).
Qed.

Lemma remove_leaves_nothing (init : list string) :
  forall (v : value) (leaf : string) (d : pydict),
    resolve init (_remove_path_parts v (init ++ [leaf])) = Some (VDict d) ->
    forall k, In k (keys d) -> leaf_keeps leaf k = true.
Proof.
  induction init as [|key init IH]; intros v leaf d H k Hk.
  - cbn [app resolve] in H.
    destruct v as [|?|?|?|?|?|d0]; try discriminate.
    rewrite remove_leaf in H. injection H as <-.
    unfold keys in Hk. apply in_map_iff in Hk.
    destruct Hk as ([k' x] & <- & Hin). apply filter_In in Hin.
    exact (proj2 Hin).
  - destruct v as [|?|?|?|?|?|d0];
      try (rewrite remove_not_dict in H by discriminate; discriminate).
    assert (Hform : exists k2 rest, (init ++ [leaf])%list = k2 :: rest).
    { destruct init; simpl; eauto. }
    destruct Hform as (k2 & rest & Hform).
    cbn [app] in H. rewrite Hform, remove_descend, <- Hform in H.
    cbn [resolve] in H. unfold descend in H.
    destruct (dict_get key d0) as [x|] eqn:Ex.
    + destruct x as [|?|?|?|?|?|sub];
        try (rewrite Ex in H; exfalso;
             refine (resolve_not_dict init _ d _ H); discriminate).
      rewrite dict_get_set, String.eqb_refl in H.
      exact (IH _ leaf d H k Hk).
    + rewrite Ex in H. discriminate.
Qed.

Lemma split_unescaped_not_nil (s : string) :
  forall prev_bs cur, split_unescaped prev_bs cur s <> [].
Proof.
  induction s as [|c s IH]; intros prev_bs cur; simpl; [discriminate|].
  destruct (Ascii.eqb c "." && negb prev_bs); [discriminate|apply IH].
Qed.

Lemma in_moved_last {A : Type} (x : A) (l : list A) :
  In x l -> exists l', Permutation l (l' ++ [x]).
Proof.
  intros H. apply in_split in H. destruct H as (l1 & l2 & ->).
  exists (l1 ++ l2)%list.
  eapply Permutation_trans; [apply Permutation_sym, Permutation_middle|].
  apply Permutation_cons_append.
Qed.

(** X15.  After noise stripping nothing is left at a stripped path:
    for every default or extra path, with [leaf] its last segment, the
    mapping found at the segments before it holds no key that [leaf]
    names (no key matching it when it is a glob pattern, else not the
    key itself), so a path without a glob no longer resolves. *)
Theorem stripped_paths_are_gone (body : value)
        (extra_ignores : option (list string))
        (p : string) (init : list string) (leaf : string) :
  In p (NOISE_PATHS ++ or_empty extra_ignores)%list ->
  _split_dot_path p = (init ++ [leaf])%list ->
  (forall d k,
      resolve init (strip_noise body extra_ignores) = Some (VDict d) ->
      In k (keys d) ->
      if is_glob leaf then fnmatch k leaf = false else k <> leaf)
  /\ (is_glob leaf = false ->
      resolve (init ++ [leaf]) (strip_noise body extra_ignores) = None).
Proof.
  intros Hin Hparts.
  assert (Hgone : forall d k,
             resolve init (strip_noise body extra_ignores) = Some (VDict d) ->
             In k (keys d) -> leaf_keeps leaf k = true).
  { intros d k Hres Hk. unfold strip_noise in Hres.
    destruct (in_moved_last p _ Hin) as [l' Hperm].
    rewrite (fold_remove_permutation _ _ Hperm), fold_left_app in Hres.
    cbn [fold_left] in Hres. unfold _remove_path at 1 in Hres.
    rewrite Hparts in Hres.
    exact (remove_leaves_nothing init _ leaf d Hres k Hk). }
  split.
  - intros d k Hres Hk. specialize (Hgone d k Hres Hk).
    unfold leaf_keeps in Hgone. destruct (is_glob leaf).
    + apply negb_true_iff in Hgone. exact Hgone.
    + apply negb_true_iff in Hgone. apply String.eqb_neq in Hgone.
      intros ->. apply Hgone. reflexivity.
  - intros Hglob.
    assert (Hres : forall parts v,
               resolve (parts ++ [leaf]) v =
               match resolve parts v with
               | Some (VDict d) => dict_get leaf d
               | _ => None
               end).
    { induction parts as [|k parts IHp]; intros v.
      - simpl. destruct v; try reflexivity.
        destruct (dict_get leaf d); reflexivity.
      - cbn [app resolve]. destruct v; try reflexivity.
        destruct (dict_get k d); [apply IHp|reflexivity]. }
    rewrite Hres.
    destruct (resolve init (strip_noise body extra_ignores))
      as [[|?|?|?|?|?|d]|] eqn:E; try reflexivity.
    destruct (dict_get leaf d) as [x|] eqn:Ex; [|reflexivity].
    exfalso. pose proof (dict_get_in _ _ _ Ex) as Hx.
    assert (Hk : In leaf (keys d)).
    { unfold keys. apply in_map_iff. exists (leaf, x). auto. }
    specialize (Hgone d leaf eq_refl Hk). unfold leaf_keeps in Hgone.
    rewrite Hglob, String.eqb_refl in Hgone. discriminate.
Qed.

Lemma remove_keeps_other_key (d : pydict) (key k : string)
      (rest : list string) :
  k <> key -> (rest <> [] \/ is_glob key = false) ->
  exists d', _remove_path_parts (VDict d) (key :: rest) = VDict d'
             /\ dict_get k d' = dict_get k d.
Proof.
  intros Hk Hrest. destruct rest as [|k2 rest].
  - destruct Hrest as [Hrest|Hglob]; [contradiction Hrest; reflexivity|].
    rewrite remove_leaf. eexists. split; [reflexivity|].
    rewrite (dict_get_filter_keys (leaf_keeps key)).
    unfold leaf_keeps. rewrite Hglob.
    apply String.eqb_neq in Hk. rewrite String.eqb_sym, Hk. reflexivity.
  - rewrite remove_descend. eexists. split; [reflexivity|].
    unfold descend. destruct (dict_get key d) as [[|?|?|?|?|?|sub]|];
      try reflexivity.
    rewrite dict_get_set. apply String.eqb_neq in Hk. rewrite Hk. reflexivity.
Qed.

Lemma fold_remove_keeps_other_key (k : string) (paths : list string) :
  (forall p, In p paths ->
     exists key rest, _split_dot_path p = key :: rest /\ k <> key
                      /\ (rest <> [] \/ is_glob key = false)) ->
  forall d, exists d',
    fold_left _remove_path paths (VDict d) = VDict d'
    /\ dict_get k d' = dict_get k d.
Proof.
  induction paths as [|p paths IH]; intros Hp d.
  - exists d. split; reflexivity.
  - destruct (Hp p (or_introl eq_refl)) as (key & rest & Hs & Hk & Hr).
    destruct (remove_keeps_other_key d key k rest Hk Hr) as (d1 & E1 & G1).
    destruct (IH (fun q Hq => Hp q (or_intror Hq)) d1) as (d' & E & G).
    exists d'. cbn [fold_left]. unfold _remove_path at 2. rewrite Hs, E1.
    split; [exact E|congruence].
Qed.

(** On values, noise stripping touches nothing outside the mappings
    its paths name. *)
Lemma strip_noise_keeps_other_keys (d : pydict)
        (extra_ignores : option (list string)) (k : string) :
  k <> "metadata" -> k <> "status" ->
  (forall p, In p (or_empty extra_ignores) ->
     exists key rest, _split_dot_path p = key :: rest /\ k <> key
                      /\ (rest <> [] \/ is_glob key = false)) ->
  exists d', strip_noise (VDict d) extra_ignores = VDict d'
             /\ dict_get k d' = dict_get k d.
Proof.
  intros Hm Hs Hextra. unfold strip_noise.
  apply fold_remove_keeps_other_key.
  intros p Hp. apply in_app_or in Hp. destruct Hp as [Hp|Hp]; [|auto].
  unfold NOISE_PATHS in Hp.
  repeat (destruct Hp as [<-|Hp];
          [exists "metadata"; eexists;
           split; [vm_compute; reflexivity|];
           split; [exact Hm|left; discriminate]|]).
  destruct Hp as [<-|[]].
  exists "status", []. split; [vm_compute; reflexivity|].
  split; [exact Hs|right; reflexivity].
Qed.
End StripMore.

Lemma stripped_paths_are_gone_witness :
  let rt := noise_only.rt in
  let p := "metadata.resourceVersion" in
  In p (NOISE_PATHS ++ or_empty None)%list
  /\ _split_dot_path p = (["metadata"] ++ ["resourceVersion"])%list
  /\ resolve ["metadata"; "resourceVersion"] (VDict noise_only.live_body)
     = Some (VStr "100")
  /\ resolve ["metadata"; "resourceVersion"]
             (strip_noise (VDict noise_only.live_body) None) = None.
Proof.
  assert (H1 : In "metadata.resourceVersion"
                  (NOISE_PATHS ++ or_empty None)%list)
    by (right; left; reflexivity).
  assert (H2 : _split_dot_path "metadata.resourceVersion" =
               (["metadata"] ++ ["resourceVersion"])%list)
    by (vm_compute; reflexivity).
  split; [exact H1|]. split; [exact H2|]. split; [reflexivity|].
  exact (proj2 (@stripped_paths_are_gone noise_only.rt
                  (VDict noise_only.live_body) None
                  "metadata.resourceVersion" ["metadata"] "resourceVersion"
                  H1 H2) eq_refl).
Defined.

(** ** Noise stripping on objects *)

Scheme tree_mut := Minimality for objects.tree Sort Prop
  with trees_mut := Minimality for objects.trees Sort Prop
  with entries_mut := Minimality for objects.entries Sort Prop.

Combined Scheme tree_all from tree_mut, trees_mut, entries_mut.

Lemma NoDup_app_parts {A : Type} (a b : list A) :
  NoDup (a ++ b) ->
  NoDup a /\ NoDup b /\ forall x, In x a -> ~ In x b.
Proof.
  induction a as [|x a IH]; simpl; intros H.
  - split; [constructor|]. split; [exact H|]. intros x [].
  - inversion H as [|? ? Hx Hrest]; subst.
    destruct (IH Hrest) as (Ha & Hb & Hd).
    split; [|split; [exact Hb|]].
    + constructor; [|exact Ha]. intros Hin. apply Hx.
      apply in_or_app. left; exact Hin.
    + intros y [<-|Hy]; [|exact (Hd y Hy)].
      intros Hin. apply Hx. apply in_or_app. right; exact Hin.
Qed.

Lemma NoDup_app_sub {A : Type} (a b b' : list A) :
  NoDup (a ++ b) -> incl b' b -> NoDup b' -> NoDup (a ++ b').
Proof.
  intros H Hincl Hb'. destruct (NoDup_app_parts a b H) as (Ha & _ & Hd).
  induction a as [|x a IH]; [exact Hb'|].
  simpl. inversion Ha; subst. constructor.
  - intros Hin. apply in_app_or in Hin. destruct Hin as [Hin|Hin];
      [contradiction|].
    exact (Hd x (or_introl eq_refl) (Hincl x Hin)).
  - apply IH.
    + simpl in H. inversion H; assumption.
    + assumption.
    + intros y Hy. apply Hd. right; exact Hy.
Qed.

Section ObjectFacts.
Context {rt : Runtime}.

(** A heap that agrees with [h] on the dicts of an object reads it
    the same way. *)
Lemma tree_frame_all (h h' : objects.heap) :
  (forall r v fp, objects.tree h r v fp ->
     (forall l, In l fp -> h' l = h l) -> objects.tree h' r v fp)
  /\ (forall rs vs fp, objects.trees h rs vs fp ->
        (forall l, In l fp -> h' l = h l) -> objects.trees h' rs vs fp)
  /\ (forall d vd fp, objects.entries h d vd fp ->
        (forall l, In l fp -> h' l = h l) -> objects.entries h' d vd fp).
Proof.
  apply tree_all.
  - constructor.
  - constructor.
  - constructor.
  - constructor.
  - constructor.
  - intros items vs fp _ IH Hsame. constructor. exact (IH Hsame).
  - intros l d vd fp Hl _ IH Hsame. econstructor.
    + rewrite (Hsame l (or_introl eq_refl)). exact Hl.
    + apply IH. intros x Hx. apply Hsame. right; exact Hx.
  - constructor.
  - intros r v fp rs vs fps _ IH1 _ IH2 Hsame. constructor.
    + apply IH1. intros x Hx. apply Hsame, in_or_app. left; exact Hx.
    + apply IH2. intros x Hx. apply Hsame, in_or_app. right; exact Hx.
  - constructor.
  - intros k r v fp d vd fps _ IH1 _ IH2 Hsame. constructor.
    + apply IH1. intros x Hx. apply Hsame, in_or_app. left; exact Hx.
    + apply IH2. intros x Hx. apply Hsame, in_or_app. right; exact Hx.
Qed.

Lemma tree_frame (h h' : objects.heap) (r : objects.ref) (v : value)
      (fp : list objects.loc) :
  objects.tree h r v fp -> (forall l, In l fp -> h' l = h l) ->
  objects.tree h' r v fp.
Proof. exact (proj1 (tree_frame_all h h') r v fp). Qed.

Lemma entries_frame (h h' : objects.heap) (d : list (string * objects.ref))
      (vd : pydict) (fp : list objects.loc) :
  objects.entries h d vd fp -> (forall l, In l fp -> h' l = h l) ->
  objects.entries h' d vd fp.
Proof. exact (proj2 (proj2 (tree_frame_all h h')) d vd fp). Qed.

(** An object reads as one value only. *)
Lemma tree_functional_all (h : objects.heap) :
  (forall r v fp, objects.tree h r v fp ->
     forall v' fp', objects.tree h r v' fp' -> v = v' /\ fp = fp')
  /\ (forall rs vs fp, objects.trees h rs vs fp ->
        forall vs' fp', objects.trees h rs vs' fp' -> vs = vs' /\ fp = fp')
  /\ (forall d vd fp, objects.entries h d vd fp ->
        forall vd' fp', objects.entries h d vd' fp' -> vd = vd' /\ fp = fp').
Proof.
  apply tree_all.
  - intros v' fp' H. inversion H; auto.
  - intros b v' fp' H. inversion H; auto.
  - intros z v' fp' H. inversion H; auto.
  - intros f v' fp' H. inversion H; auto.
  - intros s v' fp' H. inversion H; auto.
  - intros items vs fp _ IH v' fp' H.
    inversion H as [| | | | |? vs0 fp0 Hts0|]; subst.
    destruct (IH _ _ Hts0) as [-> ->]. auto.
  - intros l d vd fp Hl _ IH v' fp' H.
    inversion H as [| | | | | |? d0 vd0 fp0 Hl0 He0]; subst.
    rewrite Hl in Hl0. injection Hl0 as <-.
    destruct (IH _ _ He0) as [-> ->]. auto.
  - intros vs' fp' H. inversion H; auto.
  - intros r v fp rs vs fps _ IH1 _ IH2 vs' fp' H.
    inversion H as [|? v0 fp0 ? vs0 fps0 Ht0 Hts0]; subst.
    destruct (IH1 _ _ Ht0) as [-> ->].
    destruct (IH2 _ _ Hts0) as [-> ->]. auto.
  - intros vd' fp' H. inversion H; auto.
  - intros k r v fp d vd fps _ IH1 _ IH2 vd' fp' H.
    inversion H as [|? ? v0 fp0 ? vd0 fps0 Ht0 He0]; subst.
    destruct (IH1 _ _ Ht0) as [-> ->].
    destruct (IH2 _ _ He0) as [-> ->]. auto.
Qed.

Lemma tree_functional (h : objects.heap) (r : objects.ref) (v v' : value)
      (fp fp' : list objects.loc) :
  objects.tree h r v fp -> objects.tree h r v' fp' -> v = v'.
Proof.
  intros H H'. exact (proj1 (proj1 (tree_functional_all h) r v fp H v' fp' H')).
Qed.

Lemma entries_filter (h : objects.heap) (p : string -> bool)
      (d : list (string * objects.ref)) (vd : pydict)
      (fp : list objects.loc) :
  objects.entries h d vd fp ->
  exists fp',
    objects.entries h (filter (fun kv => p (fst kv)) d)
                      (filter (fun kv => p (fst kv)) vd) fp'
    /\ incl fp' fp /\ (NoDup fp -> NoDup fp').
Proof.
  induction 1 as [|k r v fp d vd fps Ht He (fp' & IH & Hincl & Hnd)].
  - exists []. split; [constructor|]. split; [apply incl_refl|auto].
  - cbn [filter fst]. destruct (p k).
    + exists (fp ++ fp')%list. split; [constructor; assumption|]. split.
      * apply incl_app; [apply incl_appl, incl_refl|apply incl_appr, Hincl].
      * intros Hn. apply (NoDup_app_sub fp fps fp' Hn Hincl).
        apply Hnd. exact (proj1 (proj2 (NoDup_app_parts _ _ Hn))).
    + exists fp'. split; [exact IH|]. split.
      * apply incl_appr, Hincl.
      * intros Hn. apply Hnd.
        exact (proj1 (proj2 (NoDup_app_parts _ _ Hn))).
Qed.

(** The entry of a dict under [key], and the dict after the object it
    holds has changed in place. *)
Lemma entries_descend (h : objects.heap) (key : string)
      (d : list (string * objects.ref)) (vd : pydict)
      (fp : list objects.loc) :
  objects.entries h d vd fp -> NoDup fp ->
  match dict_get key d with
  | None => dict_get key vd = None
  | Some r =>
      exists v fr,
        dict_get key vd = Some v /\ objects.tree h r v fr
        /\ incl fr fp /\ NoDup fr
        /\ forall h' v' fr',
             objects.tree h' r v' fr' -> incl fr' fr -> NoDup fr' ->
             (forall l, ~ In l fr -> h' l = h l) ->
             exists fp',
               objects.entries h' d (dict_set key v' vd) fp'
               /\ incl fp' fp /\ NoDup fp'
  end.
Proof.
  induction 1 as [|k r v fp d vd fps Ht He IH]; intros Hn.
  - reflexivity.
  - destruct (NoDup_app_parts _ _ Hn) as (Hn1 & Hn2 & Hdis).
    cbn [dict_get dict_set]. destruct (String.eqb key k) eqn:Ek.
    + exists v, fp. split; [reflexivity|]. split; [exact Ht|].
      split; [apply incl_appl, incl_refl|]. split; [exact Hn1|].
      intros h' v' fr' Ht' Hincl Hnd Hout.
      exists (fr' ++ fps)%list. split; [|split].
      * constructor; [exact Ht'|].
        apply (entries_frame h h' _ _ _ He).
        intros l Hl. apply Hout. intros Hin. exact (Hdis l Hin Hl).
      * apply incl_app; [apply incl_appl, Hincl|apply incl_appr, incl_refl].
      * apply NoDup_app; [exact Hnd|exact Hn2|].
        intros l Hl. apply Hdis. apply Hincl. exact Hl.
    + specialize (IH Hn2). destruct (dict_get key d) as [r0|]; [|exact IH].
      destruct IH as (v0 & fr & Hg & Ht0 & Hincl0 & Hnd0 & Hk).
      exists v0, fr. split; [exact Hg|]. split; [exact Ht0|].
      split; [apply incl_appr, Hincl0|]. split; [exact Hnd0|].
      intros h' v' fr' Ht' Hincl Hnd Hout.
      destruct (Hk h' v' fr' Ht' Hincl Hnd Hout) as (fp' & He' & Hi' & Hn').
      exists (fp ++ fp')%list. split; [|split].
      * constructor; [|exact He'].
        apply (tree_frame h h' _ _ _ Ht).
        intros l Hl. apply Hout. intros Hin.
        exact (Hdis l Hl (Hincl0 l Hin)).
      * apply incl_app; [apply incl_appl, incl_refl|apply incl_appr, Hi'].
      * exact (NoDup_app_sub fp fps fp' Hn Hi' Hn').
Qed.

Lemma store_same (h : objects.heap) (l : objects.loc)
      (d : list (string * objects.ref)) :
  objects.store h l d l = Some d.
Proof. unfold objects.store. now rewrite Nat.eqb_refl. Qed.

Lemma store_other (h : objects.heap) (l l' : objects.loc)
      (d : list (string * objects.ref)) :
  l' <> l -> objects.store h l d l' = h l'.
Proof.
  intros H. unfold objects.store. apply Nat.eqb_neq in H. now rewrite H.
Qed.

(** A leaf segment on an unshared dict. *)
Lemma remove_leaf_in_place (h : objects.heap) (l : objects.loc)
      (d : list (string * objects.ref)) (vd : pydict)
      (fp : list objects.loc) (key : string) :
  h l = Some d -> objects.entries h d vd fp -> NoDup (l :: fp) ->
  exists fp',
    objects.tree (objects._remove_path_parts h (objects.RDict l) [key])
                 (objects.RDict l)
                 (VDict (filter (fun kv => leaf_keeps key (fst kv)) vd)) fp'
    /\ incl fp' (l :: fp) /\ NoDup fp'
    /\ forall x, ~ In x (l :: fp) ->
         objects._remove_path_parts h (objects.RDict l) [key] x = h x.
Proof.
  intros Hl He Hn. inversion Hn as [|? ? Hnot Hnfp]; subst.
  destruct (entries_filter h (leaf_keeps key) d vd fp He)
    as (fp' & He' & Hincl & Hnd).
  specialize (Hnd Hnfp).
  assert (Hnew : forall h',
             h' l = Some (filter (fun kv => leaf_keeps key (fst kv)) d) ->
             (forall x, x <> l -> h' x = h x) ->
             objects.tree h' (objects.RDict l)
               (VDict (filter (fun kv => leaf_keeps key (fst kv)) vd))
               (l :: fp')
             /\ incl (l :: fp') (l :: fp) /\ NoDup (l :: fp')
             /\ forall x, ~ In x (l :: fp) -> h' x = h x).
  { intros h' Hh' Hout. split; [|split; [|split]].
    - econstructor; [exact Hh'|].
      apply (entries_frame h h' _ _ _ He').
      intros x Hx. apply Hout. intros ->. apply Hnot, Hincl, Hx.
    - intros x [<-|Hx]; [left; reflexivity|right; apply Hincl, Hx].
    - constructor; [|exact Hnd]. intros Hin. apply Hnot, Hincl, Hin.
    - intros x Hx. apply Hout. intros ->. apply Hx. left; reflexivity. }
  exists (l :: fp')%list.
  cbn [objects._remove_path_parts]. rewrite Hl.
  unfold leaf_keeps in *. destruct (is_glob key).
  - apply Hnew; [apply store_same|]. intros x Hx. now apply store_other.
  - destruct (dict_has key d) eqn:Eh.
    + apply Hnew; [apply store_same|]. intros x Hx. now apply store_other.
    + apply Hnew; [|reflexivity].
      rewrite Hl. f_equal. symmetry. now apply filter_key_absent.
Qed.

(** One removal on an unshared object: the heap after the in-place
    removal reads as the value the removal on values returns. *)
Lemma remove_parts_in_place (parts : list string) :
  forall (h : objects.heap) (r : objects.ref) (v : value)
         (fp : list objects.loc),
    objects.tree h r v fp -> NoDup fp ->
    exists fp',
      objects.tree (objects._remove_path_parts h r parts) r
                   (_remove_path_parts v parts) fp'
      /\ incl fp' fp /\ NoDup fp'
      /\ forall x, ~ In x fp -> objects._remove_path_parts h r parts x = h x.
Proof.
  induction parts as [|key rest IH]; intros h r v fp Ht Hn.
  - exists fp. replace (_remove_path_parts v []) with v
      by (destruct v; reflexivity).
    replace (objects._remove_path_parts h r []) with h by reflexivity.
    split; [exact Ht|]. split; [apply incl_refl|]. split; [exact Hn|].
    reflexivity.
  - inversion Ht as [| | | | |items vs fp0 Hts|l d vd fp0 Hl He]; subst;
      try (exists []; cbn; split; [constructor|];
           split; [apply incl_refl|]; split; [constructor|reflexivity]).
    + exists fp. cbn. split; [exact Ht|]. split; [apply incl_refl|].
      split; [exact Hn|reflexivity].
    + destruct rest as [|k2 rest].
      * rewrite remove_leaf.
        exact (remove_leaf_in_place h l d vd fp0 key Hl He Hn).
      * rewrite remove_descend. unfold descend.
        inversion Hn as [|? ? Hnot Hnfp]; subst.
        pose proof (entries_descend h key d vd fp0 He Hnfp) as Hd.
        cbn [objects._remove_path_parts]. rewrite Hl.
        destruct (dict_get key d) as [r0|] eqn:Eg.
        -- destruct Hd as (v0 & fr & Hg & Ht0 & Hincl0 & Hnd0 & Hk).
           rewrite Hg.
           destruct r0 as [|?|?|?|?|?|sub];
             try (inversion Ht0; subst; exists (l :: fp0)%list;
                  split; [exact Ht|]; split; [apply incl_refl|];
                  split; [exact Hn|reflexivity]).
           assert (Hv0 : exists vsub, v0 = VDict vsub)
             by (inversion Ht0; subst; eexists; reflexivity).
           destruct Hv0 as [vsub ->].
           destruct (IH h (objects.RDict sub) (VDict vsub) fr Ht0 Hnd0)
             as (fr' & Ht' & Hincl' & Hnd' & Hout').
           destruct (Hk _ _ fr' Ht' Hincl' Hnd' Hout')
             as (fp' & He' & Hi' & Hn').
           exists (l :: fp')%list. split; [|split; [|split]].
           ++ econstructor; [|exact He'].
              rewrite Hout'; [exact Hl|].
              intros Hin. apply Hnot, Hincl0, Hin.
           ++ intros x [<-|Hx]; [left; reflexivity|right; apply Hi', Hx].
           ++ constructor; [|exact Hn']. intros Hin. apply Hnot, Hi', Hin.
           ++ intros x Hx. apply Hout'. intros Hin. apply Hx.
              right. apply Hincl0, Hin.
        -- rewrite Hd. exists (l :: fp0)%list.
           split; [exact Ht|]. split; [apply incl_refl|].
           split; [exact Hn|reflexivity].
Qed.

(** The loop of [strip_noise] on an unshared object. *)
Lemma strip_noise_in_place (result : objects.ref) (visited : list string) :
  forall (h : objects.heap) (body : value),
    objects.unshared h result body ->
    objects.unshared (objects.strip_noise h result visited) result
                     (fold_left _remove_path visited body).
Proof.
  unfold objects.strip_noise.
  induction visited as [|p visited IH]; intros h body Hu; [exact Hu|].
  cbn [fold_left]. apply IH.
  destruct Hu as (fp & Ht & Hn).
  destruct (remove_parts_in_place (_split_dot_path p) h result body fp Ht Hn)
    as (fp' & Ht' & _ & Hn' & _).
  exists fp'. split; assumption.
Qed.

(** X4.  On a body that shares no dict, [strip_noise] returns the same
    body whatever the order in which the loop visits the set of noise
    paths and however often a path is repeated: the stripped copy
    reads as the one value that removing the default paths and then
    the extra ones from the body's value gives, and it still shares no
    dict. *)
Theorem strip_noise_in_place_any_order
        (h : objects.heap) (result : objects.ref) (body : value)
        (extra_ignores : option (list string)) (visited : list string) :
  objects.unshared h result body ->
  (forall p, In p visited <->
             In p (NOISE_PATHS ++ or_empty extra_ignores)%list) ->
  objects.unshared (objects.strip_noise h result visited) result
                   (strip_noise body extra_ignores)
  /\ forall v fp,
       objects.tree (objects.strip_noise h result visited) result v fp ->
       v = strip_noise body extra_ignores.
Proof.
  intros Hu Hsame.
  pose proof (strip_noise_in_place result visited h body Hu) as Hs.
  rewrite (strip_noise_any_order body extra_ignores visited Hsame) in Hs.
  split; [exact Hs|].
  intros v fp Hv. destruct Hs as (fp' & Ht & _).
  exact (tree_functional _ _ _ _ _ _ Hv Ht).
Qed.

(** X16.  On a body that shares no dict, noise stripping touches
    nothing outside the mappings its paths name: with the default
    paths every top-level key other than [metadata] and [status] keeps
    its value, and so it does with extra ignore paths that start with
    another key (a one-segment extra path being no glob pattern). *)
Theorem strip_noise_in_place_keeps_other_keys
        (h : objects.heap) (result : objects.ref) (d : pydict)
        (extra_ignores : option (list string)) (visited : list string)
        (k : string) :
  objects.unshared h result (VDict d) ->
  (forall p, In p visited <->
             In p (NOISE_PATHS ++ or_empty extra_ignores)%list) ->
  k <> "metadata" -> k <> "status" ->
  (forall p, In p (or_empty extra_ignores) ->
     exists key rest, _split_dot_path p = key :: rest /\ k <> key
                      /\ (rest <> [] \/ is_glob key = false)) ->
  exists d',
    objects.unshared (objects.strip_noise h result visited) result (VDict d')
    /\ dict_get k d' = dict_get k d.
Proof.
  intros Hu Hsame Hm Hs Hextra.
  pose proof (strip_noise_in_place result visited h (VDict d) Hu) as Hr.
  rewrite (strip_noise_any_order (VDict d) extra_ignores visited Hsame) in Hr.
  destruct (strip_noise_keeps_other_keys d extra_ignores k Hm Hs Hextra)
    as (d' & Hd' & Hk).
  exists d'. rewrite <- Hd'. split; [exact Hr|exact Hk].
Qed.
End ObjectFacts.

Ltac read_object :=
  repeat first
    [ eapply objects.tree_dict; [vm_compute; reflexivity|]
    | econstructor ].

Ltac no_repeats :=
  cbn [app]; repeat constructor; cbn [In];
  intuition discriminate.

Lemma strip_noise_in_place_any_order_witness :
  let rt := noise_only.rt in
  let extra_ignores := Some ["metadata.labels"] in
  let visited := ("metadata.labels" :: rev NOISE_PATHS)%list in
  objects.unshared objects.own_labels.h objects.own_labels.result
                   objects.shared_labels.body
  /\ (forall p, In p visited <->
                In p (NOISE_PATHS ++ or_empty extra_ignores)%list)
  /\ objects.unshared
       (objects.strip_noise objects.own_labels.h objects.own_labels.result
                            visited)
       objects.own_labels.result
       (VDict [ ("metadata", VDict []);
                ("spec", VDict [ ("selector",
                   VDict [ ("helm.sh/chart", VStr "shop-1.0");
                           ("app", VStr "shop") ]) ]) ]).
Proof.
  cbv zeta.
  assert (Hu : objects.unshared objects.own_labels.h
                 objects.own_labels.result objects.shared_labels.body).
  { eexists. split; [read_object|no_repeats]. }
  assert (Hsame : forall p,
             In p ("metadata.labels" :: rev NOISE_PATHS)%list <->
             In p (NOISE_PATHS ++ or_empty (Some ["metadata.labels"]))%list).
  { intros p. cbn [or_empty]. rewrite in_app_iff. cbn [In].
    rewrite <- in_rev. tauto. }
  split; [exact Hu|]. split; [exact Hsame|].
  exact (proj1 (@strip_noise_in_place_any_order noise_only.rt
                  objects.own_labels.h objects.own_labels.result
                  objects.shared_labels.body (Some ["metadata.labels"])
                  ("metadata.labels" :: rev NOISE_PATHS)%list Hu Hsame)).
Defined.

(** With a shared dict the order matters.  In [shared_labels] the
    labels are also the selector; with the extra path
    [metadata.labels], the selector keeps its chart label when that
    path is visited first and loses it when it is visited last. *)
Lemma shared_labels_order_matters :
  let rt := noise_only.rt in
  let h := objects.shared_labels.h in
  let result := objects.shared_labels.result in
  (exists fp, objects.tree h result objects.shared_labels.body fp)
  /\ (exists fp,
        objects.tree
          (objects.strip_noise h result ("metadata.labels" :: NOISE_PATHS))
          result
          (VDict [ ("metadata", VDict []);
                   ("spec", VDict [ ("selector",
                      VDict [ ("helm.sh/chart", VStr "shop-1.0");
                              ("app", VStr "shop") ]) ]) ])
          fp)
  /\ (exists fp,
        objects.tree
          (objects.strip_noise h result
                               (NOISE_PATHS ++ ["metadata.labels"])%list)
          result
          (VDict [ ("metadata", VDict []);
                   ("spec", VDict [ ("selector",
                      VDict [ ("app", VStr "shop") ]) ]) ])
          fp).
Proof.
  cbv zeta. split; [|split]; eexists; read_object.
Qed.

Lemma strip_noise_in_place_keeps_other_keys_witness :
  let rt := noise_only.rt in
  objects.unshared objects.own_labels.h objects.own_labels.result
                   objects.shared_labels.body
  /\ exists d',
       objects.unshared
         (objects.strip_noise objects.own_labels.h objects.own_labels.result
                              (rev NOISE_PATHS))
         objects.own_labels.result (VDict d')
       /\ dict_get "spec" d'
          = Some (VDict [ ("selector",
                    VDict [ ("helm.sh/chart", VStr "shop-1.0");
                            ("app", VStr "shop") ]) ]).
Proof.
  cbv zeta.
  assert (Hu : objects.unshared objects.own_labels.h
                 objects.own_labels.result objects.shared_labels.body).
  { eexists. split; [read_object|no_repeats]. }
  split; [exact Hu|].
  apply (@strip_noise_in_place_keeps_other_keys noise_only.rt
           objects.own_labels.h objects.own_labels.result _ None
           (rev NOISE_PATHS) "spec" Hu).
  - intros p. cbn [or_empty]. rewrite app_nil_r. symmetry. apply in_rev.
  - discriminate.
  - discriminate.
  - intros p [].
Defined.

(** With a shared dict a default path reaches outside [metadata]: in
    [shared_labels] the path of the chart label changes the value
    under the top-level key [spec]. *)
Lemma shared_labels_lose_an_outside_key :
  let rt := noise_only.rt in
  let h := objects.shared_labels.h in
  let result := objects.shared_labels.result in
  exists fp,
    objects.tree
      (objects.strip_noise h result NOISE_PATHS) result
      (VDict [ ("metadata", VDict [ ("labels",
                  VDict [ ("app", VStr "shop") ]) ]);
               ("spec", VDict [ ("selector",
                  VDict [ ("app", VStr "shop") ]) ]) ])
      fp.
Proof.
  cbv zeta. eexists. read_object.
Qed.

(** ** Dot paths *)

Lemma split_unescaped_escaped (s : string) :
  forall prev_bs cur rest,
    no_backslash s ->
    split_unescaped prev_bs cur (escape_dots s ++ rest) =
    split_unescaped (match s with EmptyString => prev_bs | _ => false end)
                    (cur ++ escape_dots s) rest.
Proof.
  unfold no_backslash.
  induction s as [|c s IH]; intros prev_bs cur rest Hs.
  - simpl. rewrite append_nil_r. reflexivity.
  - cbn [has_char] in Hs. apply orb_false_iff in Hs. destruct Hs as [Hc Hs].
    cbn [escape_dots]. destruct (Ascii.eqb_spec c ".") as [->|Hdot].
    + cbn [String.append split_unescaped].
      replace (Ascii.eqb backslash ".") with false by reflexivity.
      cbn [andb]. rewrite !Ascii.eqb_refl. cbn [negb andb].
      replace (Ascii.eqb "." backslash) with false by reflexivity.
      rewrite IH by exact Hs. rewrite !append_assoc. cbn [String.append].
      destruct s; reflexivity.
    + cbn [String.append split_unescaped].
      apply Ascii.eqb_neq in Hdot. rewrite Hdot. cbn [andb].
      rewrite (Ascii.eqb_sym c backslash), Hc.
      rewrite IH by exact Hs. rewrite !append_assoc. cbn [String.append].
      destruct s; reflexivity.
Qed.

Lemma split_unescaped_join (parts : list string) :
  parts <> [] -> Forall no_backslash parts ->
  split_unescaped false EmptyString (join "." (map escape_dots parts)) =
  map escape_dots parts.
Proof.
  induction parts as [|p parts IH]; intros Hne Hall; [contradiction|].
  inversion Hall as [|? ? Hp Hrest]; subst.
  destruct parts as [|q parts].
  - cbn [map join]. rewrite <- (append_nil_r (escape_dots p)) at 1.
    rewrite split_unescaped_escaped by exact Hp. reflexivity.
  - cbn [map join]. cbn [map] in IH.
    rewrite split_unescaped_escaped by exact Hp.
    cbn [String.append split_unescaped].
    replace (match p with EmptyString => false | String _ _ => false end)
      with false by (destruct p; reflexivity).
    cbn [Ascii.eqb Bool.eqb andb negb]. f_equal.
    apply IH; [discriminate|exact Hrest].
Qed.

Lemma unescape_fuel (p : string) :
  forall fuel,
    no_backslash p -> (String.length (escape_dots p) <= fuel)%nat ->
    replace_fuel fuel (bs ++ ".") "." (escape_dots p) = p.
Proof.
  unfold no_backslash.
  induction p as [|c p IH]; intros fuel Hp Hfuel.
  - destruct fuel; reflexivity.
  - cbn [has_char] in Hp. apply orb_false_iff in Hp. destruct Hp as [Hc Hp].
    cbn [escape_dots] in *. destruct (Ascii.eqb_spec c ".") as [->|Hdot].
    + destruct fuel as [|fuel]; [simpl in Hfuel; lia|].
      cbn [replace_fuel]. 
      replace (String.prefix (bs ++ ".")
                 (String backslash (String "." (escape_dots p))))
        with true
        by (symmetry; apply prefix_iff; exists (escape_dots p); reflexivity).
      replace (drop (String.length (bs ++ "."))
                 (String backslash (String "." (escape_dots p))))
        with (escape_dots p) by reflexivity.
      rewrite IH; [reflexivity|exact Hp|simpl in Hfuel; lia].
    + destruct fuel as [|fuel]; [simpl in Hfuel; lia|].
      cbn [replace_fuel].
      replace (String.prefix (bs ++ ".") (String c (escape_dots p)))
        with false.
      * rewrite IH; [reflexivity|exact Hp|simpl in Hfuel; lia].
      * symmetry. apply not_true_is_false. intros Hpre.
        apply prefix_iff in Hpre. destruct Hpre as [post Hpost].
        injection Hpost as -> _. rewrite Ascii.eqb_refl in Hc. discriminate.
Qed.

Lemma unescape_plain (s : string) :
  forall fuel, no_backslash s -> replace_fuel fuel (bs ++ ".") "." s = s.
Proof.
  unfold no_backslash.
  induction s as [|c s IH]; intros fuel Hs.
  - destruct fuel; reflexivity.
  - cbn [has_char] in Hs. apply orb_false_iff in Hs. destruct Hs as [Hc Hs].
    destruct fuel as [|fuel]; [reflexivity|].
    cbn [replace_fuel].
    replace (String.prefix (bs ++ ".") (String c s)) with false.
    + rewrite IH by exact Hs. reflexivity.
    + symmetry. apply not_true_is_false. intros Hpre.
      apply prefix_iff in Hpre. destruct Hpre as [post Hpost].
      injection Hpost as -> _. rewrite Ascii.eqb_refl in Hc. discriminate.
Qed.

Lemma split_plain (p : string) :
  forall cur,
    no_backslash cur -> no_backslash p ->
    map (replace (bs ++ ".") ".") (split_unescaped false cur p) =
    split_dots cur p.
Proof.
  unfold no_backslash.
  induction p as [|c p IH]; intros cur Hcur Hp.
  - simpl. unfold replace. cbn [bs String.append].
    rewrite (unescape_plain cur _ Hcur). reflexivity.
  - cbn [has_char] in Hp. apply orb_false_iff in Hp. destruct Hp as [Hc Hp].
    cbn [split_unescaped split_dots]. cbn [negb]. rewrite andb_true_r.
    destruct (Ascii.eqb c ".").
    + cbn [map]. f_equal.
      * unfold replace. cbn [bs String.append].
        apply (unescape_plain cur _ Hcur).
      * apply IH; [reflexivity|exact Hp].
    + replace (Ascii.eqb c backslash) with false
        by (rewrite Ascii.eqb_sym; symmetry; exact Hc).
      apply IH; [|exact Hp].
      rewrite has_char_app, Hcur. cbn [has_char orb]. rewrite Hc. reflexivity.
Qed.

(** X17.  Dot paths read back: a non-empty list of keys without a
    backslash, written with a backslash before each dot of a key and
    joined with dots, splits into exactly those keys (dots inside a key
    included); and on a path without any backslash [_split_dot_path]
    is the plain split at every dot. *)
Theorem _split_dot_path_reads_escaped_keys :
  (forall parts,
      parts <> [] -> Forall no_backslash parts ->
      _split_dot_path (join "." (map escape_dots parts)) = parts)
  /\ (forall path,
         no_backslash path ->
         _split_dot_path path = split_dots EmptyString path).
Proof.
  split.
  - intros parts Hne Hall. unfold _split_dot_path.
    rewrite (split_unescaped_join parts Hne Hall), map_map.
    rewrite <- (map_id parts) at 2. apply map_ext_in.
    intros p Hp. unfold replace. cbn [bs String.append].
    apply unescape_fuel; [|lia].
    exact (proj1 (Forall_forall _ _) Hall p Hp).
  - intros path Hp. unfold _split_dot_path.
    apply split_plain; [reflexivity|exact Hp].
Qed.

Lemma _split_dot_path_reads_escaped_keys_witness :
  let parts := ["metadata"; "annotations"; "meta.helm.sh/*"] in
  parts <> [] /\ Forall no_backslash parts
  /\ In (join "." (map escape_dots parts)) NOISE_PATHS
  /\ _split_dot_path (join "." (map escape_dots parts)) = parts.
Proof.
  assert (H : Forall no_backslash
                     ["metadata"; "annotations"; "meta.helm.sh/*"])
    by (repeat constructor).
  split; [discriminate|]. split; [exact H|].
  split; [do 5 right; left; reflexivity|].
  exact (proj1 _split_dot_path_reads_escaped_keys
               ["metadata"; "annotations"; "meta.helm.sh/*"]
               ltac:(discriminate) H).
Defined.
(** ** Key sorting *)

Lemma leb_trans (a : string) :
  forall b c, String.leb a b = true -> String.leb b c = true ->
              String.leb a c = true.
Proof.
  unfold String.leb.
  induction a as [|x a IH]; intros b c Hab Hbc.
  - destruct c; reflexivity.
  - destruct b as [|y b]; [discriminate|].
    destruct c as [|z c]; [discriminate|].
    cbn [String.compare] in *. unfold Ascii.compare in *.
    destruct (N.compare_spec (N_of_ascii x) (N_of_ascii y)) as [Exy|Lxy|Gxy];
      try discriminate;
      destruct (N.compare_spec (N_of_ascii y) (N_of_ascii z)) as [Eyz|Lyz|Gyz];
      try discriminate.
    + rewrite Exy, Eyz, N.compare_refl. exact (IH b c Hab Hbc).
    + rewrite Exy. rewrite (proj2 (N.compare_lt_iff _ _) Lyz). reflexivity.
    + rewrite <- Eyz. rewrite (proj2 (N.compare_lt_iff _ _) Lxy). reflexivity.
    + rewrite (proj2 (N.compare_lt_iff _ _) (N.lt_trans _ _ _ Lxy Lyz)).
      reflexivity.
Qed.

Lemma leb_false_le (a b : string) :
  String.leb a b = false -> String.leb b a = true.
Proof.
  intros H. destruct (String.leb_total a b) as [H'|H']; [congruence|exact H'].
Qed.

Lemma leb_refl (a : string) : String.leb a a = true.
Proof. destruct (String.leb_total a a); assumption. Qed.

Lemma insert_item_in {A : Type} (kv x : string * A) (l : list (string * A)) :
  In x (insert_item kv l) <-> x = kv \/ In x l.
Proof.
  induction l as [|y l IH]; simpl.
  - intuition congruence.
  - destruct (String.leb (fst kv) (fst y)); simpl;
      rewrite ?IH; intuition congruence.
Qed.

Lemma insert_item_perm {A : Type} (kv : string * A) (l : list (string * A)) :
  Permutation (kv :: l) (insert_item kv l).
Proof.
  induction l as [|y l IH]; simpl; [apply Permutation_refl|].
  destruct (String.leb (fst kv) (fst y)); [apply Permutation_refl|].
  eapply Permutation_trans; [apply perm_swap|]. apply perm_skip. exact IH.
Qed.

Lemma sorted_items_perm {A : Type} (l : list (string * A)) :
  Permutation l (sorted_items l).
Proof.
  induction l as [|x l IH]; simpl; [constructor|].
  eapply Permutation_trans; [apply perm_skip; exact IH|].
  apply insert_item_perm.
Qed.

Lemma ascending_cons (k : string) (l : list string) :
  ascending (k :: l) =
  match l with
  | [] => true
  | k' :: _ => String.leb k k' && ascending l
  end.
Proof. destruct l; reflexivity. Qed.

Lemma insert_item_ascending {A : Type} (kv : string * A)
      (l : list (string * A)) :
  ascending (keys l) = true -> ascending (keys (insert_item kv l)) = true.
Proof.
  induction l as [|y l IH]; intros H; [reflexivity|].
  cbn [insert_item]. destruct (String.leb (fst kv) (fst y)) eqn:E.
  - cbn [keys map] in *. rewrite ascending_cons, E. exact H.
  - cbn [keys map] in *. rewrite ascending_cons in H.
    rewrite ascending_cons.
    destruct l as [|z l].
    + cbn. rewrite (leb_false_le _ _ E). reflexivity.
    + cbn [map] in H. apply andb_true_iff in H. destruct H as [Hyz Hl].
      specialize (IH Hl). cbn [insert_item] in *.
      destruct (String.leb (fst kv) (fst z)) eqn:E2.
      * cbn [map]. rewrite (leb_false_le _ _ E). exact IH.
      * cbn [map]. rewrite Hyz. exact IH.
Qed.

Lemma sorted_items_ascending {A : Type} (l : list (string * A)) :
  ascending (keys (sorted_items l)) = true.
Proof.
  induction l as [|x l IH]; [reflexivity|].
  simpl. apply insert_item_ascending. exact IH.
Qed.

Lemma ascending_tail (k : string) (l : list string) :
  ascending (k :: l) = true -> ascending l = true.
Proof.
  rewrite ascending_cons. destruct l; [reflexivity|].
  intros H. apply andb_true_iff in H. exact (proj2 H).
Qed.

Lemma sorted_items_fixed {A : Type} (l : list (string * A)) :
  ascending (keys l) = true -> sorted_items l = l.
Proof.
  induction l as [|x l IH]; intros H; [reflexivity|].
  cbn [sorted_items fold_right]. fold (sorted_items l).
  cbn [keys map] in H. rewrite (IH (ascending_tail _ _ H)).
  destruct l as [|y l]; [reflexivity|].
  cbn [map] in H. rewrite ascending_cons in H.
  apply andb_true_iff in H. cbn [insert_item]. rewrite (proj1 H). reflexivity.
Qed.

Lemma insert_item_comm {A : Type} (a b : string * A)
      (l : list (string * A)) :
  fst a <> fst b ->
  insert_item a (insert_item b l) = insert_item b (insert_item a l).
Proof.
  intros Hne. induction l as [|y l IH].
  - cbn [insert_item].
    destruct (String.leb (fst a) (fst b)) eqn:Eab;
      destruct (String.leb (fst b) (fst a)) eqn:Eba; try reflexivity.
    + contradiction Hne. apply String.leb_antisym; assumption.
    + apply leb_false_le in Eab. congruence.
  - cbn [insert_item].
    destruct (String.leb (fst b) (fst y)) eqn:Eby;
      destruct (String.leb (fst a) (fst y)) eqn:Eay; cbn [insert_item];
      rewrite ?Eby, ?Eay.
    + destruct (String.leb (fst a) (fst b)) eqn:Eab;
        destruct (String.leb (fst b) (fst a)) eqn:Eba; try reflexivity.
      * contradiction Hne. apply String.leb_antisym; assumption.
      * apply leb_false_le in Eab. congruence.
    + destruct (String.leb (fst a) (fst b)) eqn:Eab.
      * rewrite (leb_trans _ _ _ Eab Eby) in Eay. discriminate.
      * reflexivity.
    + destruct (String.leb (fst b) (fst a)) eqn:Eba.
      * rewrite (leb_trans _ _ _ Eba Eay) in Eby. discriminate.
      * reflexivity.
    + rewrite IH. reflexivity.
Qed.

Lemma sorted_items_permutation {A : Type} (l l' : list (string * A)) :
  Permutation l l' -> NoDup (keys l) -> sorted_items l = sorted_items l'.
Proof.
  induction 1 as [|x l l' Hp IH|x y l|l l' l'' Hp1 IH1 Hp2 IH2]; intros Hnd.
  - reflexivity.
  - cbn. inversion Hnd; subst. fold (sorted_items l) (sorted_items l').
    rewrite IH by assumption. reflexivity.
  - cbn. fold (sorted_items l). apply insert_item_comm.
    cbn in Hnd. inversion Hnd as [|? ? Hnotin _]; subst.
    intros Heq. apply Hnotin. left. symmetry. exact Heq.
  - rewrite IH1 by exact Hnd. apply IH2.
    unfold keys. eapply Permutation_NoDup; [|exact Hnd].
    apply Permutation_map. exact Hp1.
Qed.
Lemma sort_dict (d : pydict) :
  _sort_keys_recursive (VDict d) = VDict (sorted_items (map sort_entry d)).
Proof.
  cbn [_sort_keys_recursive]. do 2 f_equal.
  induction d as [|[k v] d IH]; [reflexivity|].
  cbn [map]. rewrite <- IH. reflexivity.
Qed.

Lemma sort_list (l : list value) :
  _sort_keys_recursive (VList l) = VList (map _sort_keys_recursive l).
Proof.
  reflexivity.
Qed.

Lemma reordered_dict (da db : pydict) :
  reordered (VDict da) (VDict db) <->
  List.length da = List.length db
  /\ forall k x, In (k, x) da ->
                 exists y, dict_get k db = Some y /\ reordered x y.
Proof.
  cbn [reordered]. apply and_iff_compat_l.
  induction da as [|[k0 x0] da IH].
  - split; [intros _ k x []|intros _; exact I].
  - rewrite IH. split.
    + intros [H0 H] k x [Heq|Hin].
      * inversion Heq; subst.
        destruct (dict_get k db) as [y|]; [|contradiction].
        exists y. split; [reflexivity|exact H0].
      * exact (H k x Hin).
    + intros H. split.
      * destruct (H k0 x0 (or_introl eq_refl)) as (y & -> & Hy). exact Hy.
      * intros k x Hin. exact (H k x (or_intror Hin)).
Qed.

Lemma reordered_list (la lb : list value) :
  reordered (VList la) (VList lb) <-> Forall2 reordered la lb.
Proof.
  cbn [reordered]. revert lb.
  induction la as [|x la IH]; intros [|y lb].
  - split; [constructor|intros _; exact I].
  - split; [contradiction|intros H; inversion H].
  - split; [contradiction|intros H; inversion H].
  - rewrite IH. split.
    + intros [H0 H]. constructor; assumption.
    + intros H. inversion H; subst. split; assumption.
Qed.

Lemma wf_dict_iff (d : pydict) :
  wf_value (VDict d) <->
  NoDup (keys d) /\ forall k x, In (k, x) d -> wf_value x.
Proof.
  cbn [wf_value]. apply and_iff_compat_l.
  induction d as [|[k0 x0] d IH].
  - split; [intros _ k x []|intros _; exact I].
  - rewrite IH. split.
    + intros [H0 H] k x [Heq|Hin]; [inversion Heq; subst; exact H0|].
      exact (H k x Hin).
    + intros H. split; [exact (H k0 x0 (or_introl eq_refl))|].
      intros k x Hin. exact (H k x (or_intror Hin)).
Qed.

Lemma wf_list_iff (l : list value) :
  wf_value (VList l) <-> forall x, In x l -> wf_value x.
Proof.
  cbn [wf_value]. induction l as [|x0 l IH].
  - split; [intros _ x []|intros _; exact I].
  - rewrite IH. split.
    + intros [H0 H] x [<-|Hin]; [exact H0|exact (H x Hin)].
    + intros H. split; [exact (H x0 (or_introl eq_refl))|].
      intros x Hin. exact (H x (or_intror Hin)).
Qed.

Lemma key_sorted_dict (d : pydict) :
  key_sorted (VDict d) <->
  ascending (keys d) = true /\ forall k x, In (k, x) d -> key_sorted x.
Proof.
  cbn [key_sorted]. apply and_iff_compat_l.
  induction d as [|[k0 x0] d IH].
  - split; [intros _ k x []|intros _; exact I].
  - rewrite IH. split.
    + intros [H0 H] k x [Heq|Hin]; [inversion Heq; subst; exact H0|].
      exact (H k x Hin).
    + intros H. split; [exact (H k0 x0 (or_introl eq_refl))|].
      intros k x Hin. exact (H k x (or_intror Hin)).
Qed.

Lemma key_sorted_list (l : list value) :
  key_sorted (VList l) <-> forall x, In x l -> key_sorted x.
Proof.
  cbn [key_sorted]. induction l as [|x0 l IH].
  - split; [intros _ x []|intros _; exact I].
  - rewrite IH. split.
    + intros [H0 H] x [<-|Hin]; [exact H0|exact (H x Hin)].
    + intros H. split; [exact (H x0 (or_introl eq_refl))|].
      intros x Hin. exact (H x (or_intror Hin)).
Qed.

Lemma keys_sort_entries (d : pydict) : keys (map sort_entry d) = keys d.
Proof. unfold keys. rewrite map_map. reflexivity. Qed.

Lemma NoDup_keys_NoDup {A : Type} (d : list (string * A)) :
  NoDup (keys d) -> NoDup d.
Proof. apply NoDup_map_inv. Qed.

Lemma keys_sorted_items_nodup (d : pydict) :
  NoDup (keys d) -> NoDup (keys (sorted_items (map sort_entry d))).
Proof.
  intros H. unfold keys at 1.
  eapply Permutation_NoDup;
    [apply Permutation_map, sorted_items_perm|].
  fold (keys (map sort_entry d)). rewrite keys_sort_entries. exact H.
Qed.

Lemma Forall2_map_eq {A B : Type} (R : A -> A -> Prop) (f : A -> B)
      (la lb : list A) :
  Forall2 R la lb ->
  (forall x y, In x la -> In y lb -> R x y -> f x = f y) ->
  map f la = map f lb.
Proof.
  induction 1 as [|x y la lb Hxy Hr IH]; intros Hf; [reflexivity|].
  cbn [map]. f_equal.
  - apply Hf; [left; reflexivity|left; reflexivity|exact Hxy].
  - apply IH. intros a b Ha Hb. apply Hf; right; assumption.
Qed.

Lemma sorted_entries_ignore_order (a : value) :
  forall b, wf_value a -> wf_value b -> reordered a b ->
            _sort_keys_recursive a = _sort_keys_recursive b.
Proof.
  induction a as [a IH] using value_height_ind.
  intros b Hwa Hwb Hr.
  destruct a as [|?|?|?|?|la|da];
    try (cbn [reordered] in Hr; subst b; reflexivity).
  - destruct b as [|?|?|?|?|lb|?]; try contradiction.
    apply reordered_list in Hr. rewrite !sort_list. f_equal.
    apply (Forall2_map_eq reordered); [exact Hr|].
    intros x y Hx Hy Hxy. apply IH.
    + exact (height_list_in x la Hx).
    + exact (proj1 (wf_list_iff la) Hwa x Hx).
    + exact (proj1 (wf_list_iff lb) Hwb y Hy).
    + exact Hxy.
  - destruct b as [|?|?|?|?|?|db]; try contradiction.
    apply reordered_dict in Hr. destruct Hr as [Hlen Hr].
    apply wf_dict_iff in Hwa. destruct Hwa as [Hnda Hwa].
    apply wf_dict_iff in Hwb. destruct Hwb as [Hndb Hwb].
    rewrite !sort_dict. f_equal.
    assert (E1 : map sort_entry da = map sort_entry (map (entry_in db) da)).
    { rewrite map_map. apply map_ext_in. intros [k x] Hin.
      unfold sort_entry, entry_in, get_or_none. cbn [fst snd].
      destruct (Hr k x Hin) as (y & Hy & Hxy). rewrite Hy. f_equal.
      apply IH.
      - exact (height_dict_in k x da Hin).
      - exact (Hwa k x Hin).
      - exact (Hwb k y (dict_get_in k db y Hy)).
      - exact Hxy. }
    rewrite E1. apply sorted_items_permutation.
    + apply Permutation_map. apply NoDup_Permutation_bis.
      * apply NoDup_keys_NoDup. unfold keys. rewrite map_map. exact Hnda.
      * rewrite length_map. lia.
      * intros [k y] Hin. apply in_map_iff in Hin.
        destruct Hin as ([k' x] & Heq & Hin). unfold entry_in in Heq.
        cbn [fst] in Heq. injection Heq as <- <-.
        destruct (Hr k' x Hin) as (y & Hy & _).
        unfold get_or_none. rewrite Hy. exact (dict_get_in k' db y Hy).
    + rewrite keys_sort_entries. unfold keys. rewrite map_map. exact Hnda.
Qed.

Lemma sort_is_key_sorted (v : value) : key_sorted (_sort_keys_recursive v).
Proof.
  induction v as [v IH] using value_height_ind.
  destruct v as [|?|?|?|?|l|d]; try exact I.
  - rewrite sort_list. apply key_sorted_list. intros x Hx.
    apply in_map_iff in Hx. destruct Hx as (y & <- & Hy).
    apply IH. exact (height_list_in y l Hy).
  - rewrite sort_dict. apply key_sorted_dict. split.
    + apply sorted_items_ascending.
    + intros k x Hin.
      apply (Permutation_in _ (Permutation_sym (sorted_items_perm _))) in Hin.
      apply in_map_iff in Hin. destruct Hin as ([k' y] & Heq & Hy).
      unfold sort_entry in Heq. cbn [fst snd] in Heq. injection Heq as <- <-.
      apply IH. exact (height_dict_in k' y d Hy).
Qed.

Lemma sort_fixes_key_sorted (v : value) :
  key_sorted v -> _sort_keys_recursive v = v.
Proof.
  induction v as [v IH] using value_height_ind.
  intros Hs. destruct v as [|?|?|?|?|l|d]; try reflexivity.
  - rewrite sort_list. f_equal. rewrite <- (map_id l) at 2.
    apply map_ext_in. intros x Hx. apply IH.
    + exact (height_list_in x l Hx).
    + exact (proj1 (key_sorted_list l) Hs x Hx).
  - apply key_sorted_dict in Hs. destruct Hs as [Hasc Hs].
    rewrite sort_dict. f_equal.
    replace (map sort_entry d) with d.
    + apply sorted_items_fixed. exact Hasc.
    + rewrite <- (map_id d) at 1. apply map_ext_in. intros [k x] Hin.
      unfold sort_entry. cbn [fst snd]. f_equal. symmetry. apply IH.
      * exact (height_dict_in k x d Hin).
      * exact (Hs k x Hin).
Qed.

Lemma sort_reorders (v : value) :
  wf_value v ->
  reordered v (_sort_keys_recursive v) /\ wf_value (_sort_keys_recursive v).
Proof.
  induction v as [v IH] using value_height_ind.
  intros Hw. destruct v as [|?|?|?|?|l|d];
    try (split; [reflexivity|exact I]).
  - rewrite sort_list. pose proof (proj1 (wf_list_iff l) Hw) as Hwl. split.
    + apply reordered_list.
      assert (Hl : forall x, In x l -> reordered x (_sort_keys_recursive x)).
      { intros x Hx. apply IH; [exact (height_list_in x l Hx)|exact (Hwl x Hx)]. }
      clear -Hl. induction l as [|x l IHl]; constructor.
      * apply Hl. left; reflexivity.
      * apply IHl. intros y Hy. apply Hl. right; exact Hy.
    + apply wf_list_iff. intros x Hx. apply in_map_iff in Hx.
      destruct Hx as (y & <- & Hy).
      apply IH; [exact (height_list_in y l Hy)|exact (Hwl y Hy)].
  - rewrite sort_dict. apply wf_dict_iff in Hw. destruct Hw as [Hnd Hw].
    pose proof (keys_sorted_items_nodup d Hnd) as Hnd'. split.
    + apply reordered_dict. split.
      * rewrite <- (Permutation_length (sorted_items_perm _)), length_map.
        reflexivity.
      * intros k x Hin. exists (_sort_keys_recursive x). split.
        -- apply dict_get_nodup; [exact Hnd'|].
           apply (Permutation_in _ (sorted_items_perm _)).
           apply in_map_iff. exists (k, x). split; [reflexivity|exact Hin].
        -- apply IH; [exact (height_dict_in k x d Hin)|exact (Hw k x Hin)].
    + apply wf_dict_iff. split; [exact Hnd'|].
      intros k x Hin.
      apply (Permutation_in _ (Permutation_sym (sorted_items_perm _))) in Hin.
      apply in_map_iff in Hin. destruct Hin as ([k' y] & Heq & Hy).
      unfold sort_entry in Heq. cbn [fst snd] in Heq. injection Heq as <- <-.
      apply IH; [exact (height_dict_in k' y d Hy)|exact (Hw k' y Hy)].
Qed.

Section SortFacts.
Context {rt : Runtime}.

(** X18.  Key sorting forgets the order of mapping entries: two
    well-formed values that differ at most in the order of the entries
    of their mappings, at any depth, have the same key-sorted form and
    hence the same normalized body. *)
Theorem _sort_keys_recursive_ignores_order (a b : value) :
  wf_value a -> wf_value b -> reordered a b ->
  _sort_keys_recursive a = _sort_keys_recursive b
  /\ normalize_body a = normalize_body b.
Proof.
  intros Ha Hb Hr.
  pose proof (sorted_entries_ignore_order a b Ha Hb Hr) as E.
  split; [exact E|]. unfold normalize_body. rewrite E. reflexivity.
Qed.
End SortFacts.

(** X19.  The key-sorted form is a normal form: every mapping of the
    result lists its keys in ascending order, a value in that form is
    left as it is (so sorting twice equals sorting once), and on a
    well-formed value sorting changes nothing but the order of mapping
    entries and keeps the keys distinct. *)
Theorem _sort_keys_recursive_normal_form (v : value) :
  key_sorted (_sort_keys_recursive v)
  /\ (key_sorted v -> _sort_keys_recursive v = v)
  /\ _sort_keys_recursive (_sort_keys_recursive v) = _sort_keys_recursive v
  /\ (wf_value v ->
      reordered v (_sort_keys_recursive v)
      /\ wf_value (_sort_keys_recursive v)).
Proof.
  split; [apply sort_is_key_sorted|].
  split; [apply sort_fixes_key_sorted|].
  split; [apply sort_fixes_key_sorted, sort_is_key_sorted|].
  apply sort_reorders.
Qed.

Lemma _sort_keys_recursive_ignores_order_witness :
  let rt := noise_only.rt in
  wf_value (VDict noise_only.upgrade_body)
  /\ wf_value (VDict noise_only.live_body_v200)
  /\ reordered (VDict noise_only.upgrade_body)
               (VDict noise_only.live_body_v200)
  /\ VDict noise_only.upgrade_body <> VDict noise_only.live_body_v200
  /\ normalize_body (VDict noise_only.upgrade_body)
     = normalize_body (VDict noise_only.live_body_v200).
Proof.
  assert (H1 : wf_value (VDict noise_only.upgrade_body)).
  { simpl. repeat split; repeat constructor; simpl; intuition discriminate. }
  assert (H2 : wf_value (VDict noise_only.live_body_v200)).
  { simpl. repeat split; repeat constructor; simpl; intuition discriminate. }
  assert (H3 : reordered (VDict noise_only.upgrade_body)
                         (VDict noise_only.live_body_v200)).
  { simpl. repeat split. }
  split; [exact H1|]. split; [exact H2|]. split; [exact H3|].
  split; [discriminate|].
  exact (proj2 (@_sort_keys_recursive_ignores_order noise_only.rt _ _
                  H1 H2 H3)).
Defined.

(** ** When the path conversion fails *)

Lemma scan_path_open_bracket (s : string) :
  forall result inner,
    engine.scan_path result inner s = Raised ValueError <->
    (inner <> None /\ has_char "]"%char s = false)
    \/ exists pre post, s = pre ++ String "["%char post
                        /\ has_char "]"%char post = false.
Proof.
  induction s as [|c s IH]; intros result inner.
  - cbn [engine.scan_path has_char]. split.
    + destruct inner; [|discriminate]. intros _. left.
      split; [discriminate|reflexivity].
    + intros [[Hi _]|(pre & post & H & _)].
      * destruct inner; [reflexivity|contradiction Hi; reflexivity].
      * destruct pre; discriminate H.
  - cbn [engine.scan_path has_char]. destruct inner as [acc|].
    + destruct (Ascii.eqb_spec c "]") as [->|Hc].
      * rewrite IH. cbn [orb]. split.
        -- intros [[Hi _]|(pre & post & -> & Hp)];
             [contradiction Hi; reflexivity|].
           right. exists (String "]" pre), post. split; [reflexivity|exact Hp].
        -- intros [[_ H]|(pre & post & H & Hp)]; [discriminate|].
           right. destruct pre as [|c' pre]; [discriminate H|].
           injection H as _ ->. exists pre, post. split; [reflexivity|exact Hp].
      * rewrite IH. apply Ascii.eqb_neq in Hc.
        rewrite (Ascii.eqb_sym "]" c), Hc. cbn [orb]. split.
        -- intros [[_ H]|(pre & post & -> & Hp)].
           ++ left. split; [discriminate|exact H].
           ++ right. exists (String c pre), post.
              split; [reflexivity|exact Hp].
        -- intros [[_ H]|(pre & post & H & Hp)].
           ++ left. split; [discriminate|exact H].
           ++ destruct pre as [|c' pre].
              ** injection H as -> ->. left. split; [discriminate|exact Hp].
              ** injection H as _ ->. right. exists pre, post.
                 split; [reflexivity|exact Hp].
    + destruct (Ascii.eqb_spec c "[") as [->|Hc].
      * rewrite IH. split.
        -- intros [[_ H]|(pre & post & -> & Hp)].
           ++ right. exists EmptyString, s. split; [reflexivity|exact H].
           ++ right. exists (String "[" pre), post.
              split; [reflexivity|exact Hp].
        -- intros [[Hi _]|(pre & post & H & Hp)];
             [contradiction Hi; reflexivity|].
           destruct pre as [|c' pre].
           ++ injection H as ->. left. split; [discriminate|exact Hp].
           ++ injection H as _ ->. right. exists pre, post.
              split; [reflexivity|exact Hp].
      * rewrite IH. split.
        -- intros [[Hi _]|(pre & post & -> & Hp)];
             [contradiction Hi; reflexivity|].
           right. exists (String c pre), post. split; [reflexivity|exact Hp].
        -- intros [[Hi _]|(pre & post & H & Hp)];
             [contradiction Hi; reflexivity|].
           right. destruct pre as [|c' pre].
           ++ injection H as -> _. contradiction Hc. reflexivity.
           ++ injection H as _ ->. exists pre, post.
              split; [reflexivity|exact Hp].
Qed.

Lemma scan_path_after_close (s : string) :
  forall result inner rest,
    exists result',
      engine.scan_path result inner (s ++ String "]"%char rest) =
      engine.scan_path result' None rest.
Proof.
  induction s as [|c s IH]; intros result inner rest.
  - cbn [String.append engine.scan_path]. destruct inner as [acc|].
    + eexists; reflexivity.
    + eexists; reflexivity.
  - cbn [String.append engine.scan_path]. destruct inner as [acc|].
    + destruct (Ascii.eqb c "]"); apply IH.
    + destruct (Ascii.eqb c "["); apply IH.
Qed.

Lemma segment_text_closed (seg : segment) :
  exists s, segment_text seg = s ++ String "]"%char EmptyString.
Proof.
  destruct seg as [k|i]; cbn [segment_text].
  - unfold reference.key_segment.
    exists ("[" ++ String (if has_char engine.quote k
                           then engine.dquote else engine.quote)
                          (k ++ String (if has_char engine.quote k
                                        then engine.dquote else engine.quote)
                                       EmptyString)).
    cbn [String.append]. f_equal. f_equal.
    rewrite append_assoc. reflexivity.
  - unfold reference.index_segment.
    exists ("[" ++ reference.digits_of (Z.of_nat i)).
    rewrite append_assoc. reflexivity.
Qed.

Lemma scan_path_segments_ok (segs : list segment) :
  forall result,
    exists dot,
      engine.scan_path result None (join_empty (map segment_text segs)) =
      Ok dot.
Proof.
  induction segs as [|seg segs IH]; intros result.
  - exists result. reflexivity.
  - cbn [map join_empty fold_right].
    fold (join_empty (map segment_text segs)).
    destruct (segment_text_closed seg) as [s ->].
    rewrite append_assoc. cbn [String.append].
    destruct (scan_path_after_close s result None
                (join_empty (map segment_text segs))) as [result' ->].
    apply IH.
Qed.

(** X20.  The path conversion fails exactly on an open bracket: it
    raises [ValueError] when, after the first [root] is removed, some
    ["["] has no ["]"] after it, and returns a path otherwise; no other
    exception leaves it.  On every path DeepDiff writes, whatever
    characters its keys hold, it returns a path. *)
Theorem path_conversion_fails_on_open_bracket :
  (forall path,
      engine._deepdiff_path_to_dot path = Raised ValueError <->
      exists pre post,
        replace_first "root" EmptyString path = pre ++ String "["%char post
        /\ has_char "]"%char post = false)
  /\ (forall path e,
         engine._deepdiff_path_to_dot path = Raised e -> e = ValueError)
  /\ (forall segs,
         exists dot, engine._deepdiff_path_to_dot (deepdiff_path segs) = Ok dot)
  /\ engine._deepdiff_path_to_dot "root['spec'][0" = Raised ValueError
  /\ engine._deepdiff_path_to_dot "spec.replicas" = Ok EmptyString.
Proof.
  split; [|split; [|split; [|split; reflexivity]]].
  - intros path. unfold engine._deepdiff_path_to_dot.
    rewrite scan_path_open_bracket. split.
    + intros [[H _]|H]; [contradiction H; reflexivity|exact H].
    + intros H. right. exact H.
  - intros path e H. exact (scan_path_raises _ _ _ _ H).
  - intros segs. unfold engine._deepdiff_path_to_dot, deepdiff_path.
    replace (replace_first "root" EmptyString
               ("root" ++ join_empty (map segment_text segs)))
      with (join_empty (map segment_text segs)).
    + apply scan_path_segments_ok.
    + cbn [String.append replace_first].
      replace (String.prefix "root"
                 (String "r" (String "o" (String "o" (String "t"
                    (join_empty (map segment_text segs)))))))
        with true
        by (destruct (join_empty (map segment_text segs)); reflexivity).
      reflexivity.
Qed.
(** ** Further properties of the risk rules *)

Section RiskMore.
Context {rt : Runtime}.
Import engine risk.

Lemma first_prefix_existsb {A : Type} (p : string) (prefixes : list string)
      (hit : A) :
  first_prefix p prefixes hit =
  if existsb (startswith p) prefixes then [hit] else [].
Proof.
  induction prefixes as [|q prefixes IH]; [reflexivity|].
  cbn [first_prefix existsb]. destruct (startswith p q); [reflexivity|exact IH].
Qed.

(** What every annotation of a record looks like. *)
Lemma rules_shape (c : ChangeRecord) (a : RiskAnnotation) :
  In a (flat_map (fun rule => rule c) RISK_RULES) ->
  level a <> SAFE
  /\ In (rule a) [ "immutable_field"; "service_type_change";
                   "pvc_storage_change"; "pvc_storage_class_change";
                   "resource_deleted"; "crd_spec_change"; "rbac_change" ]
  /\ ((rule a = "resource_deleted" /\ risk.path a = EmptyString
       /\ engine.status c = manifest.removed)
      \/ exists fc, In fc (changes c) /\ risk.path a = engine.path fc).
Proof.
  unfold RISK_RULES. cbn [flat_map]. rewrite app_nil_r. intros H.
  repeat (apply in_app_or in H; destruct H as [H|H]).
  - unfold check_immutable_fields in H. apply in_flat_map in H.
    destruct H as (fc & Hfc & H). apply in_flat_map in H.
    destruct H as (imm & _ & H).
    destruct (startswith (engine.path fc) imm); [|contradiction].
    destruct H as [<-|[]]. cbn. split; [discriminate|].
    split; [tauto|]. right. exists fc. split; [exact Hfc|reflexivity].
  - unfold check_service_type_change in H.
    destruct (negb (String.eqb (kind c) "Service")); [contradiction|].
    apply in_flat_map in H. destruct H as (fc & Hfc & H).
    destruct (String.eqb (engine.path fc) "spec.type"); [|contradiction].
    destruct H as [<-|[]]. unfold service_annotation. cbn.
    split; [destruct (_ && _); discriminate|].
    split; [tauto|]. right. exists fc. split; [exact Hfc|reflexivity].
  - unfold check_pvc_changes in H.
    destruct (negb (String.eqb (kind c) "PersistentVolumeClaim"));
      [contradiction|].
    apply in_flat_map in H. destruct H as (fc & Hfc & H).
    apply in_app_or in H. destruct H as [H|H].
    + destruct (_ && _); [|contradiction]. destruct H as [<-|[]]. cbn.
      split; [discriminate|]. split; [tauto|].
      right. exists fc. split; [exact Hfc|reflexivity].
    + destruct (String.eqb _ _); [|contradiction]. destruct H as [<-|[]]. cbn.
      split; [discriminate|]. split; [tauto|].
      right. exists fc. split; [exact Hfc|reflexivity].
  - unfold check_resource_deletion in H.
    destruct (engine.status c) eqn:Es; try contradiction.
    destruct H as [<-|[]]. cbn. split; [discriminate|]. split; [tauto|].
    left. repeat split.
  - unfold check_crd_changes in H.
    destruct (negb (String.eqb (kind c) "CustomResourceDefinition"));
      [contradiction|].
    apply in_flat_map in H. destruct H as (fc & Hfc & H).
    rewrite first_prefix_existsb in H.
    destruct (existsb _ _); [|contradiction]. destruct H as [<-|[]]. cbn.
    split; [discriminate|]. split; [tauto|].
    right. exists fc. split; [exact Hfc|reflexivity].
  - unfold check_rbac_escalation in H.
    destruct (negb _); [contradiction|].
    apply in_flat_map in H. destruct H as (fc & Hfc & H).
    destruct (startswith _ _); [|contradiction]. destruct H as [<-|[]]. cbn.
    split; [discriminate|]. split; [tauto|].
    right. exists fc. split; [exact Hfc|reflexivity].
Qed.

(** X21.  [assess_risk] returns one entry per change record, in order,
    and every annotation is a warning or a danger (never [SAFE]) of one
    of the seven rule names; its path is the path of a field change of
    the record, except for the deletion warning, whose path is empty
    and whose record is a removal. *)
Theorem risk_annotations_shape (crs : list ChangeRecord)
        (c : ChangeRecord) (anns : list RiskAnnotation) :
  In (c, anns) (assess_risk crs) ->
  map fst (assess_risk crs) = crs
  /\ In c crs
  /\ forall a, In a anns ->
       level a <> SAFE
       /\ In (rule a) [ "immutable_field"; "service_type_change";
                        "pvc_storage_change"; "pvc_storage_class_change";
                        "resource_deleted"; "crd_spec_change"; "rbac_change" ]
       /\ ((rule a = "resource_deleted" /\ risk.path a = EmptyString
            /\ engine.status c = manifest.removed)
           \/ exists fc, In fc (changes c) /\ risk.path a = engine.path fc).
Proof.
  intros H. split; [|split].
  - unfold assess_risk. rewrite map_map. cbn [fst]. apply map_id.
  - unfold assess_risk in H. apply in_map_iff in H.
    destruct H as (c' & Heq & Hin). injection Heq as <- _. exact Hin.
  - unfold assess_risk in H. apply in_map_iff in H.
    destruct H as (c' & Heq & Hin). injection Heq as <- <-.
    intros a Ha. exact (rules_shape c' a Ha).
Qed.

Lemma rules_on_unchanged_fields (c : ChangeRecord) :
  changes c = [] -> engine.status c <> manifest.removed ->
  flat_map (fun rule => rule c) RISK_RULES = [].
Proof.
  intros Hc Hs. unfold RISK_RULES. cbn [flat_map].
  unfold check_immutable_fields, check_service_type_change, check_pvc_changes,
    check_resource_deletion, check_crd_changes, check_rbac_escalation.
  rewrite Hc. cbn [flat_map].
  destruct (negb (String.eqb (kind c) "Service"));
    destruct (negb (String.eqb (kind c) "PersistentVolumeClaim"));
    destruct (negb (String.eqb (kind c) "CustomResourceDefinition"));
    destruct (negb (String.eqb (kind c) "ClusterRole"
                    || String.eqb (kind c) "Role"));
    destruct (engine.status c); try reflexivity;
    contradiction Hs; reflexivity.
Qed.

(** X22.  An added resource is never flagged: the record of an added
    pair has no field changes, every rule but the deletion rule reads
    the field changes only, and so the record gets no annotation,
    whatever the resource is (a LoadBalancer Service, a ClusterRole, a
    CustomResourceDefinition).  The same holds for any record without
    field changes that is not a removal. *)
Theorem added_resource_is_never_flagged (pair : manifest.ResourcePair)
        (show_all : bool) (extra_ignores : option (list string))
        (c : ChangeRecord) :
  manifest.status pair = manifest.added ->
  compute_diff pair show_all extra_ignores = Ok (Some c) ->
  changes c = []
  /\ assess_risk [c] = [(c, [])].
Proof.
  intros Hs Hc. unfold compute_diff in Hc. rewrite Hs in Hc.
  destruct (manifest.new pair) as [res|]; [|discriminate].
  injection Hc as <-. split; [reflexivity|].
  unfold assess_risk. cbn [map]. rewrite rules_on_unchanged_fields;
    [reflexivity|reflexivity|discriminate].
Qed.

(** X23.  The two remaining rules.  On a CustomResourceDefinition each
    field change whose path starts with one of [spec.scope],
    [spec.versions], [spec.validation], [spec.names] gets one danger
    annotation, at most one per field change; on a ClusterRole or a
    Role each field change whose path starts with [rules] gets one
    warning.  Both compare the kind exactly, and neither looks at the
    values: a permission that is removed is flagged like one that is
    added. *)
Theorem crd_and_rbac_rules (c : ChangeRecord) :
  (kind c = "CustomResourceDefinition" ->
   check_crd_changes c =
   map (crd_annotation c)
       (filter (fun fc =>
                  existsb (startswith (engine.path fc))
                          ["spec.scope"; "spec.versions";
                           "spec.validation"; "spec.names"])
               (changes c))
   /\ (List.length (check_crd_changes c) <= List.length (changes c))%nat)
  /\ (kind c <> "CustomResourceDefinition" -> check_crd_changes c = [])
  /\ (kind c = "ClusterRole" \/ kind c = "Role" ->
      check_rbac_escalation c =
      map (rbac_annotation c)
          (filter (fun fc => startswith (engine.path fc) "rules")
                  (changes c)))
  /\ (kind c <> "ClusterRole" -> kind c <> "Role" ->
      check_rbac_escalation c = []).
Proof.
  split; [|split; [|split]].
  - intros Hk.
    assert (E : check_crd_changes c =
                map (crd_annotation c)
                    (filter (fun fc =>
                               existsb (startswith (engine.path fc))
                                       ["spec.scope"; "spec.versions";
                                        "spec.validation"; "spec.names"])
                            (changes c))).
    { unfold check_crd_changes. rewrite Hk. cbn [String.eqb Ascii.eqb Bool.eqb negb].
      rewrite <- flat_map_if_filter. apply flat_map_ext. intros fc.
      apply first_prefix_existsb. }
    split; [exact E|]. rewrite E, length_map. apply filter_length_le.
  - intros Hk. unfold check_crd_changes.
    apply String.eqb_neq in Hk. rewrite Hk. reflexivity.
  - intros Hk. unfold check_rbac_escalation.
    replace (negb (String.eqb (kind c) "ClusterRole"
                   || String.eqb (kind c) "Role")) with false
      by (destruct Hk as [-> | ->]; reflexivity).
    apply flat_map_if_filter.
  - intros H1 H2. unfold check_rbac_escalation.
    apply String.eqb_neq in H1, H2. rewrite H1, H2. reflexivity.
Qed.
End RiskMore.

Lemma risk_annotations_shape_witness :
  let rt := risk_examples.rt in
  let c := risk_examples.annotated_claim in
  exists anns,
    In (c, anns) (risk.assess_risk [c])
    /\ map risk.rule anns =
       ["immutable_field"; "pvc_storage_change"; "pvc_storage_class_change"]
    /\ forall a, In a anns -> risk.level a <> risk.SAFE.
Proof.
  eexists. split; [left; vm_compute; reflexivity|].
  split; [reflexivity|].
  intros a Ha.
  exact (proj1 (proj2 (proj2 (@risk_annotations_shape risk_examples.rt
                                [risk_examples.annotated_claim] _ _
                                (or_introl eq_refl)))
                      a Ha)).
Defined.

Lemma added_resource_is_never_flagged_witness :
  let rt := risk_examples.rt in
  let exposed :=
    mkResource "v1" "Service" "default" "web"
      [ ("apiVersion", VStr "v1"); ("kind", VStr "Service");
        ("metadata", VDict [ ("name", VStr "web") ]);
        ("spec", VDict [ ("type", VStr "LoadBalancer") ]) ]
      EmptyString in
  let c := engine.mkChangeRecord "v1/Service/default/web" "Service" "web"
                                 "default" added [] in
  pair_resources [] [exposed] = [mkPair None (Some exposed) added]
  /\ engine.compute_diff (mkPair None (Some exposed) added) false None
     = Ok (Some c)
  /\ risk.assess_risk [c] = [(c, [])].
Proof.
  split; [reflexivity|]. split; [reflexivity|].
  exact (proj2 (@added_resource_is_never_flagged risk_examples.rt
                  (mkPair None
                     (Some (mkResource "v1" "Service" "default" "web"
                              [ ("apiVersion", VStr "v1");
                                ("kind", VStr "Service");
                                ("metadata", VDict [ ("name", VStr "web") ]);
                                ("spec", VDict [ ("type", VStr "LoadBalancer") ]) ]
                              EmptyString))
                     added)
                  false None _ eq_refl eq_refl)).
Defined.

(** ** Steps 3 and 7 of [diff] *)

Lemma find_key_some (k : string) (rs : list Resource) :
  In k (map key rs) ->
  exists r, find (fun res => String.eqb (key res) k) rs = Some r.
Proof.
  induction rs as [|x rs IH]; simpl; intros H; [contradiction|].
  destruct (String.eqb_spec (key x) k) as [E|E].
  - exists x. reflexivity.
  - destruct H as [H|H]; [contradiction|]. exact (IH H).
Qed.

Lemma NoDup_key_inj (rs : list Resource) (a b : Resource) :
  NoDup (map key rs) -> In a rs -> In b rs -> key a = key b -> a = b.
Proof.
  induction rs as [|x rs IH]; simpl; intros Hnd Ha Hb Hk; [contradiction|].
  inversion Hnd as [|? ? Hnotin Hnd']; subst.
  destruct Ha as [<-|Ha]; destruct Hb as [<-|Hb].
  - reflexivity.
  - exfalso. apply Hnotin. rewrite Hk. apply in_map. exact Hb.
  - exfalso. apply Hnotin. rewrite <- Hk. apply in_map. exact Ha.
  - exact (IH Hnd' Ha Hb Hk).
Qed.

Lemma find_first_is_last (k : string) (rs : list Resource) :
  NoDup (map key rs) ->
  find (fun res => String.eqb (key res) k) rs = last_with_key k rs.
Proof.
  intros Hnd.
  destruct (find (fun res => String.eqb (key res) k) rs) as [r|] eqn:E.
  - apply find_some in E. destruct E as [Hin Hk].
    apply String.eqb_eq in Hk.
    assert (Hmem : In k (map key rs)).
    { rewrite <- Hk. apply in_map. exact Hin. }
    apply last_with_key_some in Hmem. destruct Hmem as [r' Hr'].
    destruct (last_with_key_key k rs r' Hr') as [Hk' Hin'].
    rewrite Hr'. f_equal.
    apply (NoDup_key_inj rs r r' Hnd Hin Hin'). congruence.
  - symmetry. apply last_with_key_none. intros Hmem.
    destruct (find_key_some k rs Hmem) as [r Hr]. congruence.
Qed.

Lemma full_results_in (risk_results : list (engine.ChangeRecord
                                            * list risk.RiskAnnotation))
      (live upgrade : list Resource)
      (results : list cli_steps.FullResult) :
  cli_steps.full_results risk_results live upgrade = Ok results ->
  forall c anns o,
    In (c, anns, o) results ->
    In (c, anns) risk_results
    /\ match cli_steps._find_resource c live upgrade with
       | Some resource =>
           exists info, ownership.detect_ownership resource = Ok info
                        /\ o = Some info
       | None => o = None
       end.
Proof.
  revert results.
  induction risk_results as [|[c0 a0] rest IH]; intros results H c anns o Hin.
  - injection H as <-. contradiction.
  - cbn [cli_steps.full_results] in H.
    destruct (cli_steps._find_resource c0 live upgrade) as [res|] eqn:Ef.
    + destruct (ownership.detect_ownership res) as [info|e] eqn:Ed;
        [|discriminate].
      cbn [bind] in H.
      destruct (cli_steps.full_results rest live upgrade) as [more|e];
        [|discriminate].
      cbn [bind] in H. injection H as <-.
      destruct Hin as [Heq|Hin].
      * injection Heq as <- <- <-. split; [left; reflexivity|].
        rewrite Ef. exists info. split; [exact Ed|reflexivity].
      * destruct (IH more eq_refl c anns o Hin) as [H1 H2].
        split; [right; exact H1|exact H2].
    + cbn [bind] in H.
      destruct (cli_steps.full_results rest live upgrade) as [more|e];
        [|discriminate].
      cbn [bind] in H. injection H as <-.
      destruct Hin as [Heq|Hin].
      * injection Heq as <- <- <-. split; [left; reflexivity|].
        rewrite Ef. reflexivity.
      * destruct (IH more eq_refl c anns o Hin) as [H1 H2].
        split; [right; exact H1|exact H2].
Qed.

Section FindFacts.
Context {rt : Runtime}.
Import engine risk cli_steps.

Lemma record_comes_from_pair (old new : list Resource)
      (show_all : bool) (extra_ignores : option (list string))
      (crs : list ChangeRecord) (c : ChangeRecord) :
  diff_all (pair_resources old new) show_all extra_ignores = Ok crs ->
  In c crs ->
  exists p, In p (pair_resources old new) /\ resource_key c = pair_key p.
Proof.
  intros H Hc. unfold diff_all in H.
  apply (proj1 (collect_In _ _ _ H c)) in Hc.
  destruct Hc as (p & Hin & Hp). exists p. split; [exact Hin|].
  destruct (compute_diff_record p c _ _ Hp) as (_ & _ & _ & res & Hres & ->).
  pose proof (proj2 (pairs_shape old new p Hin)) as Hs.
  unfold pair_key. cbn [record_of resource_key].
  destruct (manifest.status p).
  - rewrite Hres. reflexivity.
  - destruct Hs as [-> _]. rewrite Hres. reflexivity.
  - destruct Hs as (o & n & Ho & Hn & Hk). rewrite Hn.
    rewrite Ho in Hres. injection Hres as <-. exact Hk.
  - destruct Hs as (o & n & Ho & Hn & Hk). rewrite Hn.
    rewrite Ho in Hres. injection Hres as <-. exact Hk.
Qed.

(** X24.  [_find_resource] finds a resource for every change record of
    the diff, with the key of the record, so no result of step 7 lacks
    its ownership.  When no key occurs twice within a snapshot it is
    the resource the record was computed from: the new one of the pair,
    or the old one for a removal.  (With a key that occurs twice the
    pairing keeps the last resource and [_find_resource] the first.) *)
Theorem find_resource_gives_the_paired_resource
        (old new : list Resource)
        (show_all : bool) (extra_ignores : option (list string))
        (crs : list ChangeRecord) (c : ChangeRecord) :
  diff_all (pair_resources old new) show_all extra_ignores = Ok crs ->
  In c crs ->
  (exists r, _find_resource c old new = Some r
             /\ key r = resource_key c
             /\ (NoDup (map key old) -> NoDup (map key new) ->
                 exists p, In p (pair_resources old new)
                           /\ pair_key p = resource_key c
                           /\ Some r = match manifest.new p with
                                       | Some n => Some n
                                       | None => manifest.old p
                                       end))
  /\ (forall results anns o,
         full_results (assess_risk crs) old new = Ok results ->
         In (c, anns, o) results -> o <> None).
Proof.
  intros H Hc.
  destruct (record_comes_from_pair old new _ _ crs c H Hc) as (p & Hin & Hk).
  pose proof (proj1 (pairs_shape old new p Hin)) as Hu.
  rewrite <- Hk in Hu. apply union_order_In in Hu.
  assert (Hfound : exists r, _find_resource c old new = Some r
                             /\ key r = resource_key c).
  { unfold _find_resource.
    destruct (find (fun res => String.eqb (key res) (resource_key c)) new)
      as [r|] eqn:En.
    - exists r. split; [reflexivity|].
      apply find_some in En. apply String.eqb_eq. exact (proj2 En).
    - destruct Hu as [Hu|Hu].
      + destruct (find_key_some _ _ Hu) as [r Hr]. rewrite Hr.
        exists r. split; [reflexivity|].
        apply find_some in Hr. apply String.eqb_eq. exact (proj2 Hr).
      + destruct (find_key_some _ _ Hu) as [r Hr]. congruence. }
  destruct Hfound as (r & Hr & Hkr). split.
  - exists r. split; [exact Hr|]. split; [exact Hkr|].
    intros Hndo Hndn. exists p. split; [exact Hin|]. split; [auto|].
    rewrite <- Hr. unfold _find_resource.
    rewrite !find_first_is_last by assumption.
    rewrite pair_resources_refines in Hin. unfold pair_resources_spec in Hin.
    apply in_map_iff in Hin. destruct Hin as (k & <- & Hkin).
    cbn [manifest.new manifest.old].
    assert (Ek : resource_key c = k).
    { rewrite Hk. unfold pair_key. cbn [manifest.new manifest.old].
      destruct (last_with_key k new) as [n|] eqn:En.
      - exact (proj1 (last_with_key_key k new n En)).
      - destruct (last_with_key k old) as [o|] eqn:Eo.
        + exact (proj1 (last_with_key_key k old o Eo)).
        + exfalso. apply union_order_In in Hkin.
          apply last_with_key_none in Eo. apply last_with_key_none in En.
          tauto. }
    rewrite Ek. destruct (last_with_key k new); reflexivity.
  - intros results anns o Hres Hino.
    destruct (full_results_in _ _ _ _ Hres c anns o Hino) as [_ Ho].
    rewrite Hr in Ho. destruct Ho as (info & _ & ->). discriminate.
Qed.
End FindFacts.

Lemma find_resource_gives_the_paired_resource_witness :
  let rt := risk_examples.rt in
  let old := [risk_examples.gone; risk_examples.kept] in
  let new := [risk_examples.kept; risk_examples.fresh] in
  exists c crs,
    engine.diff_all (pair_resources old new) false None = Ok crs
    /\ In c crs
    /\ engine.resource_key c = "v1/ConfigMap/default/legacy"
    /\ exists r, cli_steps._find_resource c old new = Some r
                 /\ key r = engine.resource_key c.
Proof.
  exists risk_examples.gone_record. eexists.
  split; [vm_compute; reflexivity|].
  split; [left; reflexivity|]. split; [reflexivity|].
  destruct (proj1 (@find_resource_gives_the_paired_resource risk_examples.rt
                     [risk_examples.gone; risk_examples.kept]
                     [risk_examples.kept; risk_examples.fresh] false None
                     _ risk_examples.gone_record eq_refl
                     (or_introl eq_refl)))
    as (r & Hr & Hk & _).
  exists r. split; assumption.
Defined.
Section ServerSideFacts.
Context {rt : Runtime} {sh : Shell}.
Import cli_steps.

Lemma apply_server_side_all_failed (resources : list Loaded)
      (ns : string) (kube_opts : KubeOpts) :
  (forall res, In res resources ->
     kubectl.server_side_dry_run (yaml_dump (loaded_body res)) ns kube_opts
     = RunError) ->
  _apply_server_side resources ns kube_opts = Returned resources.
Proof.
  induction resources as [|res rest IH]; intros Hfail; [reflexivity|].
  cbn [_apply_server_side]. unfold apply_one.
  rewrite (Hfail res (or_introl eq_refl)).
  rewrite IH; [reflexivity|].
  intros r Hr. apply Hfail. right; exact Hr.
Qed.

Lemma apply_server_side_not_run (resources : list Loaded)
      (ns : string) (kube_opts : KubeOpts) (res : Loaded) :
  In res resources ->
  kubectl.server_side_dry_run (yaml_dump (loaded_body res)) ns kube_opts
  = NotRun ->
  exists u, _apply_server_side resources ns kube_opts = Escaped u.
Proof.
  induction resources as [|r rest IH]; intros Hin Hn; [contradiction|].
  cbn [_apply_server_side].
  destruct (apply_one ns kube_opts r) as [r'|u] eqn:Er; [|eauto].
  destruct Hin as [->|Hin].
  - unfold apply_one in Er. rewrite Hn in Er. discriminate.
  - destruct (IH Hin Hn) as [u ->]. eauto.
Qed.

(** X25.  The server-side step keeps the resources in number and
    order: each one is replaced by the first resource parsed from the
    answer of its dry run, and stays as it is when the dry run ends in
    [RunError] or its answer holds no resource.  When every dry run
    ends in [RunError] the list comes back unchanged.  The step does
    not return when a dry run of one of its resources cannot be run,
    and an exception leaves it only from a dry run that cannot be run
    or from parsing an answer. *)
Theorem server_side_step_falls_back (resources : list Loaded)
        (ns : string) (kube_opts : KubeOpts) :
  (forall rs,
      _apply_server_side resources ns kube_opts = Returned rs ->
      Forall2
        (fun res r =>
           match kubectl.server_side_dry_run (yaml_dump (loaded_body res)) ns
                                             kube_opts with
           | Completed mutated_yaml =>
               exists mutated,
                 parse_multi_doc mutated_yaml ns = Ok mutated
                 /\ r = match mutated with first :: _ => first | [] => res end
           | RunError => r = res
           | NotRun => False
           end)
        resources rs)
  /\ ((forall res, In res resources ->
         kubectl.server_side_dry_run (yaml_dump (loaded_body res)) ns kube_opts
         = RunError) ->
      _apply_server_side resources ns kube_opts = Returned resources)
  /\ (forall res, In res resources ->
        kubectl.server_side_dry_run (yaml_dump (loaded_body res)) ns kube_opts
        = NotRun ->
        exists u, _apply_server_side resources ns kube_opts = Escaped u)
  /\ (forall u,
         _apply_server_side resources ns kube_opts = Escaped u ->
         exists res, In res resources
           /\ match kubectl.server_side_dry_run (yaml_dump (loaded_body res))
                                                ns kube_opts with
              | Completed mutated_yaml =>
                  exists e, parse_multi_doc mutated_yaml ns = Raised e
                            /\ u = Pipeline e
              | RunError => False
              | NotRun => u = Subprocess
              end).
Proof.
  split; [|split; [|split]].
  - induction resources as [|res rest IH]; intros rs H.
    + injection H as <-. constructor.
    + cbn [_apply_server_side] in H. unfold apply_one in H.
      destruct (kubectl.server_side_dry_run _ ns kube_opts) as [yaml| |] eqn:Ey.
      * destruct (parse_multi_doc yaml ns) as [mutated|e] eqn:Ep;
          [|discriminate].
        destruct (_apply_server_side rest ns kube_opts) as [rs'|u];
          [|discriminate].
        injection H as <-. constructor.
        -- rewrite Ey. exists mutated. split; [exact Ep|reflexivity].
        -- apply IH. reflexivity.
      * destruct (_apply_server_side rest ns kube_opts) as [rs'|u];
          [|discriminate].
        injection H as <-. constructor.
        -- rewrite Ey. reflexivity.
        -- apply IH. reflexivity.
      * discriminate.
  - exact (apply_server_side_all_failed resources ns kube_opts).
  - intros res Hin Hn.
    exact (apply_server_side_not_run resources ns kube_opts res Hin Hn).
  - induction resources as [|res rest IH]; intros u H; [discriminate|].
    cbn [_apply_server_side] in H. unfold apply_one in H.
    destruct (kubectl.server_side_dry_run (yaml_dump (loaded_body res)) ns
                                          kube_opts) as [yaml| |] eqn:Ey.
    + destruct (parse_multi_doc yaml ns) as [mutated|e] eqn:Ep.
      * destruct (_apply_server_side rest ns kube_opts) as [rs'|u'];
          [discriminate|].
        injection H as <-.
        destruct (IH u' eq_refl) as (r & Hin & Hr).
        exists r. split; [right; exact Hin|exact Hr].
      * injection H as <-. exists res. split; [left; reflexivity|].
        rewrite Ey. exists e. split; [exact Ep|reflexivity].
    + destruct (_apply_server_side rest ns kube_opts) as [rs'|u'];
        [discriminate|].
      injection H as <-.
      destruct (IH u' eq_refl) as (r & Hin & Hr).
      exists r. split; [right; exact Hin|exact Hr].
    + injection H as <-. exists res. split; [left; reflexivity|].
      rewrite Ey. reflexivity.
Qed.
End ServerSideFacts.

Lemma server_side_step_falls_back_witness :
  let rt := partial_doc.rt in
  let resources := [shell_examples.untyped; shell_examples.settings] in
  let ko := mkKubeOpts None (Some "staging") in
  @cli_steps._apply_server_side rt shell_examples.offline resources
                                "default" ko = Returned resources
  /\ @cli_steps._apply_server_side rt shell_examples.defaulting resources
                                   "default" ko
     = Returned [shell_examples.settings; shell_examples.settings]
  /\ @cli_steps._apply_server_side rt shell_examples.no_kubectl resources
                                   "default" ko
     = Escaped Subprocess.
Proof.
  split; [|split; vm_compute; reflexivity].
  apply (proj1 (proj2 (@server_side_step_falls_back partial_doc.rt
                         shell_examples.offline
                         [shell_examples.untyped; shell_examples.settings]
                         "default" (mkKubeOpts None (Some "staging"))))).
  intros res _. reflexivity.
Defined.

(** ** Ownership *)

Ltac attr_error :=
  left; split;
  [ first
      [ left; eexists; split; [reflexivity|discriminate]
      | right; left; eexists; split; [reflexivity|discriminate]
      | right; right; left; eexists; split; [reflexivity|discriminate]
      | right; right; right; eexists; split; [reflexivity|discriminate] ]
  | reflexivity ].

Ltac readable :=
  let v := fresh "v" in
  let H := fresh "H" in
  let Hv := fresh "Hv" in
  intros [(v & H & Hv)|[(v & H & Hv)|[(v & H & Hv)|(v & H & Hv)]]];
  try discriminate; injection H as <-; eapply Hv; reflexivity.

Section OwnershipFacts.
Import ownership.

(** [detect_ownership] once its four reads have succeeded, over the
    labels [L], the annotations [A] and the managed-by text [s]. *)
Lemma detect_ownership_cases (r : Resource) :
  (unreadable_metadata r /\ detect_ownership r = Raised AttributeError)
  \/ (~ unreadable_metadata r
      /\ exists s,
           (dict_get "app.kubernetes.io/managed-by" (labels_of r)
            = Some (VStr s)
            \/ (dict_get "app.kubernetes.io/managed-by" (labels_of r) = None
                /\ s = EmptyString))
           /\ detect_ownership r =
              let L := labels_of r in
              let A := annotations_of r in
              let helm_release := get_or_none "meta.helm.sh/release-name" A in
              if String.eqb (lower s) "helm" || py_truthy helm_release then
                Ok (mkOwnership "helm"
                      (if py_truthy helm_release then helm_release
                       else get_or_none "app.kubernetes.io/instance" L)
                      VNone [])
              else
                let argocd_app :=
                  get_or_none "argocd.argoproj.io/managed-by" A in
                let argocd_app :=
                  if negb (py_truthy argocd_app)
                  then get_or_none "argocd.argoproj.io/instance" L
                  else argocd_app in
                if py_truthy argocd_app then
                  Ok (mkOwnership "argocd" VNone argocd_app [])
                else
                  match filter is_flux_key (keys A),
                        filter is_flux_key (keys L) with
                  | [], [] => Ok (mkOwnership "unknown" VNone VNone [])
                  | _, _ => Ok (mkOwnership "flux" VNone VNone [])
                  end).
Proof.
  unfold unreadable_metadata, labels_of, annotations_of, detect_ownership,
    sub_mapping, get_default.
  destruct (dict_get "metadata" (body r)) as [mv|] eqn:Em; cbv beta iota;
    [destruct mv as [|?|?|?|?|?|md]; try attr_error|];
    cbn [as_mapping bind dict_get].
  - destruct (dict_get "labels" md) as [lv|] eqn:El; cbv beta iota;
      [destruct lv as [|?|?|?|?|?|L]; try attr_error|];
      cbn [as_mapping bind dict_get];
      (destruct (dict_get "annotations" md) as [av|] eqn:Ea; cbv beta iota;
       [destruct av as [|?|?|?|?|?|A]; try attr_error|]);
      cbn [as_mapping bind dict_get].
    + destruct (dict_get "app.kubernetes.io/managed-by" L) as [mb|] eqn:Eb;
        [destruct mb as [|?|?|?|s|?|?]; try attr_error|].
      * right. split; [readable|].
        exists s. split; [left; reflexivity|reflexivity].
      * right. split; [readable|].
        exists EmptyString. split; [right; split; reflexivity|reflexivity].
    + destruct (dict_get "app.kubernetes.io/managed-by" L) as [mb|] eqn:Eb;
        [destruct mb as [|?|?|?|s|?|?]; try attr_error|].
      * right. split; [readable|].
        exists s. split; [left; reflexivity|reflexivity].
      * right. split; [readable|].
        exists EmptyString. split; [right; split; reflexivity|reflexivity].
    + right. split; [readable|].
      exists EmptyString. split; [right; split; reflexivity|reflexivity].
    + right. split; [readable|].
      exists EmptyString. split; [right; split; reflexivity|reflexivity].
  - right. split; [readable|].
    exists EmptyString. split; [right; split; reflexivity|reflexivity].
Qed.

Lemma flux_key_iff (k : string) :
  is_flux_key k = true <-> occurs_in "fluxcd.io" k.
Proof.
  unfold is_flux_key. rewrite orb_true_iff, !contains_iff. split.
  - intros [H|(pre & post & ->)]; [exact H|].
    exists (pre ++ "kustomize.toolkit."), post.
    rewrite !append_assoc. reflexivity.
  - intros H. left. exact H.
Qed.

Lemma filter_nil_iff {A : Type} (p : A -> bool) (l : list A) :
  filter p l = [] <-> forall x, In x l -> p x = false.
Proof.
  induction l as [|x l IH]; simpl.
  - split; [intros _ y []|reflexivity].
  - destruct (p x) eqn:E.
    + split; [discriminate|]. intros H.
      specialize (H x (or_introl eq_refl)). congruence.
    + rewrite IH. split.
      * intros H y [<-|Hy]; [exact E|exact (H y Hy)].
      * intros H y Hy. apply H. right; exact Hy.
Qed.

Lemma flux_marked_iff (r : Resource) :
  flux_marked r <->
  ~ (filter is_flux_key (keys (annotations_of r)) = []
     /\ filter is_flux_key (keys (labels_of r)) = []).
Proof.
  unfold flux_marked. rewrite !filter_nil_iff. split.
  - intros (k & [Hk|Hk] & Hocc) [HA HL];
      apply flux_key_iff in Hocc.
    + rewrite (HA k Hk) in Hocc. discriminate.
    + rewrite (HL k Hk) in Hocc. discriminate.
  - intros H.
    destruct (filter is_flux_key (keys (annotations_of r))) as [|k ks] eqn:EA.
    + destruct (filter is_flux_key (keys (labels_of r))) as [|k ks] eqn:EL.
      * exfalso. apply H. split; apply filter_nil_iff; assumption.
      * assert (Hk : In k (filter is_flux_key (keys (labels_of r))))
          by (rewrite EL; left; reflexivity).
        apply filter_In in Hk. exists k. split; [right; tauto|].
        apply flux_key_iff. tauto.
    + assert (Hk : In k (filter is_flux_key (keys (annotations_of r))))
        by (rewrite EA; left; reflexivity).
      apply filter_In in Hk. exists k. split; [left; tauto|].
      apply flux_key_iff. tauto.
Qed.

(** X26.  What [detect_ownership] returns and when it fails on an
    attribute.  A result names one of the four managers and never
    carries a warning; a release is given for Helm only, an application
    for Argo CD only, and Argo CD always with an application that is
    set.  The release of Helm is the release-name annotation when it is
    set and the instance label otherwise, as the metadata gives them,
    whatever their type.  The call raises [AttributeError] exactly when
    a [metadata], [labels] or [annotations] entry is present and not a
    mapping (a null entry, for instance) or the managed-by label is not
    a string. *)
Theorem detect_ownership_shape (r : Resource) :
  (forall info,
      detect_ownership r = Ok info ->
      warnings info = []
      /\ In (manager info) ["helm"; "argocd"; "flux"; "unknown"]
      /\ (release info <> VNone -> manager info = "helm")
      /\ (app info <> VNone -> manager info = "argocd")
      /\ (manager info = "argocd" -> py_truthy (app info) = true)
      /\ (manager info = "helm" ->
          release info =
          let helm_release :=
            get_or_none "meta.helm.sh/release-name" (annotations_of r) in
          if py_truthy helm_release then helm_release
          else get_or_none "app.kubernetes.io/instance" (labels_of r)))
  /\ (detect_ownership r = Raised AttributeError <-> unreadable_metadata r).
Proof.
  destruct (detect_ownership_cases r) as [[Hbad Hr]|[Hgood (s & _ & Hr)]].
  - rewrite Hr. split; [discriminate|]. tauto.
  - rewrite Hr. cbv zeta.
    set (L := labels_of r). set (A := annotations_of r).
    destruct (String.eqb (lower s) "helm"
              || py_truthy (get_or_none "meta.helm.sh/release-name" A)).
    { split.
      - intros info H. injection H as <-. cbn.
        repeat split; try tauto; try discriminate;
          try (intros H; contradiction H; reflexivity).
      - split; [discriminate|]. intros H. contradiction. }
    cbv zeta.
    set (app0 := if negb (py_truthy
                            (get_or_none "argocd.argoproj.io/managed-by" A))
                 then get_or_none "argocd.argoproj.io/instance" L
                 else get_or_none "argocd.argoproj.io/managed-by" A).
    destruct (py_truthy app0) eqn:Et.
    { split.
      - intros info H. injection H as <-. cbn.
        repeat split; try tauto; try discriminate;
          try (intros H; contradiction H; reflexivity).
      - split; [discriminate|]. intros H. contradiction. }
    destruct (filter is_flux_key (keys A));
      destruct (filter is_flux_key (keys L)).
    all: split;
      [ intros info H; injection H as <-; cbn;
        repeat split; try tauto; try discriminate;
        try (intros H; contradiction H; reflexivity)
      | split; [discriminate|]; intros H; contradiction ].
Qed.

(** X27.  The manager is decided in a fixed order.  Helm wins when its
    marks are present, whatever else the metadata holds: the managed-by
    label reading [helm] in any letter case, or a release-name
    annotation that is set.  Otherwise Argo CD wins with its annotation
    or its instance label; otherwise Flux with any label or annotation
    key that holds [fluxcd.io]; otherwise the manager is unknown. *)
Theorem detect_ownership_decision (r : Resource) (info : OwnershipInfo) :
  detect_ownership r = Ok info ->
  (manager info = "helm" <-> helm_marked r)
  /\ (manager info = "argocd" <-> ~ helm_marked r /\ argocd_marked r)
  /\ (manager info = "flux" <->
      ~ helm_marked r /\ ~ argocd_marked r /\ flux_marked r)
  /\ (manager info = "unknown" <->
      ~ helm_marked r /\ ~ argocd_marked r /\ ~ flux_marked r).
Proof.
  intros Hok.
  destruct (detect_ownership_cases r) as [[_ Hr]|[_ (s & Hs & Hr)]];
    [congruence|].
  rewrite Hr in Hok. cbv zeta in Hok. clear Hr.
  assert (Hhelm : helm_marked r <->
                  String.eqb (lower s) "helm"
                  || py_truthy (get_or_none "meta.helm.sh/release-name"
                                            (annotations_of r)) = true).
  { unfold helm_marked. rewrite orb_true_iff, String.eqb_eq. split.
    - intros [(s' & Hs' & Hl)|H]; [|right; exact H].
      left. destruct Hs as [Hs|[Hs _]]; [|congruence].
      rewrite Hs in Hs'. injection Hs' as <-. exact Hl.
    - intros [H|H]; [|right; exact H].
      destruct Hs as [Hs|[_ ->]]; [|discriminate H].
      left. exists s. split; assumption. }
  assert (Hargo : argocd_marked r <->
                  py_truthy
                    (if negb (py_truthy
                                (get_or_none "argocd.argoproj.io/managed-by"
                                             (annotations_of r)))
                     then get_or_none "argocd.argoproj.io/instance"
                                      (labels_of r)
                     else get_or_none "argocd.argoproj.io/managed-by"
                                      (annotations_of r)) = true).
  { unfold argocd_marked.
    destruct (py_truthy (get_or_none "argocd.argoproj.io/managed-by"
                                     (annotations_of r))) eqn:E;
      cbn [negb]; [rewrite E|]; intuition congruence. }
  pose proof (flux_marked_iff r) as Hflux.
  destruct (String.eqb (lower s) "helm"
            || py_truthy (get_or_none "meta.helm.sh/release-name"
                                      (annotations_of r))).
  { injection Hok as <-. cbn [manager].
    repeat split; try tauto; try discriminate;
      intros [H _]; contradiction H; apply Hhelm; reflexivity. }
  assert (Hnh : ~ helm_marked r) by (rewrite Hhelm; discriminate).
  destruct (py_truthy (if negb _ then _ else _)).
  { injection Hok as <-. cbn [manager].
    assert (Ha : argocd_marked r) by (apply Hargo; reflexivity).
    repeat split; try tauto; try discriminate. }
  assert (Hna : ~ argocd_marked r) by (rewrite Hargo; discriminate).
  destruct (filter is_flux_key (keys (annotations_of r))) as [|k ks];
    [destruct (filter is_flux_key (keys (labels_of r))) as [|k ks]|];
    injection Hok as <-; cbn [manager].
  - assert (Hnf : ~ flux_marked r) by (rewrite Hflux; tauto).
    repeat split; try tauto; try discriminate.
  - assert (Hf : flux_marked r)
      by (rewrite Hflux; intros [_ H]; discriminate).
    repeat split; try tauto; try discriminate.
  - assert (Hf : flux_marked r)
      by (rewrite Hflux; intros [H _]; discriminate).
    repeat split; try tauto; try discriminate.
Qed.
End OwnershipFacts.

Lemma detect_ownership_decision_witness :
  ownership.detect_ownership ownership_examples.contested
  = Ok (ownership.mkOwnership "helm" (VStr "shop") VNone [])
  /\ helm_marked ownership_examples.contested
  /\ argocd_marked ownership_examples.contested
  /\ flux_marked ownership_examples.contested.
Proof.
  assert (H : ownership.detect_ownership ownership_examples.contested
              = Ok (ownership.mkOwnership "helm" (VStr "shop") VNone []))
    by reflexivity.
  split; [exact H|].
  split; [exact (proj1 (proj1 (detect_ownership_decision _ _ H)) eq_refl)|].
  split.
  - right. reflexivity.
  - exists "kustomize.toolkit.fluxcd.io/name". split.
    + right. vm_compute. tauto.
    + exists "kustomize.toolkit.", "/name". reflexivity.
Defined.

Lemma detect_ownership_shape_witness :
  unreadable_metadata ownership_examples.null_labels
  /\ ownership.detect_ownership ownership_examples.null_labels
     = Raised AttributeError
  /\ ownership.detect_ownership ownership_examples.numbered
     = Ok (ownership.mkOwnership "helm" (VInt 5) VNone []).
Proof.
  assert (H : unreadable_metadata ownership_examples.null_labels).
  { right; left. exists VNone. split; [reflexivity|discriminate]. }
  split; [exact H|]. split; [|reflexivity].
  exact (proj2 (proj2 (detect_ownership_shape
                         ownership_examples.null_labels)) H).
Defined.

(** ** The manifest section of helm's output *)

Lemma length_append (a b : string) :
  String.length (a ++ b) = (String.length a + String.length b)%nat.
Proof.
  induction a as [|c a IH]; [reflexivity|]. simpl. rewrite IH. reflexivity.
Qed.

Lemma drop_append (a b : string) : drop (String.length a) (a ++ b) = b.
Proof. induction a as [|c a IH]; [reflexivity|exact IH]. Qed.

Lemma substring_append (a b : string) :
  String.substring 0 (String.length a) (a ++ b) = a.
Proof.
  induction a as [|c a IH]; simpl.
  - destruct b; reflexivity.
  - rewrite IH. reflexivity.
Qed.

Lemma span_space_spec (s : string) :
  s = fst (helm.span_space s) ++ snd (helm.span_space s)
  /\ all_chars is_space (fst (helm.span_space s)) = true.
Proof.
  induction s as [|c s [IH1 IH2]]; [split; reflexivity|].
  cbn [helm.span_space]. destruct (is_space c) eqn:E.
  - destruct (helm.span_space s) as [w rest]. cbn [fst snd] in *.
    split; [cbn; f_equal; exact IH1|]. cbn. rewrite E. exact IH2.
  - split; reflexivity.
Qed.

Lemma through_last_newline_spec (w t : string) :
  helm.through_last_newline w = Some t ->
  exists rest, w = t ++ rest
               /\ (all_chars is_space w = true ->
                   all_chars is_space t = true).
Proof.
  revert t. induction w as [|c w IH]; intros t H; [discriminate|].
  cbn [helm.through_last_newline] in H.
  destruct (helm.through_last_newline w) as [t'|].
  - injection H as <-. destruct (IH t' eq_refl) as (rest & -> & Hs).
    exists rest. split; [reflexivity|].
    cbn [all_chars String.append]. intros Hc.
    apply andb_true_iff in Hc. destruct Hc as [Hc Hw].
    rewrite Hc. exact (Hs Hw).
  - destruct (code c =? 10)%nat; [|discriminate]. injection H as <-.
    exists w. split; [reflexivity|].
    cbn [all_chars]. intros Hc. apply andb_true_iff in Hc.
    rewrite (proj1 Hc). reflexivity.
Qed.

Lemma match_header_spec (header s m : string) :
  helm.match_header header s = Some m ->
  exists w rest, m = header ++ w /\ s = m ++ rest
                 /\ all_chars is_space w = true.
Proof.
  unfold helm.match_header. intros H.
  destruct (String.prefix header s) eqn:Ep; [|discriminate].
  apply prefix_iff in Ep. destruct Ep as [post ->].
  rewrite drop_append in H.
  pose proof (span_space_spec post) as [Hpost Hsp].
  destruct (helm.span_space post) as [w0 rest0]. cbn [fst snd] in *.
  destruct (helm.through_last_newline w0) as [t|] eqn:Et; [|discriminate].
  injection H as <-.
  destruct (through_last_newline_spec w0 t Et) as (rest1 & -> & Ht).
  exists t, (rest1 ++ rest0). split; [reflexivity|]. split.
  - rewrite Hpost, !append_assoc. reflexivity.
  - exact (Ht Hsp).
Qed.

Lemma search_header_spec (header : string) (s : string) :
  forall at_line_start pos match_start match_end,
    helm.search_header header at_line_start pos s
    = Some (match_start, match_end) ->
    exists before w after,
      s = before ++ (header ++ w) ++ after
      /\ match_start = (pos + String.length before)%nat
      /\ match_end = (match_start + String.length (header ++ w))%nat
      /\ all_chars is_space w = true.
Proof.
  induction s as [|c s IH]; intros bol pos st en H.
  - cbn [helm.search_header] in H.
    destruct (if bol then helm.match_header header EmptyString else None)
      as [m|] eqn:Em; [|discriminate].
    destruct bol; [|discriminate]. injection H as <- <-.
    destruct (match_header_spec _ _ _ Em) as (w & rest & -> & Hs & Hw).
    exists EmptyString, w, rest. cbn [String.append String.length].
    rewrite Nat.add_0_r. repeat split; assumption.
  - cbn [helm.search_header] in H.
    destruct (if bol then helm.match_header header (String c s) else None)
      as [m|] eqn:Em.
    + destruct bol; [|discriminate]. injection H as <- <-.
      destruct (match_header_spec _ _ _ Em) as (w & rest & -> & Hs & Hw).
      exists EmptyString, w, rest. cbn [String.append String.length].
      rewrite Nat.add_0_r. repeat split; assumption.
    + destruct (IH _ _ _ _ H) as (before & w & after & -> & -> & -> & Hw).
      exists (String c before), w, after. cbn [String.append String.length].
      repeat split; [lia|exact Hw].
Qed.

Lemma search_header_found (header s : string) (bol : bool) (pos : nat)
      (found : nat * nat) :
  helm.search_header header bol pos s = Some found ->
  contains header s = true.
Proof.
  destruct found as [st en]. intros H.
  destruct (search_header_spec _ _ _ _ _ _ H) as (before & w & after & -> & _).
  apply contains_iff. exists before, (w ++ after).
  rewrite !append_assoc. reflexivity.
Qed.

(** X28.  What [_strip_non_manifest] keeps of helm's output: one
    contiguous piece, stripped of surrounding whitespace and ended by a
    line feed.  The piece starts at the beginning of the output or
    right after a [MANIFEST:] header and the whitespace that follows
    it, and ends at the end of the output or right before a [NOTES:]
    header.  An output that holds neither word is kept whole. *)
Theorem _strip_non_manifest_keeps_one_section (output : string) :
  (exists skipped kept dropped,
      output = skipped ++ kept ++ dropped
      /\ helm._strip_non_manifest output = strip kept ++ newline
      /\ (skipped = EmptyString
          \/ exists pre w, skipped = pre ++ "MANIFEST:" ++ w
                           /\ all_chars is_space w = true)
      /\ (dropped = EmptyString \/ String.prefix "NOTES:" dropped = true))
  /\ (contains "MANIFEST:" output = false ->
      contains "NOTES:" output = false ->
      helm._strip_non_manifest output = strip output ++ newline)
  /\ helm._strip_non_manifest helm_examples.dry_run_output
     = helm_examples.manifest_section.
Proof.
  split; [|split; [|vm_compute; reflexivity]].
  - unfold helm._strip_non_manifest.
    assert (Hrest : forall skipped rest,
               output = skipped ++ rest ->
               (skipped = EmptyString
                \/ exists pre w, skipped = pre ++ "MANIFEST:" ++ w
                                 /\ all_chars is_space w = true) ->
               exists skipped' kept dropped,
                 output = skipped' ++ kept ++ dropped
                 /\ strip (match helm.search_header "NOTES:" true 0 rest with
                           | Some (match_start, _) =>
                               String.substring 0 match_start rest
                           | None => rest
                           end) ++ String (ascii_of_nat 10) EmptyString
                    = strip kept ++ newline
                 /\ (skipped' = EmptyString
                     \/ exists pre w, skipped' = pre ++ "MANIFEST:" ++ w
                                      /\ all_chars is_space w = true)
                 /\ (dropped = EmptyString
                     \/ String.prefix "NOTES:" dropped = true)).
    { intros skipped rest Hout Hsk.
      destruct (helm.search_header "NOTES:" true 0 rest) as [[st en]|] eqn:En.
      - destruct (search_header_spec _ _ _ _ _ _ En)
          as (before & w & after & -> & -> & _ & _).
        exists skipped, before, (("NOTES:" ++ w) ++ after).
        cbn [Nat.add]. rewrite substring_append.
        split; [exact Hout|]. split; [reflexivity|]. split; [exact Hsk|].
        right. apply prefix_iff. exists (w ++ after).
        rewrite !append_assoc. reflexivity.
      - exists skipped, rest, EmptyString. rewrite append_nil_r.
        split; [exact Hout|]. split; [reflexivity|]. split; [exact Hsk|].
        left; reflexivity. }
    destruct (helm.search_header "MANIFEST:" true 0 output)
      as [[st en]|] eqn:Em.
    + destruct (search_header_spec _ _ _ _ _ _ Em)
        as (before & w & after & Hout & -> & -> & Hw).
      cbn [Nat.add].
      replace (drop (String.length before + String.length ("MANIFEST:" ++ w))
                    output) with after.
      * apply (Hrest (before ++ "MANIFEST:" ++ w) after).
        -- rewrite Hout, !append_assoc. reflexivity.
        -- right. exists before, w. split; [reflexivity|exact Hw].
      * rewrite <- length_append.
        replace output with ((before ++ "MANIFEST:" ++ w) ++ after)
          by (rewrite Hout, !append_assoc; reflexivity).
        rewrite drop_append. reflexivity.
    + apply (Hrest EmptyString output); [reflexivity|left; reflexivity].
  - intros Hm Hn. unfold helm._strip_non_manifest.
    destruct (helm.search_header "MANIFEST:" true 0 output) as [f|] eqn:Em.
    { rewrite (search_header_found _ _ _ _ _ Em) in Hm. discriminate. }
    destruct (helm.search_header "NOTES:" true 0 output) as [f|] eqn:En.
    { rewrite (search_header_found _ _ _ _ _ En) in Hn. discriminate. }
    reflexivity.
Qed.

(** ** Failing commands *)

Section ShellFacts.
Context {rt : Runtime} {sh : Shell}.
Import cli_steps.

(** X29.  Which commands stop [diff] with the error exit.  A kubectl
    that exits with a non-zero status never does: when every
    server-side dry run ends in [RunError], steps 3 to 7 with
    [--server-side] give what they give without it.  A helm that exits
    with a non-zero status always does: [diff] ends with the error
    exit exactly when [helm get manifest] ends in [RunError], or the
    live manifest parses and [helm upgrade --dry-run] ends in
    [RunError].  A command that cannot be run is not caught: its
    exception leaves [diff] from [helm get manifest], and leaves steps
    3 to 7 from a server-side dry run unless another exception leaves
    them first. *)
Theorem only_helm_failures_stop_diff
        (release chart : string) (namespace : option string)
        (values set_values : list string) (version : option string)
        (server_side show_all : bool) (ignore_path : list string)
        (kubeconfig kube_context : option string) :
  let ns := match namespace with
            | Some (String c s) => String c s
            | _ => "default"
            end in
  let kube_opts := mkKubeOpts kubeconfig kube_context in
  (forall live upgrade,
      (forall res, In res upgrade ->
         kubectl.server_side_dry_run (yaml_dump (loaded_body res)) ns
                                     kube_opts
         = RunError) ->
      after_parsing live upgrade ns kube_opts true show_all ignore_path =
      after_parsing live upgrade ns kube_opts false show_all ignore_path)
  /\ (diff release chart namespace values set_values version server_side
           show_all ignore_path kubeconfig kube_context = ErrorExit <->
      helm.get_manifest release ns kube_opts = RunError
      \/ exists live_yaml live_resources,
           helm.get_manifest release ns kube_opts = Completed live_yaml
           /\ parse_multi_doc live_yaml ns = Ok live_resources
           /\ helm.dry_run_upgrade release chart ns values set_values
                                   version kube_opts = RunError)
  /\ (helm.get_manifest release ns kube_opts = NotRun ->
      diff release chart namespace values set_values version server_side
           show_all ignore_path kubeconfig kube_context
      = Uncaught Subprocess)
  /\ (forall live upgrade res,
        In res upgrade ->
        kubectl.server_side_dry_run (yaml_dump (loaded_body res)) ns
                                    kube_opts
        = NotRun ->
        exists u,
          after_parsing live upgrade ns kube_opts true show_all ignore_path
          = Escaped u).
Proof.
  intros ns kube_opts. split; [|split; [|split]].
  - intros live upgrade Hfail. unfold after_parsing.
    rewrite (apply_server_side_all_failed upgrade ns kube_opts Hfail).
    reflexivity.
  - unfold diff. fold ns. fold kube_opts.
    destruct (helm.get_manifest release ns kube_opts) as [live_yaml| |].
    + destruct (parse_multi_doc live_yaml ns) as [live_resources|e] eqn:Ep.
      * destruct (helm.dry_run_upgrade release chart ns values set_values
                                       version kube_opts) as [upgrade_yaml| |].
        -- split.
           ++ destruct (parse_multi_doc upgrade_yaml ns); [|discriminate].
              destruct (after_parsing _ _ _ _ _ _ _) as [[? ?]|?];
                discriminate.
           ++ intros [H|(ly & lr & _ & _ & H)]; discriminate.
        -- split; [|reflexivity]. intros _. right.
           exists live_yaml, live_resources. auto.
        -- split; [discriminate|].
           intros [H|(ly & lr & _ & _ & H)]; discriminate.
      * split; [discriminate|].
        intros [H|(ly & lr & Hl & Hp & _)]; [discriminate|].
        injection Hl as <-. congruence.
    + split; [|reflexivity]. intros _. left; reflexivity.
    + split; [discriminate|].
      intros [H|(ly & lr & H & _)]; discriminate.
  - intros H. unfold diff. fold ns. fold kube_opts. rewrite H. reflexivity.
  - intros live upgrade res Hin Hn. unfold after_parsing.
    destruct (apply_server_side_not_run upgrade ns kube_opts res Hin Hn)
      as [u ->].
    exists u. reflexivity.
Qed.
End ShellFacts.

Lemma only_helm_failures_stop_diff_witness :
  let rt := partial_doc.rt in
  let live := [shell_examples.untyped] in
  let upgrade := [shell_examples.settings; shell_examples.untyped] in
  let ko := mkKubeOpts None None in
  @cli_steps.after_parsing rt shell_examples.offline
     live upgrade "default" ko true false [] =
  @cli_steps.after_parsing rt shell_examples.offline
     live upgrade "default" ko false false []
  /\ @cli_steps.diff rt shell_examples.offline
       "shop" "./chart" None [] [] None true false [] None None
     = cli_steps.ErrorExit
  /\ @cli_steps.diff rt shell_examples.no_kubectl
       "shop" "./chart" None [] [] None true false [] None None
     = cli_steps.ErrorExit.
Proof.
  split; [|split].
  - apply (proj1 (@only_helm_failures_stop_diff partial_doc.rt
                    shell_examples.offline "shop" "./chart" None [] [] None
                    true false [] None None)).
    intros res _. reflexivity.
  - reflexivity.
  - apply (proj2 (proj1 (proj2 (@only_helm_failures_stop_diff partial_doc.rt
                    shell_examples.no_kubectl "shop" "./chart" None [] []
                    None true false [] None None)))).
    right. eexists. eexists.
    split; [reflexivity|]. split; [vm_compute; reflexivity|reflexivity].
Defined.

(** ** List sorting *)

Section ListSortFacts.
Context {rt : Runtime}.

Lemma sort_list_under_spec (d : pydict) (rest : list string)
      (sort_key k : string) :
  rest <> [] -> k <> "spec" ->
  exists d',
    _sort_list_at_path (VDict d) ("spec" :: rest) sort_key = VDict d'
    /\ keys d' = keys d
    /\ dict_get k d' = dict_get k d
    /\ (dict_get "spec" d = None -> d' = d).
Proof.
  intros Hrest Hk. cbn [_sort_list_at_path].
  destruct (dict_get "spec" d) as [target|] eqn:Es.
  - destruct rest as [|k2 rest]; [contradiction Hrest; reflexivity|].
    eexists. split; [reflexivity|]. split; [|split].
    + rewrite keys_dict_set.
      assert (Hm : mem "spec" (keys d) = true).
      { apply mem_In. unfold keys. apply in_map_iff. exists ("spec", target).
        split; [reflexivity|exact (dict_get_in _ _ _ Es)]. }
      rewrite Hm. reflexivity.
    + rewrite dict_get_set. apply String.eqb_neq in Hk. rewrite Hk.
      reflexivity.
    + discriminate.
  - exists d. repeat split.
Qed.

(** X30.  The list sorting of [normalize_body] stays inside [spec]:
    the body keeps its keys in their order and every top-level entry
    other than [spec] keeps its value, and a body without a [spec]
    entry is returned as it is. *)
Theorem list_sorting_stays_inside_spec (d : pydict) (k : string) :
  k <> "spec" ->
  exists d',
    _sort_known_lists (VDict d) = VDict d'
    /\ keys d' = keys d
    /\ dict_get k d' = dict_get k d
    /\ (dict_get "spec" d = None -> d' = d).
Proof.
  intros Hk. unfold _sort_known_lists.
  assert (Hfold : forall entries,
             (forall e, In e entries ->
                exists rest, split_dots EmptyString (fst e) = "spec" :: rest
                             /\ rest <> []) ->
             forall d0, exists d',
               fold_left
                 (fun b entry =>
                    _sort_list_at_path b (split_dots EmptyString (fst entry))
                                       (snd entry))
                 entries (VDict d0) = VDict d'
               /\ keys d' = keys d0
               /\ dict_get k d' = dict_get k d0
               /\ (dict_get "spec" d0 = None -> d' = d0)).
  { induction entries as [|e entries IH]; intros He d0.
    - exists d0. repeat split.
    - destruct (He e (or_introl eq_refl)) as (rest & Hs & Hr).
      destruct (sort_list_under_spec d0 rest (snd e) k Hr Hk)
        as (d1 & E1 & K1 & G1 & N1).
      destruct (IH (fun x Hx => He x (or_intror Hx)) d1)
        as (d' & E & K & G & N).
      exists d'. cbn [fold_left]. rewrite Hs, E1.
      split; [exact E|]. split; [congruence|]. split; [congruence|].
      intros Hnone. rewrite <- (N1 Hnone). apply N.
      rewrite (N1 Hnone). exact Hnone. }
  apply Hfold. intros e He. unfold UNORDERED_LIST_SORT_KEYS in He.
  repeat (destruct He as [<-|He];
          [eexists; split; [vm_compute; reflexivity|discriminate]|]).
  contradiction.
Qed.
End ListSortFacts.

Lemma list_sorting_stays_inside_spec_witness :
  let rt := noise_only.rt in
  "data" <> "spec"
  /\ exists d',
       _sort_known_lists (VDict noise_only.live_body) = VDict d'
       /\ keys d' = keys noise_only.live_body
       /\ dict_get "data" d' = dict_get "data" noise_only.live_body
       /\ (dict_get "spec" noise_only.live_body = None ->
           d' = noise_only.live_body).
Proof.
  split; [discriminate|].
  apply (@list_sorting_stays_inside_spec noise_only.rt noise_only.live_body
           "data").
  discriminate.
Defined.
